(** * mkosi/util.py: a shallow embedding and its properties

    The module is a handful of helpers around process-wide state: the
    environment, the working directory, the file-creation mask, a file lock,
    the identity of the invoking user, and a reader for env files.  Pure
    helpers become functions; everything that touches the process becomes a
    computation over an explicit [World], in a small monad whose results are
    a value, a raised exception, or a call that never returns. *)

From Stdlib Require Import ZArith Lia Bool Ascii String List.
From stdpp Require Import base option gmap strings list sorting.

(** ** Python results *)

Module Py.

(** The exception classes the module can surface. *)
Inductive exn : Type :=
| FileNotFoundError
| PermissionError
| OSError_EBADF
| OSError_EINVAL
| OSError_ENAMETOOLONG
| NotADirectoryError
| IsADirectoryError
| TypeError
| ValueError
| SyntaxError
| KeyError
| RuntimeError
| NameError
| BodyError (tag : nat).     (* whatever the caller's scope body raises *)

(** Outcome of running a piece of code: it returns, it raises, or it
    never comes back (a blocking system call that is never woken). *)
Inductive res (A : Type) : Type :=
| Ret (a : A)
| Raise (e : exn)
| Hang.
Arguments Ret {A} a.
Arguments Raise {A} e.
Arguments Hang {A}.

End Py.
Export Py.


(** ** Python values

    The module handles strings, integers and, where its annotations say
    [Any], objects it knows nothing about. *)

(** An argument typed [Any]: a [str], or some object that is not one. *)
Inductive pyobj : Type :=
| PyStr (s : string)
| PyOther.

(** An operand of the [or] chains of [INVOKING_USER]: [os.getenv] hands out
    a [str], [os.getuid] and [os.getgid] an [int]. *)
Inductive str_or_int : Type :=
| IsStr (s : string)
| IsInt (z : Z).

(** [pathlib.Path], by its text, [str(path)].  ([pathlib] keeps that text
    free of doubled and trailing slashes and of components that are a
    single dot; the functions below take any text.) *)
Definition Path : Type := string.

(** ** The world

    Everything the module reads or changes outside its own locals. *)

Inductive level : Type := DEBUG | INFO | WARNING | ERROR | CRITICAL.

(** A call of the [logging] module.  The two messages of the module are kept
    by their interpolated parts rather than rendered:
    [f"{path}:{line_number}: bad line {line!r}"] and
    [f"Running as user '{name}' ({cls.uid}:{cls.gid}) with home {home}."]. *)
Inductive message : Type :=
| MsgBadLine (path : Path) (line_number : nat) (line : string)
| MsgRunningAs (name : string) (uid gid : Z) (home : Path).

Record log_record : Type := LogRecord { lr_level : level; lr_msg : message }.

(** A regular file: whether the process may read it, and its decoded text
    (one character per code point below 256). *)
Record file : Type := File { f_readable : bool; f_text : string }.

(** An entry of the descriptor table. *)
Record open_file : Type := OpenFile {
  of_path : Path;
  of_cloexec : bool;
  of_lock_ex : bool          (* holds the exclusive advisory lock *)
}.

(** The class attributes of [INVOKING_USER]. *)
Record identity : Type := Identity {
  uid : Z;
  gid : Z;
  invoked_as_root : bool
}.

(** Fields of [World]:
    - [os_environ]: the mapping the name [os.environ] denotes;
    - [c_environ]: the C-level table [putenv] writes, inherited by children;
    - [tempfile_tempdir]: [tempfile.tempdir], the cached default;
    - [cwd]: working directory, by the absolute name the kernel last knew
      it under;
    - [dirs]: the directories that exist, by absolute name;
    - [no_search]: the directories the process may not search or enter;
    - [no_read]: the directories the process may not open for reading;
    - [chdir_calls]: every [os.chdir] call so far, oldest first;
    - [proc_umask]: file-creation mask;
    - [files]: the regular files that exist, by absolute name;
    - [fds]: open descriptors;
    - [locked_elsewhere]: files another process holds locked for good;
    - [real_uid]: [os.getuid()];
    - [real_gid]: [os.getgid()];
    - [logged]: calls of the logging module, oldest first;
    - [class_attrs]: attributes of [INVOKING_USER], once the class statement ran;
    - [name_cache]: [lru_cache] of [INVOKING_USER.name];
    - [home_cache]: [lru_cache] of [INVOKING_USER.home].

    The file system is one of directories and regular files: there are no
    symbolic links and no mount points, every file has a text, and what
    the process may do with a name is given per name rather than derived
    from owners and mode bits. *)
Record World : Type := MkWorld {
  os_environ : gmap string string;
  c_environ : gmap string string;
  tempfile_tempdir : option string;
  cwd : Path;
  dirs : gset Path;
  no_search : gset Path;
  no_read : gset Path;
  chdir_calls : list string;
  proc_umask : Z;
  files : gmap Path file;
  fds : gmap nat open_file;
  locked_elsewhere : gset Path;
  real_uid : Z;
  real_gid : Z;
  logged : list log_record;
  class_attrs : option identity;
  name_cache : option string;
  home_cache : option Path
}.

Definition set_os_environ (x : gmap string string) (w : World) : World :=
  MkWorld x (c_environ w) (tempfile_tempdir w) (cwd w) (dirs w) (no_search w)
          (no_read w) (chdir_calls w) (proc_umask w) (files w) (fds w)
          (locked_elsewhere w) (real_uid w) (real_gid w) (logged w)
          (class_attrs w) (name_cache w) (home_cache w).

Definition set_c_environ (x : gmap string string) (w : World) : World :=
  MkWorld (os_environ w) x (tempfile_tempdir w) (cwd w) (dirs w) (no_search w)
          (no_read w) (chdir_calls w) (proc_umask w) (files w) (fds w)
          (locked_elsewhere w) (real_uid w) (real_gid w) (logged w)
          (class_attrs w) (name_cache w) (home_cache w).

Definition set_tempfile_tempdir (x : option string) (w : World) : World :=
  MkWorld (os_environ w) (c_environ w) x (cwd w) (dirs w) (no_search w)
          (no_read w) (chdir_calls w) (proc_umask w) (files w) (fds w)
          (locked_elsewhere w) (real_uid w) (real_gid w) (logged w)
          (class_attrs w) (name_cache w) (home_cache w).

Definition set_cwd (x : Path) (w : World) : World :=
  MkWorld (os_environ w) (c_environ w) (tempfile_tempdir w) x (dirs w)
          (no_search w) (no_read w) (chdir_calls w) (proc_umask w) (files w)
          (fds w) (locked_elsewhere w) (real_uid w) (real_gid w) (logged w)
          (class_attrs w) (name_cache w) (home_cache w).

Definition set_dirs (x : gset Path) (w : World) : World :=
  MkWorld (os_environ w) (c_environ w) (tempfile_tempdir w) (cwd w) x
          (no_search w) (no_read w) (chdir_calls w) (proc_umask w) (files w)
          (fds w) (locked_elsewhere w) (real_uid w) (real_gid w) (logged w)
          (class_attrs w) (name_cache w) (home_cache w).

Definition set_no_search (x : gset Path) (w : World) : World :=
  MkWorld (os_environ w) (c_environ w) (tempfile_tempdir w) (cwd w) (dirs w) x
          (no_read w) (chdir_calls w) (proc_umask w) (files w) (fds w)
          (locked_elsewhere w) (real_uid w) (real_gid w) (logged w)
          (class_attrs w) (name_cache w) (home_cache w).

Definition set_no_read (x : gset Path) (w : World) : World :=
  MkWorld (os_environ w) (c_environ w) (tempfile_tempdir w) (cwd w) (dirs w)
          (no_search w) x (chdir_calls w) (proc_umask w) (files w) (fds w)
          (locked_elsewhere w) (real_uid w) (real_gid w) (logged w)
          (class_attrs w) (name_cache w) (home_cache w).

Definition set_chdir_calls (x : list string) (w : World) : World :=
  MkWorld (os_environ w) (c_environ w) (tempfile_tempdir w) (cwd w) (dirs w)
          (no_search w) (no_read w) x (proc_umask w) (files w) (fds w)
          (locked_elsewhere w) (real_uid w) (real_gid w) (logged w)
          (class_attrs w) (name_cache w) (home_cache w).

Definition set_proc_umask (x : Z) (w : World) : World :=
  MkWorld (os_environ w) (c_environ w) (tempfile_tempdir w) (cwd w) (dirs w)
          (no_search w) (no_read w) (chdir_calls w) x (files w) (fds w)
          (locked_elsewhere w) (real_uid w) (real_gid w) (logged w)
          (class_attrs w) (name_cache w) (home_cache w).

Definition set_files (x : gmap Path file) (w : World) : World :=
  MkWorld (os_environ w) (c_environ w) (tempfile_tempdir w) (cwd w) (dirs w)
          (no_search w) (no_read w) (chdir_calls w) (proc_umask w) x (fds w)
          (locked_elsewhere w) (real_uid w) (real_gid w) (logged w)
          (class_attrs w) (name_cache w) (home_cache w).

Definition set_fds (x : gmap nat open_file) (w : World) : World :=
  MkWorld (os_environ w) (c_environ w) (tempfile_tempdir w) (cwd w) (dirs w)
          (no_search w) (no_read w) (chdir_calls w) (proc_umask w) (files w) x
          (locked_elsewhere w) (real_uid w) (real_gid w) (logged w)
          (class_attrs w) (name_cache w) (home_cache w).

Definition set_real_uid (x : Z) (w : World) : World :=
  MkWorld (os_environ w) (c_environ w) (tempfile_tempdir w) (cwd w) (dirs w)
          (no_search w) (no_read w) (chdir_calls w) (proc_umask w) (files w)
          (fds w) (locked_elsewhere w) x (real_gid w) (logged w)
          (class_attrs w) (name_cache w) (home_cache w).

Definition set_real_gid (x : Z) (w : World) : World :=
  MkWorld (os_environ w) (c_environ w) (tempfile_tempdir w) (cwd w) (dirs w)
          (no_search w) (no_read w) (chdir_calls w) (proc_umask w) (files w)
          (fds w) (locked_elsewhere w) (real_uid w) x (logged w)
          (class_attrs w) (name_cache w) (home_cache w).

Definition set_logged (x : list log_record) (w : World) : World :=
  MkWorld (os_environ w) (c_environ w) (tempfile_tempdir w) (cwd w) (dirs w)
          (no_search w) (no_read w) (chdir_calls w) (proc_umask w) (files w)
          (fds w) (locked_elsewhere w) (real_uid w) (real_gid w) x
          (class_attrs w) (name_cache w) (home_cache w).

Definition set_class_attrs (x : option identity) (w : World) : World :=
  MkWorld (os_environ w) (c_environ w) (tempfile_tempdir w) (cwd w) (dirs w)
          (no_search w) (no_read w) (chdir_calls w) (proc_umask w) (files w)
          (fds w) (locked_elsewhere w) (real_uid w) (real_gid w) (logged w) x
          (name_cache w) (home_cache w).

Definition set_name_cache (x : option string) (w : World) : World :=
  MkWorld (os_environ w) (c_environ w) (tempfile_tempdir w) (cwd w) (dirs w)
          (no_search w) (no_read w) (chdir_calls w) (proc_umask w) (files w)
          (fds w) (locked_elsewhere w) (real_uid w) (real_gid w) (logged w)
          (class_attrs w) x (home_cache w).

Definition set_home_cache (x : option Path) (w : World) : World :=
  MkWorld (os_environ w) (c_environ w) (tempfile_tempdir w) (cwd w) (dirs w)
          (no_search w) (no_read w) (chdir_calls w) (proc_umask w) (files w)
          (fds w) (locked_elsewhere w) (real_uid w) (real_gid w) (logged w)
          (class_attrs w) (name_cache w) x.

(** ** Computations over the world *)

Definition M (A : Type) : Type := World -> res A * World.

Definition ret {A} (a : A) : M A := fun w => (Ret a, w).

Definition raise {A} (e : exn) : M A := fun w => (Raise e, w).

Definition bind {A B} (m : M A) (k : A -> M B) : M B :=
  fun w =>
    match m w with
    | (Ret a, w1) => k a w1
    | (Raise e, w1) => (Raise e, w1)
    | (Hang, w1) => (Hang, w1)
    end.

(** The monad is used through stdpp's notations: [x ← m; k] and [m ;; k]. *)
#[global] Instance M_ret : MRet M := @ret.
#[global] Instance M_bind : MBind M := fun A B k m => bind m k.

(** Reading a part of the world, calling a library function that only
    reads it, and changing it. *)
Definition reads {A} (f : World -> A) : M A := fun w => (Ret (f w), w).
Definition asks {A} (f : World -> res A) : M A := fun w => (f w, w).
Definition modify (f : World -> World) : M unit := fun w => (Ret tt, f w).

(** A computation that leaves the class attributes alone, however it ends. *)
Definition keeps_attrs {A} (m : M A) : Prop :=
  forall w, class_attrs (m w).2 = class_attrs w.

(** [try: body finally: cleanup].  The cleanup runs whether the body
    returned or raised; an exception of the cleanup replaces the body's
    outcome; a body that never returns never reaches it. *)
Definition try_finally {A} (body : M A) (cleanup : M unit) : M A :=
  fun w =>
    match body w with
    | (Hang, w1) => (Hang, w1)
    | (r, w1) =>
        match cleanup w1 with
        | (Ret _, w2) => (r, w2)
        | (Raise e, w2) => (Raise e, w2)
        | (Hang, w2) => (Hang, w2)
        end
    end.

(** A [for] loop over a list, stopping at the first exception. *)
Fixpoint for_each {A} (f : A -> M unit) (l : list A) : M unit :=
  match l with
  | [] => ret tt
  | x :: l' => f x ;; for_each f l'
  end.


(** ** The environment

    [os.environ] is a mapping object over a dict of its own; storing an item
    also calls [putenv], so that the C-level table follows.  The value is
    checked first: it must be a [str] (the key is one by its annotation).
    Then [putenv] converts both arguments, refusing a NUL in either, refuses
    a name that holds ['='], and calls [setenv], which refuses the empty
    name with [EINVAL].  Nothing is written when a check fails. *)

Definition NUL : ascii := "000"%char.

Fixpoint has_char (c : ascii) (s : string) : bool :=
  match s with
  | EmptyString => false
  | String c' s' => if Ascii.eqb c c' then true else has_char c s'
  end.

Definition legal_env_name (name : string) : bool :=
  negb (String.eqb name EmptyString) && negb (has_char "="%char name).

(** [os.environ[key] = value] *)
Definition environ_setitem (key : string) (value : pyobj) : M unit :=
  fun w =>
    match value with
    | PyOther => (Raise TypeError, w)
    | PyStr v =>
        if has_char NUL key || has_char NUL v then (Raise ValueError, w)
        else if has_char "="%char key then (Raise ValueError, w)
        else if String.eqb key EmptyString then (Raise OSError_EINVAL, w)
        else (Ret tt, set_os_environ (<[key:=v]> (os_environ w))
                        (set_c_environ (<[key:=v]> (c_environ w)) w))
    end.

(** The items [environ_setitem] takes. *)
Definition accepts (key : string) (value : pyobj) : bool :=
  match value with
  | PyOther => false
  | PyStr v => negb (has_char NUL key || has_char NUL v) && legal_env_name key
  end.


(** A [Mapping[str, Any]] is given by its items in the order it hands
    them out; the keys of a mapping are distinct.

    [os.environ |= env]: [update] stores the items of [env] one by one, in
    that order, and stops at the first one that is refused; the object
    stays the same one. *)
Definition environ_ior (env : list (string * pyobj)) : M unit :=
  for_each (fun kv => environ_setitem kv.1 kv.2) env.

(** [copy.deepcopy(os.environ)]: a mapping object of its own, with a copy
    of the dict. *)
Definition deepcopy_environ : M (gmap string string) :=
  fun w => (Ret (os_environ w), w).

(** [os.environ = old]: the name is bound to another object; [putenv] and
    [unsetenv] are not called. *)
Definition rebind_environ (old : gmap string string) : M unit :=
  fun w => (Ret tt, set_os_environ old w).

(** [tempfile.tempdir = t] *)
Definition assign_tempdir (t : option string) : M unit :=
  fun w => (Ret tt, set_tempfile_tempdir t w).

(** [os.getenv(key)] reads [os.environ]. *)
Definition os_getenv (key : string) : M (option string) :=
  fun w => (Ret (os_environ w !! key), w).

(** ** [scopedenv]

    The decorated generator yields once; the [with] statement runs its body
    at the [yield], which the embedding takes as an argument. *)
Definition scopedenv {A} (env : list (string * pyobj)) (body : M A) : M A :=
  old ← deepcopy_environ;
  environ_ior env ;;
  assign_tempdir None ;;
  try_finally body
    (rebind_environ old ;;
     assign_tempdir None).

(** The [str] items of a mapping of overrides, as a table. *)
Definition str_items (env : list (string * pyobj)) : gmap string string :=
  list_to_map
    (omap (fun kv : string * pyobj =>
             match kv.2 with PyStr s => Some (kv.1, s) | PyOther => None end) env).

(** The world once the items of [env] are stored: they are merged into
    both tables, over what was there. *)
Definition merged (env : list (string * pyobj)) (w : World) : World :=
  set_os_environ (str_items env ∪ os_environ w)
    (set_c_environ (str_items env ∪ c_environ w) w).

(** The world in which the scope body starts when every item was taken:
    the overrides are merged, and the cached temporary directory is
    dropped. *)
Definition scopedenv_world (env : list (string * pyobj)) (w : World) : World :=
  set_tempfile_tempdir None (merged env w).

(** ** [umask] *)

(** [os.umask(mask)]: the kernel keeps the permission bits of [mask] and
    hands back the mask it replaces. *)
Definition S_IRWXUGO : Z := 511.   (* 0o777 *)

Definition os_umask (mask : Z) : M Z :=
  fun w => (Ret (proc_umask w), set_proc_umask (Z.land mask S_IRWXUGO) w).

Definition umask {A} (mask : Z) (body : M A) : M A :=
  old ← os_umask mask;
  try_finally body
    (os_umask old ;; mret tt).


(** ** Names and what they lead to

    The kernel resolves a name one component at a time: from the root for
    an absolute name, from the working directory otherwise.  Every
    component, the dots included, is looked up in a directory the process
    must be allowed to search; a component before the last must lead to a
    directory; ["."] stays, [".."] goes up, and at the root stays.  Empty
    components do not count, but a trailing slash asks for a directory.
    Python refuses a name with a NUL before the kernel sees it. *)

(** Characters are code points below 256. *)
Definition code (c : ascii) : nat := nat_of_ascii c.

Definition in_range (lo hi : nat) (c : ascii) : bool :=
  Nat.leb lo (code c) && Nat.leb (code c) hi.

(** The length of the name as the kernel gets it, encoded in UTF-8. *)
Fixpoint byte_length (s : string) : nat :=
  match s with
  | EmptyString => 0
  | String c s' => (if Nat.ltb (code c) 128 then 1 else 2) + byte_length s'
  end.

Definition PATH_MAX : nat := 4096.
Definition NAME_MAX : nat := 255.

Definition is_abs (p : string) : bool :=
  match p with
  | String "/"%char _ => true
  | _ => false
  end.

(** [p.split("/")] *)
Fixpoint split_slash (s : string) : list string :=
  match s with
  | EmptyString => [EmptyString]
  | String c rest =>
      if Ascii.eqb c "/"%char then EmptyString :: split_slash rest
      else
        match split_slash rest with
        | h :: t => String c h :: t
        | [] => [String c EmptyString]
        end
  end.

(** The components of a name, empty ones left out. *)
Definition components (p : string) : list string :=
  filter (fun c => c <> EmptyString) (split_slash p).

(** The absolute name made of components, the root for none. *)
Definition render (cs : list string) : Path :=
  match cs with
  | [] => "/"
  | _ :: _ => fold_right (fun c acc => String "/"%char (c +:+ acc)) EmptyString cs
  end.

Fixpoint ends_with_slash (p : string) : bool :=
  match p with
  | EmptyString => false
  | String c rest =>
      match rest with
      | EmptyString => Ascii.eqb c "/"%char
      | String _ _ => ends_with_slash rest
      end
  end.

Section Lookup.

(** What is there under an absolute name: a directory, something that is
    not a directory, or nothing; and whether the process may search the
    directory of that name. *)
Variable is_dir : Path -> bool.
Variable is_other : Path -> bool.
Variable may_search : Path -> bool.

(** The walk from the directory [cur] along [names].  The result is the
    name reached, and whether it is known to be a directory: the start
    and what the dots lead to is one, also when the working directory has
    lost its name; what the last component names has yet to be looked
    at by the caller. *)
Fixpoint walk (cur : list string) (names : list string) : exn + (Path * bool) :=
  match names with
  | [] => inr (render cur, true)
  | c :: rest =>
      if negb (may_search (render cur)) then inl PermissionError
      else if String.eqb c "." then walk cur rest
      else if String.eqb c ".." then walk (removelast cur) rest
      else if Nat.ltb NAME_MAX (byte_length c) then inl OSError_ENAMETOOLONG
      else
        match rest with
        | [] => inr (render (cur ++ [c]), false)
        | _ :: _ =>
            if is_dir (render (cur ++ [c])) then walk (cur ++ [c]) rest
            else if is_other (render (cur ++ [c])) then inl NotADirectoryError
            else inl FileNotFoundError
        end
  end.

Definition namei (cwd : Path) (p : string) : exn + (Path * bool) :=
  if has_char NUL p then inl ValueError
  else if String.eqb p EmptyString then inl FileNotFoundError
  else if Nat.leb PATH_MAX (byte_length p) then inl OSError_ENAMETOOLONG
  else
    match walk (if is_abs p then [] else components cwd) (components p) with
    | inl e => inl e
    | inr r =>
        if ends_with_slash p && negb r.2 && negb (is_dir r.1) then
          inl (if is_other r.1 then NotADirectoryError else FileNotFoundError)
        else inr r
    end.

End Lookup.

(** A name as the kernel reports it for a directory: absolute, one slash
    before each component, no dots. *)
Definition proper_name (c : string) : bool :=
  negb (String.eqb c ".") && negb (String.eqb c "..").

Definition is_canonical (p : Path) : bool :=
  is_abs p && forallb proper_name (components p)
  && String.eqb (render (components p)) p.

(** The lookup in the world. *)
Definition lookup (w : World) (p : string) : exn + (Path * bool) :=
  namei (fun n => bool_decide (n ∈ dirs w))
        (fun n => bool_decide (is_Some (files w !! n)))
        (fun n => bool_decide (n ∉ no_search w))
        (cwd w) p.

(** Is what the lookup reached a directory? *)
Definition is_directory (w : World) (r : Path * bool) : bool :=
  r.2 || bool_decide (r.1 ∈ dirs w).

(** ** [chdir] *)

(** [chdir(2)]: the directory the call enters, or its error.  Entering
    takes search permission on the directory itself. *)
Definition chdir_target (w : World) (p : string) : exn + Path :=
  match lookup w p with
  | inl e => inl e
  | inr r =>
      if is_directory w r then
        if bool_decide (r.1 ∈ no_search w) then inl PermissionError else inr r.1
      else if bool_decide (is_Some (files w !! r.1)) then inl NotADirectoryError
      else inl FileNotFoundError
  end.

(** [os.chdir(p)]; the call is recorded whether or not it succeeds. *)
Definition os_chdir (p : string) : M unit :=
  fun w =>
    let w1 := set_chdir_calls (chdir_calls w ++ [p]) w in
    match chdir_target w p with
    | inr n => (Ret tt, set_cwd n w1)
    | inl e => (Raise e, w1)
    end.

(** [Path.cwd()], over [os.getcwd()]: the name of the working directory,
    which the call does not find once the directory was removed. *)
Definition Path_cwd : M Path :=
  fun w =>
    if bool_decide (cwd w ∈ dirs w) then (Ret (cwd w), w)
    else (Raise FileNotFoundError, w).

Section Chdir.

(** [mkosi.types.PathString] is declared outside this file.  All [chdir]
    asks of it is the comparison [old == directory] with a [Path] on the
    left, and the text [os.chdir] receives. *)
Variable PathString : Type.
Variable path_eq : Path -> PathString -> bool.
Variable fspath : PathString -> string.

Definition chdir {A} (directory : PathString) (body : M A) : M A :=
  old ← Path_cwd;
  if path_eq old directory then body
  else
    try_finally
      (os_chdir (fspath directory) ;;
       body)
      (os_chdir old).

End Chdir.

Arguments chdir {PathString} path_eq fspath {A} directory body.

(** What the name [PathString] says: a [Path] or a [str].  Two paths are
    equal when their texts are; a [Path] never equals a [str], whatever
    the text. *)
Inductive path_or_str : Type :=
| APath (p : Path)
| AStr (s : string).

Definition path_or_str_eq (old : Path) (d : path_or_str) : bool :=
  match d with
  | APath p => String.eqb old p
  | AStr _ => false
  end.

Definition path_or_str_fspath (d : path_or_str) : string :=
  match d with
  | APath p => p
  | AStr s => s
  end.

(** ** [flock] *)

(** The lowest descriptor number that is free. *)
Fixpoint lowest_from (fuel n : nat) (t : gmap nat open_file) : nat :=
  match fuel with
  | O => n
  | S fuel' =>
      match t !! n with
      | None => n
      | Some _ => lowest_from fuel' (S n) t
      end
  end.

Definition lowest_free (t : gmap nat open_file) : nat :=
  lowest_from (size t) 0 t.

(** [open(2)] for reading: what the call opens, or its error.  A
    directory can be opened when the process may read it, a file when it
    may read that. *)
Definition open_target (w : World) (p : string) : exn + Path :=
  match lookup w p with
  | inl e => inl e
  | inr r =>
      if is_directory w r then
        if bool_decide (r.1 ∈ no_read w) then inl PermissionError else inr r.1
      else
        match files w !! r.1 with
        | Some f => if f_readable f then inr r.1 else inl PermissionError
        | None => inl FileNotFoundError
        end
  end.

(** [os.open(path, os.O_CLOEXEC|os.O_RDONLY)]; the table entry keeps what
    was opened by its absolute name.  The table always has room: the
    limit on open descriptors is not part of the world. *)
Definition os_open_rdonly (path : Path) (cloexec : bool) : M nat :=
  fun w =>
    match open_target w path with
    | inl e => (Raise e, w)
    | inr n =>
        let fd := lowest_free (fds w) in
        (Ret fd, set_fds (<[fd := OpenFile n cloexec false]> (fds w)) w)
    end.

Definition FD_CLOEXEC : Z := 1.
Definition F_GETFD : Z := 1.

(** [fcntl.fcntl(fd, cmd)].  The module passes [fcntl.FD_CLOEXEC] as the
    command, which is the number of [F_GETFD]: the call reads the
    descriptor flags.  Other commands are not modelled and are refused. *)
Definition fcntl_fcntl (fd : nat) (cmd : Z) : M Z :=
  fun w =>
    match fds w !! fd with
    | None => (Raise OSError_EBADF, w)
    | Some f =>
        if (cmd =? F_GETFD)%Z
        then (Ret (if of_cloexec f then FD_CLOEXEC else 0%Z), w)
        else (Raise OSError_EINVAL, w)
    end.

(** Does another descriptor of this process hold the lock on [p]? *)
Definition held_by_other (fd : nat) (p : Path) (t : gmap nat open_file) : bool :=
  existsb (fun e : nat * open_file =>
             negb (Nat.eqb e.1 fd) && String.eqb (of_path e.2) p && of_lock_ex e.2)
          (map_to_list t).

(** [fcntl.flock(fd, fcntl.LOCK_EX)]: blocks while someone else holds the
    lock.  Nothing in this single process releases a lock during the call,
    so a held lock means the call never returns. *)
Definition fcntl_flock_ex (fd : nat) : M unit :=
  fun w =>
    match fds w !! fd with
    | None => (Raise OSError_EBADF, w)
    | Some f =>
        if bool_decide (of_path f ∈ locked_elsewhere w)
           || held_by_other fd (of_path f) (fds w)
        then (Hang, w)
        else (Ret tt, set_fds (<[fd := OpenFile (of_path f) (of_cloexec f) true]> (fds w)) w)
    end.

(** [os.close(fd)]; closing drops the lock with the table entry. *)
Definition os_close (fd : nat) : M unit :=
  fun w =>
    match fds w !! fd with
    | None => (Raise OSError_EBADF, w)
    | Some _ => (Ret tt, set_fds (delete fd (fds w)) w)
    end.

(** A path that can be opened for reading: the name leads to a directory
    or a file, and the process may read it. *)
Definition openable (path : Path) (w : World) : Prop :=
  exists n, open_target w path = inr n.

(** What a path that can be opened names. *)
Definition node_of (path : Path) (w : World) : Path :=
  match open_target w path with
  | inr n => n
  | inl _ => path
  end.

(** The world right after [os.open] handed out the descriptor. *)
Definition opened (path : Path) (w : World) : World :=
  set_fds (<[lowest_free (fds w) := OpenFile (node_of path w) true false]> (fds w)) w.

(** The same, once the lock is taken: the world the body starts in. *)
Definition locked (path : Path) (w : World) : World :=
  set_fds (<[lowest_free (fds w) := OpenFile (node_of path w) true true]>
             (fds (opened path w)))
          (opened path w).

Definition flock {A} (path : Path) (body : nat -> M A) : M A :=
  fd ← os_open_rdonly path true;
  try_finally
    (fcntl_fcntl fd FD_CLOEXEC ;;
     fcntl_flock_ex fd ;;
     body fd)
    (os_close fd).


(** ** [dictify] and Python's [dict]

    A [dict] keeps its keys in the order of first insertion; storing under
    a key it already has replaces the value in place. *)

Section Dict.

Context {K V : Type} `{EqDecision K}.

(** [d[k] = v] *)
Fixpoint dict_setitem (k : K) (v : V) (d : list (K * V)) : list (K * V) :=
  match d with
  | [] => [(k, v)]
  | (k', v') :: d' =>
      if decide (k = k') then (k', v) :: d'
      else (k', v') :: dict_setitem k v d'
  end.

(** [d.get(k)] *)
Fixpoint dict_get (k : K) (d : list (K * V)) : option V :=
  match d with
  | [] => None
  | (k', v') :: d' => if decide (k = k') then Some v' else dict_get k d'
  end.

(** [dict(pairs)]: the pairs are stored one after the other. *)
Definition dict (pairs : list (K * V)) : list (K * V) :=
  fold_left (fun d kv => dict_setitem kv.1 kv.2 d) pairs [].

(** A generator is embedded as the computation of the list of what it
    yields, in order; [dictify] runs it to the end and builds the dict. *)
Definition dictify {X : Type} (f : X -> M (list (K * V))) : X -> M (list (K * V)) :=
  fun args => pairs ← f args; mret (dict pairs).

End Dict.

(** ** [read_env_file] *)

(** [str.isspace] on a character: TAB to CR, FS to US, the space, NEL and
    the no-break space. *)
Definition is_space (c : ascii) : bool :=
  in_range 9 13 c || in_range 28 32 c
  || Nat.eqb (code c) 133 || Nat.eqb (code c) 160.

Definition LF : ascii := "010"%char.
Definition CR : ascii := "013"%char.

(** [line.rstrip()] *)
Fixpoint rstrip (s : string) : string :=
  match s with
  | EmptyString => EmptyString
  | String c s' =>
      match rstrip s' with
      | EmptyString => if is_space c then EmptyString else String c EmptyString
      | r => String c r
      end
  end.

(** Iterating over a text file opened with the default [newline=None]:
    LF, CR and CR LF all end a line and are handed out as LF; a last line
    without terminator is handed out as it is. *)
Fixpoint readlines_from (cur text : string) : list string :=
  match text with
  | EmptyString =>
      match cur with
      | EmptyString => []
      | _ => [cur]
      end
  | String c rest =>
      if Ascii.eqb c LF then (cur +:+ String LF EmptyString) :: readlines_from EmptyString rest
      else if Ascii.eqb c CR then
        match rest with
        | String c' rest' =>
            if Ascii.eqb c' LF then (cur +:+ String LF EmptyString) :: readlines_from EmptyString rest'
            else (cur +:+ String LF EmptyString) :: readlines_from EmptyString rest
        | EmptyString => (cur +:+ String LF EmptyString) :: readlines_from EmptyString rest
        end
      else readlines_from (cur +:+ String c EmptyString) rest
  end.

Definition readlines (text : string) : list string := readlines_from EmptyString text.

(** [line.startswith("#")] *)
Definition startswith_hash (line : string) : bool :=
  match line with
  | String "#"%char _ => true
  | _ => false
  end.

Definition is_upper (c : ascii) : bool := in_range 65 90 c.     (* [A-Z] *)
Definition is_digit (c : ascii) : bool := in_range 48 57 c.     (* [0-9] *)
Definition is_key_char (c : ascii) : bool :=                    (* [A-Z_0-9] *)
  is_upper c || Ascii.eqb c "_"%char || is_digit c.
Definition not_newline (c : ascii) : bool := negb (Ascii.eqb c LF).   (* . *)

Fixpoint all_chars (p : ascii -> bool) (s : string) : bool :=
  match s with
  | EmptyString => true
  | String c s' => p c && all_chars p s'
  end.

(** The longest prefix of characters in a class, and what follows it. *)
Fixpoint span (p : ascii -> bool) (s : string) : string * string :=
  match s with
  | EmptyString => (EmptyString, EmptyString)
  | String c s' =>
      if p c then let '(a, b) := span p s' in (String c a, b)
      else (EmptyString, s)
  end.

(** [re.match] of line 44, with [m.groups()]: the pattern is a group of one
    character of [A-Z] and one or more of [A-Z_0-9], then an equals sign,
    then a group of any number of characters other than the line feed.  The
    match is anchored at the start only.  The equals sign is outside the
    class of the greedy repetition, so the first group is the whole run of
    class characters and the sign must come right after it; the second
    group then takes everything up to a line feed. *)
Definition re_match_env (line : string) : option (string * string) :=
  match line with
  | String c rest =>
      if is_upper c then
        match span is_key_char rest with
        | (String k0 k, String "="%char v) =>
            Some (String c (String k0 k), (span not_newline v).1)
        | _ => None
        end
      else None
  | EmptyString => None
  end.

Definition DQUOTE : ascii := "034"%char.
Definition SQUOTE : ascii := "039"%char.

(** The test of line 46: [val] is not empty and its first character is a
    double or a single quote. *)
Definition quote_led (val : string) : bool :=
  match val with
  | String c _ => Ascii.eqb c DQUOTE || Ascii.eqb c SQUOTE
  | EmptyString => false
  end.

(** [logging.info(msg)] *)
Definition logging_info (msg : message) : M unit :=
  fun w => (Ret tt, set_logged (logged w ++ [LogRecord INFO msg]) w).

(** [logging.debug(msg)] *)
Definition logging_debug (msg : message) : M unit :=
  fun w => (Ret tt, set_logged (logged w ++ [LogRecord DEBUG msg]) w).

(** [path.open()]: the file is opened for reading as text; the descriptor
    and the text are handed back.  A directory is opened like a file, when
    the process may read it, and refused once it is seen to be one. *)
Definition path_open (path : Path) : M (nat * string) :=
  fun w =>
    match lookup w path with
    | inl e => (Raise e, w)
    | inr r =>
        if is_directory w r then
          if bool_decide (r.1 ∈ no_read w) then (Raise PermissionError, w)
          else (Raise IsADirectoryError, w)
        else
          match files w !! r.1 with
          | None => (Raise FileNotFoundError, w)
          | Some f =>
              if f_readable f then
                let fd := lowest_free (fds w) in
                (Ret (fd, f_text f),
                 set_fds (<[fd := OpenFile r.1 true false]> (fds w)) w)
              else (Raise PermissionError, w)
          end
    end.

(** The file a name leads to, if it leads to one. *)
Definition file_at (w : World) (path : Path) : option file :=
  match lookup w path with
  | inl _ => None
  | inr r => if is_directory w r then None else files w !! r.1
  end.

Section EnvFile.

(** [ast.literal_eval] belongs to the standard library: a string goes in,
    and either some Python object comes out or the call raises. *)
Variable literal_eval : string -> res pyobj.

(** The body of the [for] loop, from line [line_number] on; the result is
    the list of the pairs yielded. *)
Fixpoint read_env_lines (path : Path) (line_number : nat) (lines : list string)
  : M (list (string * pyobj)) :=
  match lines with
  | [] => mret []
  | line :: lines' =>
      let line := rstrip line in
      if String.eqb line EmptyString || startswith_hash line then
        read_env_lines path (S line_number) lines'
      else
        match re_match_env line with
        | Some (name, val) =>
            val ← (if quote_led val then (fun w => (literal_eval val, w))
                   else mret (PyStr val));
            rest ← read_env_lines path (S line_number) lines';
            mret ((name, val) :: rest)
        | None =>
            logging_info (MsgBadLine path line_number line) ;;
            read_env_lines path (S line_number) lines'
        end
  end.

(** The generator under the decorator. *)
Definition read_env_file_gen (path : Path) : M (list (string * pyobj)) :=
  f ← path_open path;
  try_finally
    (read_env_lines path 1 (readlines f.2))
    (os_close f.1).

Definition read_env_file : Path -> M (list (string * pyobj)) :=
  dictify read_env_file_gen.

(** The pair a line contributes when the loop gets past it, if any. *)
Definition line_yield (line : string) : option (string * pyobj) :=
  let line := rstrip line in
  if String.eqb line EmptyString || startswith_hash line then None
  else
    match re_match_env line with
    | Some (name, val) =>
        if quote_led val then
          match literal_eval val with
          | Ret o => Some (name, o)
          | _ => None
          end
        else Some (name, PyStr val)
    | None => None
    end.

End EnvFile.

(** The spec's wording of the pattern, for comparison with [re_match_env]:
    a key is one upper-case letter followed by one or more characters of
    [A-Z_0-9]; a conforming line is a key, an equals sign and a value. *)
Definition key_ok (k : string) : Prop :=
  exists c k', k = String c k' /\ is_upper c = true
               /\ k' <> EmptyString /\ all_chars is_key_char k' = true.

Definition conforming (line k v : string) : Prop :=
  line = k +:+ String "="%char v /\ key_ok k.




(** ** [INVOKING_USER] *)

(** The whitespace [int] skips around a literal: TAB to CR and the space,
    and of the characters above ASCII the spaces, NEL and the no-break
    space.  (FS to US are whitespace for [str.strip], not here.) *)
Definition is_int_space (c : ascii) : bool :=
  in_range 9 13 c || Nat.eqb (code c) 32
  || Nat.eqb (code c) 133 || Nat.eqb (code c) 160.

Fixpoint int_lstrip (s : string) : string :=
  match s with
  | EmptyString => EmptyString
  | String c s' => if is_int_space c then int_lstrip s' else s
  end.

Fixpoint int_rstrip (s : string) : string :=
  match s with
  | EmptyString => EmptyString
  | String c s' =>
      match int_rstrip s' with
      | EmptyString => if is_int_space c then EmptyString else String c EmptyString
      | r => String c r
      end
  end.

Definition digit_value (c : ascii) : Z := Z.of_nat (code c - 48).

(** The digits of a decimal literal as [int] takes them: ASCII digits, with
    single underscores allowed between two digits.  (Below code point 256
    there are no other decimal digits.) *)
Fixpoint digits_value (acc : Z) (after_digit : bool) (s : string) : option Z :=
  match s with
  | EmptyString => if after_digit then Some acc else None
  | String c s' =>
      if is_digit c then digits_value (10 * acc + digit_value c) true s'
      else if Ascii.eqb c "_"%char
           then (if after_digit then digits_value acc false s' else None)
           else None
  end.

(** How many digits a literal has, leading zeros included. *)
Fixpoint digit_count (s : string) : nat :=
  match s with
  | EmptyString => 0
  | String c s' => (if is_digit c then 1 else 0) + digit_count s'
  end.

(** [sys.get_int_max_str_digits()], at the interpreter's default. *)
Definition int_max_str_digits : nat := 4300.

(** The digits of a literal, once stripped and without its sign: within
    the interpreter's limit, and a number. *)
Definition digits_of_literal (ds : string) : option Z :=
  if Nat.leb (digit_count ds) int_max_str_digits then digits_value 0 false ds
  else None.

(** [int(s)] for a [str]: surrounding whitespace, an optional sign, digits. *)
Definition int_of_str (s : string) : option Z :=
  match int_lstrip (int_rstrip s) with
  | String "-"%char ds => Z.opp <$> digits_of_literal ds
  | String "+"%char ds => digits_of_literal ds
  | ds => digits_of_literal ds
  end.

(** [int(v)] *)
Definition py_int (v : str_or_int) : M Z :=
  match v with
  | IsInt z => mret z
  | IsStr s =>
      match int_of_str s with
      | Some z => mret z
      | None => raise ValueError
      end
  end.

(** [a or b] with [a] an [os.getenv] result: [None] and the empty string
    are false, and then [b] is evaluated and is the value. *)
Definition py_or (a : M (option string)) (b : M str_or_int) : M str_or_int :=
  x ← a;
  match x with
  | Some (String c s) => mret (IsStr (String c s))
  | _ => b
  end.

Definition os_getuid : M str_or_int := fun w => (Ret (IsInt (real_uid w)), w).
Definition os_getgid : M str_or_int := fun w => (Ret (IsInt (real_gid w)), w).

Module INVOKING_USER.

(** The end of the class statement: the attributes are stored. *)
Definition bind_class (c : identity) : M unit :=
  modify (set_class_attrs (Some c)).

(** The right-hand sides of lines 81 and 82. *)
Definition uid_expr : M Z :=
  v ← py_or (os_getenv "SUDO_UID") (py_or (os_getenv "PKEXEC_UID") os_getuid);
  py_int v.

Definition gid_expr : M Z :=
  v ← py_or (os_getenv "SUDO_GID") os_getgid;
  py_int v.

(** The class statement, run once when the module is imported. *)
Definition class_statement : M unit :=
  uid ← uid_expr;
  gid ← gid_expr;
  let invoked_as_root := (uid =? 0)%Z in
  bind_class (Identity uid gid invoked_as_root).

(** A variable that [or] passes over: not set, or set to the empty
    string. *)
Definition passed_over (o : option string) : Prop :=
  o = None \/ o = Some EmptyString.

(** [cls.uid], [cls.gid]: reading a class attribute. *)
Definition attr {A} (field : identity -> A) : M A :=
  fun w =>
    match class_attrs w with
    | Some c => (Ret (field c), w)
    | None => (Raise NameError, w)
    end.

Section Methods.

(** The user database and [Path.expanduser] belong to the standard
    library; they read the world and change nothing:
    [pwd.getpwuid(uid).pw_name], and the expansion of a path that
    starts with a tilde. *)
Variable getpwuid_pw_name : World -> Z -> res string.
Variable expanduser : World -> string -> res Path.

Definition is_running_user : M bool :=
  u ← attr uid;
  r ← os_getuid;
  mret (match r with IsInt r => (u =? r)%Z | IsStr _ => false end).

(** [functools.lru_cache(maxsize=1)]: the only key is the class, and
    only a returned value is kept. *)
Definition name : M string :=
  cached ← reads name_cache;
  match cached with
  | Some n => mret n
  | None =>
      u ← attr uid;
      n ← asks (fun w => getpwuid_pw_name w u);
      modify (set_name_cache (Some n)) ;;
      mret n
  end.

Definition home : M Path :=
  cached ← reads home_cache;
  match cached with
  | Some h => mret h
  | None =>
      n ← name;
      h ← asks (fun w => expanduser w ("~" +:+ n));
      modify (set_home_cache (Some h)) ;;
      mret h
  end.

Definition init : M unit :=
  name ← name;
  home ← home;
  u ← attr uid;
  g ← attr gid;
  logging_debug (MsgRunningAs name u g home).

(** A call of one of the four class methods. *)
Inductive method : Type := Init | IsRunningUser | Name | Home.

Definition call (m : method) : World -> World :=
  fun w =>
    match m with
    | Init => (init w).2
    | IsRunningUser => (is_running_user w).2
    | Name => (name w).2
    | Home => (home w).2
    end.

(** The world after a sequence of method calls, raising or not. *)
Definition calls (ms : list method) (w : World) : World :=
  fold_left (fun w m => call m w) ms w.

End Methods.

End INVOKING_USER.


(** ** Instances for the examples *)

(** A stand-in for [ast.literal_eval].  It agrees with Python where the
    input is made of printable ASCII without backslash, starts with a
    quote, and either has no second such quote (the literal is not
    terminated: [SyntaxError]) or has it as its last character (the value
    is the text between the quotes).  Elsewhere its answer is arbitrary. *)
Fixpoint until_quote (q : ascii) (s : string) : option (string * string) :=
  match s with
  | EmptyString => None
  | String c s' =>
      if Ascii.eqb c q then Some (EmptyString, s')
      else match until_quote q s' with
           | Some (b, r) => Some (String c b, r)
           | None => None
           end
  end.

Definition plain_char (c : ascii) : bool :=
  in_range 32 126 c && negb (Ascii.eqb c "\"%char).

Definition literal_eval_plain (val : string) : res pyobj :=
  match val with
  | String q s =>
      if all_chars plain_char val && (Ascii.eqb q DQUOTE || Ascii.eqb q SQUOTE) then
        match until_quote q s with
        | None => Raise SyntaxError
        | Some (b, EmptyString) => Ret (PyStr b)
        | Some (_, String _ _) => Raise ValueError
        end
      else Raise ValueError
  | EmptyString => Raise SyntaxError
  end.

(** A process of root, started in [/work], in a file system of five
    directories, all of which it may search and read. *)
Definition sample_world : World :=
  {| os_environ := {[ "HOME" := "/root" ]};
     c_environ := {[ "HOME" := "/root" ]};
     tempfile_tempdir := Some "/tmp";
     cwd := "/work";
     dirs := {[ "/"; "/etc"; "/tmp"; "/var"; "/work" ]};
     no_search := ∅;
     no_read := ∅;
     chdir_calls := [];
     proc_umask := 18;                (* 0o022 *)
     files := ∅;
     fds := ∅;
     locked_elsewhere := ∅;
     real_uid := 0;
     real_gid := 0;
     logged := [];
     class_attrs := None;
     name_cache := None;
     home_cache := None |}.

Definition with_file (path : Path) (text : string) (w : World) : World :=
  set_files (<[path := File true text]> (files w)) w.

(** A value in double quotes, as it stands in a file. *)
Definition dquoted (s : string) : string :=
  String DQUOTE s +:+ String DQUOTE EmptyString.

Definition os_release : Path := "/etc/os-release".

(** The text of the spec's example, line feeds written out. *)
Definition sample_env_text : string :=
  "FOO=bar" +:+ String LF "# comment" +:+ String LF EmptyString +:+ String LF
  ("BAZ=" +:+ dquoted "q z") +:+ String LF "badline" +:+ String LF EmptyString.

Definition sample_env_world : World := with_file os_release sample_env_text sample_world.

(** Overrides, scope bodies and worlds for the examples. *)
Definition sample_overrides : list (string * pyobj) :=
  [("TMPDIR", PyStr "/var/tmp")].



(** A body that sets another mask and then raises. *)
Definition body_umask_raise : M unit :=
  os_umask 0 ;;
  raise (BodyError 2).

(** A body during which the directory the process was started in goes
    away: [/work] is empty, and the body, by then in another directory,
    removes it. *)
Definition body_rmdir_start : M unit :=
  modify (fun w => set_dirs (dirs w ∖ {["/work"]}) w).

(** A body that goes somewhere else and raises. *)
Definition body_chdir_raise : M unit :=
  os_chdir "/var" ;;
  raise (BodyError 3).

(** A body for [flock] that raises with the descriptor still open. *)
Definition body_with_fd_raise (fd : nat) : M unit := raise (BodyError 4).

Definition lock_path : Path := "/work/image.lock".

Definition lock_world : World := with_file lock_path EmptyString sample_world.

(** A process started through sudo by user 1000. *)
Definition sudo_world : World :=
  set_os_environ (<["SUDO_UID" := "1000"]> (<["SUDO_GID" := "1000"]> (os_environ sample_world)))
    sample_world.

(** A user database with root alone. *)
Definition root_only_pw_name (w : World) (uid : Z) : res string :=
  if (uid =? 0)%Z then Ret "root" else Raise KeyError.

Definition root_only_expanduser (w : World) (p : string) : res Path :=
  if String.eqb p "~root" then Ret "/root" else Raise RuntimeError.

(** A file that gives the same key twice. *)
Definition twice_text : string :=
  "MODE=first" +:+ String LF "MODE=second" +:+ String LF EmptyString.

Definition twice_world : World := with_file os_release twice_text sample_world.

(** A file whose only value opens a quote and never closes it. *)
Definition unterminated_text : string :=
  "NAME=" +:+ String DQUOTE "mkosi" +:+ String LF EmptyString.

Definition unterminated_world : World := with_file os_release unterminated_text sample_world.

(** ** [is_power_of_2]

    [return x > 0 and (x & x - 1 == 0)]: in Python [-] binds tighter than
    [&], which binds tighter than [==], so the test is [(x & (x - 1)) == 0]. *)

Definition is_power_of_2 (x : Z) : bool :=
  ((x >? 0) && (Z.land x (x - 1) =? 0))%Z.

(** * More of the module *)

(** ** [sort_packages] and [flatten] *)

(** Exceptions of the helpers that leave the world alone. *)
Inductive helper_exn : Type :=
| IndexError
| AssertionError.

(** [a < b] on [str]: character by character on the code points, a proper
    prefix before what extends it. *)
Fixpoint str_ltb (a b : string) : bool :=
  match a, b with
  | _, EmptyString => false
  | EmptyString, String _ _ => true
  | String x a', String y b' =>
      if Nat.ltb (code x) (code y) then true
      else if Nat.eqb (code x) (code y) then str_ltb a' b'
      else false
  end.

(** [m.get(name[0], 0)] for [m] of line 71, which sends the opening
    parenthesis to 2 and the slash to 1; [name[0]] raises on the empty
    string. *)
Definition package_class (name : string) : helper_exn + nat :=
  match name with
  | EmptyString => inl IndexError
  | String c _ =>
      inr (if Ascii.eqb c "("%char then 2
           else if Ascii.eqb c "/"%char then 1
           else 0)
  end.

(** The key of line 72, a tuple of the class and the name. *)
Definition package_key (name : string) : helper_exn + (nat * string) :=
  match package_class name with
  | inl e => inl e
  | inr c => inr (c, name)
  end.

(** [<] on the tuples: the first components decide unless they are equal. *)
Definition key_ltb (k1 k2 : nat * string) : bool :=
  Nat.ltb k1.1 k2.1 || (Nat.eqb k1.1 k2.1 && str_ltb k1.2 k2.2).

(** [sorted(iterable, key=f)] computes the key of every item first, which
    is where [f] can raise, and then sorts on the keys with [<] alone,
    keeping items with equal keys in their order.  The stable sort is
    written as insertion from the left. *)
Fixpoint decorate (names : list string) : helper_exn + list ((nat * string) * string) :=
  match names with
  | [] => inr []
  | name :: names' =>
      match package_key name with
      | inl e => inl e
      | inr k =>
          match decorate names' with
          | inl e => inl e
          | inr ks => inr ((k, name) :: ks)
          end
      end
  end.

Fixpoint insert_by_key (x : (nat * string) * string) (l : list ((nat * string) * string))
  : list ((nat * string) * string) :=
  match l with
  | [] => [x]
  | y :: l' =>
      if key_ltb x.1 y.1 then x :: y :: l'
      else y :: insert_by_key x l'
  end.

Definition sort_by_key (l : list ((nat * string) * string)) : list ((nat * string) * string) :=
  fold_left (fun acc x => insert_by_key x acc) l [].

Definition sort_packages (packages : list string) : helper_exn + list string :=
  match decorate packages with
  | inl e => inl e
  | inr ks => inr (sort_by_key ks).*2
  end.

(** Not after: the order the result is sorted by, on decorated items. *)
Definition key_le (x y : (nat * string) * string) : Prop := key_ltb y.1 x.1 = false.

(** The order of two names in the result: by class, then by [<] on [str]. *)
Definition package_le (a b : string) : Prop :=
  match package_key a, package_key b with
  | inr ka, inr kb => key_ltb kb ka = false
  | _, _ => False
  end.

(** [list(itertools.chain.from_iterable(lists))] *)
Fixpoint flatten {T} (lists : list (list T)) : list T :=
  match lists with
  | [] => []
  | l :: lists' => l ++ flatten lists'
  end.

(** ** [read_os_release] *)

(** [root / segment] on [Path], for a root given by its normalised text:
    an absolute segment replaces the root, the root directory and the
    current directory do not double the separator. *)
Definition Path_truediv (root : Path) (segment : string) : Path :=
  if is_abs segment then segment
  else if String.eqb root "/" then "/" +:+ segment
  else if String.eqb root "." then segment
  else root +:+ "/" +:+ segment.

(** [filename.exists()]: [stat] finds something under the name.  Of the
    errors of [stat], the call takes a missing name, a component that is
    not a directory and a name Python cannot hand to the kernel as "no";
    the others leave it as exceptions (so [pathlib] up to Python 3.12). *)
Definition Path_exists (p : Path) : M bool :=
  fun w =>
    match lookup w p with
    | inr r =>
        (Ret (is_directory w r || bool_decide (is_Some (files w !! r.1))), w)
    | inl FileNotFoundError | inl NotADirectoryError | inl ValueError =>
        (Ret false, w)
    | inl e => (Raise e, w)
    end.

Definition read_os_release (literal_eval : string -> res pyobj) (root : Path)
  : M (list (string * pyobj)) :=
  let filename := Path_truediv root "etc/os-release" in
  there ← Path_exists filename;
  let filename := if there : bool then filename
                  else Path_truediv root "usr/lib/os-release" in
  read_env_file literal_eval filename.

(** ** [format_rlimit] *)

(** [str(n)] for an [int]: the decimal digits, most significant first, with
    a minus sign for a negative number.  The digits are produced from the
    right; the fuel is at least the number of digits. *)
Definition digit_char (d : N) : ascii := ascii_of_nat (48 + N.to_nat d).

Fixpoint digits_of (fuel : nat) (n : N) (acc : string) : string :=
  match fuel with
  | O => acc
  | S fuel' =>
      let acc' := String (digit_char (n mod 10)) acc in
      if (n <? 10)%N then acc' else digits_of fuel' (n / 10) acc'
  end.

Definition str_of_N (n : N) : string :=
  digits_of (S (N.to_nat (N.log2 n))) n EmptyString.

Definition str_of_int (z : Z) : string :=
  match z with
  | Z0 => "0"
  | Zpos p => str_of_N (Npos p)
  | Zneg p => String "-"%char (str_of_N (Npos p))
  end.

(** A string of decimal digits. *)
Definition all_digits (s : string) : bool := all_chars is_digit s.

(** The number a decimal text stands for, whatever its length. *)
Definition decimal_value (s : string) : option Z :=
  match s with
  | String "-"%char ds => Z.opp <$> digits_value 0 false ds
  | ds => digits_value 0 false ds
  end.

Section Rlimit.

(** [resource.RLIM_INFINITY] is a constant of the platform, and
    [resource.getrlimit] a call into the standard library: it gives the
    soft and the hard limit of a resource, or raises for a number that
    names none. *)
Variable RLIM_INFINITY : Z.
Variable getrlimit : Z -> res (Z * Z).

(** One side of the result: lines 63 and 64. *)
Definition format_limit (limit : Z) : string :=
  if (limit =? RLIM_INFINITY)%Z then "infinity" else str_of_int limit.

Definition format_rlimit (rlimit : Z) : res string :=
  match getrlimit rlimit with
  | Ret limits =>
      let soft := format_limit limits.1 in
      let hard := format_limit limits.2 in
      Ret (soft +:+ ":" +:+ hard)
  | Raise e => Raise e
  | Hang => Hang
  end.

End Rlimit.

(** ** [StrEnum] *)

(** [name.replace("_", "-")]: every underscore becomes a hyphen. *)
Fixpoint replace_underscores (name : string) : string :=
  match name with
  | EmptyString => EmptyString
  | String c name' =>
      String (if Ascii.eqb c "_"%char then "-"%char else c) (replace_underscores name')
  end.

Module StrEnum.

(** A member of a subclass: its name and its value. *)
Record member : Type := Member { m_name : string; m_value : pyobj }.

(** [_generate_next_value_(name, start, count, last_values)], which
    [enum.auto()] calls for the value of a member. *)
Definition _generate_next_value_ (name : string) (start count : Z)
    (last_values : list string) : string :=
  replace_underscores name.

(** A member declared with [enum.auto()] as the [count]-th of the class. *)
Definition auto_member (name : string) (last_values : list string) : member :=
  Member name (PyStr (_generate_next_value_ name 1 (Z.of_nat (length last_values)) last_values)).

(** [__str__]: the assertion fails on a value that is not a [str]. *)
Definition __str__ (self : member) : helper_exn + string :=
  match m_value self with
  | PyStr s => inr s
  | PyOther => inl AssertionError
  end.

(** [values]: [list(map(str, cls))], over the members of the class in the
    order of their definition; the first failing [str] ends it. *)
Fixpoint values (cls : list member) : helper_exn + list string :=
  match cls with
  | [] => inr []
  | m :: cls' =>
      match __str__ m with
      | inl e => inl e
      | inr s =>
          match values cls' with
          | inl e => inl e
          | inr ss => inr (s :: ss)
          end
      end
  end.

(** The members of a class whose body is [NAME = enum.auto()] for each of
    the names, in that order. *)
Fixpoint auto_class_from (last_values : list string) (names : list string) : list member :=
  match names with
  | [] => []
  | name :: names' =>
      let m := auto_member name last_values in
      m :: auto_class_from (last_values ++ [replace_underscores name]) names'
  end.

Definition auto_class (names : list string) : list member := auto_class_from [] names.

End StrEnum.

(** ** [make_executable] *)

(** What [stat] and [chmod] see under a name: the mode, type bits
    included; whether the process may change the mode (it owns the file or
    is privileged); whether [chmod] lets it keep the set-group-ID bit (it
    is privileged or in the group of the file); and, for a directory,
    whether it may search it. *)
Record inode : Type := Inode {
  st_mode : Z;
  may_chmod : bool;
  keeps_setgid : bool;
  searchable : bool
}.

Definition S_IEXEC : Z := 64.        (* 0o100 *)
Definition S_ISGID : Z := 1024.      (* 0o2000 *)
Definition S_IFDIR : Z := 16384.     (* 0o040000 *)
Definition S_IFMT : Z := 61440.      (* 0o170000 *)
Definition ALLPERMS : Z := 4095.     (* 0o7777 *)

Definition S_ISDIR (mode : Z) : bool := (Z.land mode S_IFMT =? S_IFDIR)%Z.

(** The lookup among the inodes, from the working directory [cwd] (a
    directory that is there). *)
Definition fs_lookup (cwd : Path) (fs : gmap Path inode) (p : string)
  : exn + (Path * bool) :=
  namei (fun n => match fs !! n with Some i => S_ISDIR (st_mode i) | None => false end)
        (fun n => match fs !! n with Some i => negb (S_ISDIR (st_mode i)) | None => false end)
        (fun n => match fs !! n with Some i => searchable i | None => true end)
        cwd p.

(** [path.stat()] *)
Definition Path_stat (cwd : Path) (path : Path) (fs : gmap Path inode) : res inode :=
  match fs_lookup cwd fs path with
  | inl e => Raise e
  | inr r =>
      match fs !! r.1 with
      | Some i => Ret i
      | None => Raise FileNotFoundError
      end
  end.

(** The mode [chmod] leaves: the type bits stay, the permission bits are
    those asked for, except that the set-group-ID bit is dropped for a
    process that is neither privileged nor in the group of the file. *)
Definition chmod_mode (i : inode) (mode : Z) : Z :=
  let perms := Z.land mode ALLPERMS in
  Z.lor (Z.land (st_mode i) S_IFMT)
        (if keeps_setgid i then perms else Z.ldiff perms S_ISGID).

(** [os.chmod(path, mode)] *)
Definition os_chmod (cwd : Path) (path : Path) (mode : Z) (fs : gmap Path inode)
  : res unit * gmap Path inode :=
  match fs_lookup cwd fs path with
  | inl e => (Raise e, fs)
  | inr r =>
      match fs !! r.1 with
      | None => (Raise FileNotFoundError, fs)
      | Some i =>
          if may_chmod i then
            (Ret tt,
             <[r.1 := Inode (chmod_mode i mode) (may_chmod i) (keeps_setgid i)
                            (searchable i)]> fs)
          else (Raise PermissionError, fs)
      end
  end.

Definition make_executable (cwd : Path) (path : Path) (fs : gmap Path inode)
  : res unit * gmap Path inode :=
  match Path_stat cwd path fs with
  | Ret st => os_chmod cwd path (Z.lor (st_mode st) S_IEXEC) fs
  | Raise e => (Raise e, fs)
  | Hang => (Hang, fs)
  end.

(** A mode as the kernel keeps it: type and permission bits, nothing
    above. *)
Definition mode_ok (m : Z) : Prop := (0 <= m < 65536)%Z.

(** ** More instances for the examples *)

(** Package names of the three classes, out of order. *)
Definition sample_packages : list string :=
  ["systemd"; "(lang >= 1)"; "/usr/bin/bash"; "bash"].

(** A process whose [SUDO_UID] is a name, not a number. *)
Definition text_uid_world : World :=
  set_os_environ (<["SUDO_UID" := "admin"]> (os_environ sample_world)) sample_world.

(** The world of root right after the module was imported. *)
Definition imported_world : World := (INVOKING_USER.class_statement sample_world).2.

(** The same for the process started through sudo. *)
Definition imported_sudo_world : World := (INVOKING_USER.class_statement sudo_world).2.

(** A user database that knows nobody. *)
Definition empty_pw_name (w : World) (uid : Z) : res string := Raise KeyError.

(** Overrides for an inner scope: one key of the outer scope, one new. *)
Definition inner_overrides : list (string * pyobj) :=
  [("TMPDIR", PyStr "/scratch"); ("LANG", PyStr "C")].

(** The same file system for a process of user 1000, which has no
    privileges: it may not read [/etc/shadow], and it may neither search
    nor read [/var]. *)
Definition shadow : Path := "/etc/shadow".

Definition user_world : World :=
  set_real_uid 1000 (set_real_gid 1000
    (set_no_search {[ "/var" ]} (set_no_read {[ "/var" ]} sample_world))).

Definition shadow_world : World :=
  set_files (<[shadow := File false "root:x"]> (files user_world)) user_world.

(** Limits as Linux gives them for open files: 1024 and no hard limit. *)
Definition sample_getrlimit (resource : Z) : res (Z * Z) :=
  if (resource =? 7)%Z then Ret (1024, -1)%Z else Raise (BodyError 22).

(** A directory with mode 0o040755 and in it two regular files that the
    process owns: one with mode 0o100644, and one with mode 0o102644 in a
    group the process does not belong to. *)
Definition script : Path := "/work/run.sh".
Definition shared_script : Path := "/work/shared.sh".

Definition script_fs : gmap Path inode :=
  {[ "/work" := Inode 16877 true true true;
     script := Inode 33188 true true true;
     shared_script := Inode 34212 true false true ]}.

(** A body for [flock] that returns at once. *)
Definition body_with_fd_return (fd : nat) : M unit := mret tt.

(** * Properties *)


(** ** Running a computation step by step *)

Lemma bind_Ret {A B} (m : M A) (k : A -> M B) (w w1 : World) (a : A) :
  m w = (Ret a, w1) -> (m ≫= k) w = k a w1.
Proof. intros H. unfold mbind, M_bind, bind. by rewrite H. Qed.

Lemma bind_Raise {A B} (m : M A) (k : A -> M B) (w w1 : World) (e : exn) :
  m w = (Raise e, w1) -> (m ≫= k) w = (Raise e, w1).
Proof. intros H. unfold mbind, M_bind, bind. by rewrite H. Qed.

Lemma bind_Hang {A B} (m : M A) (k : A -> M B) (w w1 : World) :
  m w = (Hang, w1) -> (m ≫= k) w = (Hang, w1).
Proof. intros H. unfold mbind, M_bind, bind. by rewrite H. Qed.

(** What [try: ... finally: ...] does once the body is over. *)
Lemma try_finally_left {A} (body : M A) (cleanup : M unit) (w w1 : World) (r : res A) :
  body w = (r, w1) -> r <> Hang ->
  try_finally body cleanup w =
    match cleanup w1 with
    | (Ret _, w2) => (r, w2)
    | (Raise e, w2) => (Raise e, w2)
    | (Hang, w2) => (Hang, w2)
    end.
Proof.
  intros H Hr. unfold try_finally. rewrite H. by destruct r.
Qed.

Lemma try_finally_Hang {A} (body : M A) (cleanup : M unit) (w w1 : World) :
  body w = (Hang, w1) -> try_finally body cleanup w = (Hang, w1).
Proof. intros H. unfold try_finally. by rewrite H. Qed.

(** ** The environment and [scopedenv] *)

Section Scopedenv.

Implicit Types O pre post : list (string * pyobj).

Lemma environ_setitem_accepted key v w :
  accepts key (PyStr v) = true ->
  environ_setitem key (PyStr v) w =
    (Ret tt, set_os_environ (<[key:=v]> (os_environ w))
               (set_c_environ (<[key:=v]> (c_environ w)) w)).
Proof.
  unfold accepts, environ_setitem, legal_env_name. intros H.
  apply andb_true_iff in H as [H1 H2]. apply negb_true_iff in H1.
  apply andb_true_iff in H2 as [H2 H3].
  apply negb_true_iff in H2. apply negb_true_iff in H3.
  by rewrite H1, H2, H3.
Qed.



Lemma str_items_cons_str k s O :
  str_items ((k, PyStr s) :: O) = <[k:=s]> (str_items O).
Proof. reflexivity. Qed.

Lemma str_items_None O k : k ∉ O.*1 -> str_items O !! k = None.
Proof.
  intros Hk. unfold str_items. apply not_elem_of_list_to_map_1.
  intros Hin. apply Hk.
  apply list_elem_of_fmap in Hin as ([k' s'] & -> & Hin).
  apply list_elem_of_omap in Hin as ([k0 v0] & Hin & Heq).
  cbn in Heq. destruct v0 as [s0|]; [|done]. injection Heq as -> ->.
  apply list_elem_of_fmap. by exists (k', PyStr s').
Qed.

(** Storing the items of a mapping that are all accepted merges them into
    both tables and changes nothing else. *)
Lemma for_each_setitem O : forall w,
  Forall (fun kv => accepts kv.1 kv.2 = true) O ->
  NoDup O.*1 ->
  for_each (fun kv => environ_setitem kv.1 kv.2) O w = (Ret tt, merged O w).
Proof.
  induction O as [|[k0 v0] O IH]; intros w Hacc Hnd.
  - cbn. unfold merged, str_items. cbn. rewrite !(left_id_L ∅ (∪)). by destruct w.
  - apply Forall_cons in Hacc as [Hacc0 Hacc].
    rewrite fmap_cons in Hnd. apply NoDup_cons in Hnd as [Hk0 Hnd].
    cbn in Hacc0, Hk0. destruct v0 as [s|]; [|done].
    cbn [for_each].
    erewrite bind_Ret; [|by apply environ_setitem_accepted].
    rewrite IH by done. f_equal.
    unfold merged. rewrite str_items_cons_str. cbn.
    rewrite <- !insert_union_l.
    rewrite <- !(insert_union_r (str_items O)) by (by apply str_items_None).
    by destruct w.
Qed.

Lemma lookup_str_items_union O (base : gmap string string) k :
  NoDup O.*1 ->
  (str_items O ∪ base) !! k =
    match dict_get k O with
    | Some (PyStr s) => Some s
    | _ => base !! k
    end.
Proof.
  induction O as [|[k0 v0] O IH]; intros Hnd.
  - cbn. unfold str_items. cbn. by rewrite (left_id_L ∅ (∪)).
  - rewrite fmap_cons in Hnd. apply NoDup_cons in Hnd as [Hk0 Hnd]. cbn in Hk0.
    cbn [dict_get]. destruct (decide (k = k0)) as [->|Hne].
    + destruct v0 as [s|].
      * rewrite str_items_cons_str, <- insert_union_l. apply lookup_insert_eq.
      * change (str_items ((k0, PyOther) :: O)) with (str_items O).
        by rewrite lookup_union, (str_items_None _ _ Hk0), (left_id_L None (∪)).
    + destruct v0 as [s|].
      * rewrite str_items_cons_str, <- insert_union_l, lookup_insert_ne by done.
        by apply IH.
      * change (str_items ((k0, PyOther) :: O)) with (str_items O). by apply IH.
Qed.

Lemma environ_ior_accepted O (w : World) :
  NoDup O.*1 ->
  Forall (fun kv => accepts kv.1 kv.2 = true) O ->
  environ_ior O w = (Ret tt, merged O w).
Proof. intros Hnd Hacc. by apply for_each_setitem. Qed.


(** Once every item was taken, [scopedenv] is its body in the merged
    world, followed by the two statements of the [finally] clause. *)
Lemma scopedenv_run {A} O (body : M A) (w w_out : World) (r : res A) :
  NoDup O.*1 ->
  Forall (fun kv => accepts kv.1 kv.2 = true) O ->
  body (scopedenv_world O w) = (r, w_out) -> r <> Hang ->
  scopedenv O body w
    = (r, set_tempfile_tempdir None (set_os_environ (os_environ w) w_out)).
Proof.
  intros Hnd Hacc Hbody Hr. unfold scopedenv.
  erewrite bind_Ret; [|reflexivity].
  erewrite bind_Ret; [|by apply environ_ior_accepted].
  erewrite bind_Ret; [|reflexivity].
  erewrite try_finally_left; [|exact Hbody|exact Hr].
  reflexivity.
Qed.


End Scopedenv.


(** ** [umask] *)

Section Umask.
Local Open Scope Z_scope.

Lemma land_permission_bits (m : Z) : 0 <= m <= S_IRWXUGO -> Z.land m S_IRWXUGO = m.
Proof.
  unfold S_IRWXUGO. intros Hm.
  change 511 with (Z.ones 9).
  rewrite Z.land_ones by lia.
  apply Z.mod_small. change (2 ^ 9) with 512. lia.
Qed.

(** C5. For a mask [M] in [0, 0o777], the scope body starts with [M] as
    the process mask, and when the scope is left, by return or by
    exception, the mask is the one from before the call, whatever the body
    did to it. *)
Theorem umask_restores {A} (mask : Z) (body : M A) (w : World) :
  0 <= mask <= S_IRWXUGO ->
  0 <= proc_umask w <= S_IRWXUGO ->
  let w_in := set_proc_umask mask w in
  proc_umask w_in = mask
  /\ forall r w_out, body w_in = (r, w_out) -> r <> Hang ->
       exists w',
         umask mask body w = (r, w')
         /\ proc_umask w' = proc_umask w.
Proof.
  intros Hmask Hold w_in. split; [done|].
  intros r w_out Hbody Hr.
  exists (set_proc_umask (proc_umask w) w_out). split; [|done].
  unfold umask.
  erewrite bind_Ret; [|reflexivity].
  rewrite (land_permission_bits mask Hmask).
  erewrite try_finally_left; [|exact Hbody|exact Hr].
  erewrite bind_Ret; [|reflexivity].
  cbn. by rewrite (land_permission_bits _ Hold).
Qed.

End Umask.

(** ** [chdir] *)

Section LookupFacts.

Variable is_dir : Path -> bool.
Variable is_other : Path -> bool.
Variable may_search : Path -> bool.

(** Along components that are names, the walk can only end where the
    names lead. *)
Lemma walk_proper (names : list string) : forall cur r,
  forallb proper_name names = true ->
  walk is_dir is_other may_search cur names = inr r ->
  r.1 = render (cur ++ names).
Proof.
  induction names as [|c rest IH]; intros cur r Hp H.
  - cbn in H. injection H as <-. by rewrite app_nil_r.
  - cbn [forallb] in Hp. apply andb_true_iff in Hp as [Hc Hp].
    unfold proper_name in Hc. apply andb_true_iff in Hc as [Hdot Hdots].
    apply negb_true_iff in Hdot. apply negb_true_iff in Hdots.
    cbn [walk] in H. rewrite Hdot, Hdots in H.
    destruct (negb (may_search (render cur))); [done|].
    destruct (Nat.ltb NAME_MAX (byte_length c)); [done|].
    destruct rest as [|c' rest].
    + by injection H as <-.
    + destruct (is_dir (render (cur ++ [c]))).
      * rewrite (IH _ _ Hp H). by rewrite <- app_assoc.
      * by destruct (is_other (render (cur ++ [c]))).
Qed.

(** A name as the kernel reports it leads to itself or nowhere. *)
Lemma namei_canonical (cwd p : Path) (r : Path * bool) :
  is_canonical p = true ->
  namei is_dir is_other may_search cwd p = inr r -> r.1 = p.
Proof.
  unfold is_canonical, namei. intros Hc H.
  apply andb_true_iff in Hc as [Hc Hr]. apply andb_true_iff in Hc as [Ha Hp].
  apply String.eqb_eq in Hr. rewrite Ha in H.
  destruct (has_char NUL p); [done|].
  destruct (String.eqb p EmptyString); [done|].
  destruct (Nat.leb PATH_MAX (byte_length p)); [done|].
  destruct (walk is_dir is_other may_search [] (components p)) as [e|r'] eqn:Hw; [done|].
  apply walk_proper in Hw; [|done]. cbn [app] in Hw. rewrite Hr in Hw.
  destruct (ends_with_slash p && negb r'.2 && negb (is_dir r'.1)); [done|].
  by injection H as <-.
Qed.

End LookupFacts.

(** The lookup depends on what is there only through the three
    questions it asks. *)
Lemma walk_ext (d d' o o' s s' : Path -> bool) :
  (forall n, d n = d' n) -> (forall n, o n = o' n) -> (forall n, s n = s' n) ->
  forall names cur, walk d o s cur names = walk d' o' s' cur names.
Proof.
  intros Hd Ho Hs names. induction names as [|c rest IH]; intros cur; [done|].
  cbn [walk]. rewrite Hs, !IH.
  destruct rest as [|c' rest]; [done|]. by rewrite Hd, Ho.
Qed.

Lemma namei_ext (d d' o o' s s' : Path -> bool) (cwd : Path) (p : string) :
  (forall n, d n = d' n) -> (forall n, o n = o' n) -> (forall n, s n = s' n) ->
  namei d o s cwd p = namei d' o' s' cwd p.
Proof.
  intros Hd Ho Hs. unfold namei. rewrite (walk_ext d d' o o' s s') by done.
  destruct (walk d' o' s' _ _) as [e|r]; [done|]. by rewrite Hd, Ho.
Qed.

Section ChdirProperties.

Variable PathString : Type.
Variable path_eq : Path -> PathString -> bool.
Variable fspath : PathString -> string.

Lemma chdir_target_canonical (w : World) (p n : Path) :
  is_canonical p = true -> chdir_target w p = inr n -> n = p.
Proof.
  unfold chdir_target, lookup. intros Hc H.
  destruct (namei _ _ _ (cwd w) p) as [e|r] eqn:Hl; [done|].
  apply namei_canonical in Hl; [|done].
  destruct (is_directory w r).
  - destruct (bool_decide (r.1 ∈ no_search w)); [done|]. injection H as <-. done.
  - by destruct (bool_decide (is_Some (files w !! r.1))).
Qed.

Lemma os_chdir_enters (p : string) (n : Path) (w : World) :
  chdir_target w p = inr n ->
  os_chdir p w = (Ret tt, set_cwd n (set_chdir_calls (chdir_calls w ++ [p]) w)).
Proof. intros H. unfold os_chdir. by rewrite H. Qed.

Lemma os_chdir_fails (p : string) (e : exn) (w : World) :
  chdir_target w p = inl e ->
  os_chdir p w = (Raise e, set_chdir_calls (chdir_calls w ++ [p]) w).
Proof. intros H. unfold os_chdir. by rewrite H. Qed.

Lemma Path_cwd_run (w : World) :
  cwd w ∈ dirs w -> Path_cwd w = (Ret (cwd w), w).
Proof. intros H. unfold Path_cwd. by rewrite bool_decide_eq_true_2. Qed.

Lemma Path_cwd_gone (w : World) :
  cwd w ∉ dirs w -> Path_cwd w = (Raise FileNotFoundError, w).
Proof. intros H. unfold Path_cwd. by rewrite bool_decide_eq_false_2. Qed.

(** C2, as amended.  For a target [D] that leads to a directory the
    process may enter, and that the comparison of line 110 tells from the
    current working directory, the scope body starts with that directory
    as the working directory; when the scope is left, by return or by
    exception, [os.chdir] is called on the directory from before the
    call.  If that directory can still be entered then, the working
    directory is exactly the one from before the call and the body's
    outcome is passed on; if not (it is gone, or may no longer be
    searched), that call raises and the working directory stays where
    the body left it.  One of the two is the case. *)
Theorem chdir_restores {A} (D : PathString) (body : M A) (w : World) (n : Path) :
  cwd w ∈ dirs w ->
  is_canonical (cwd w) = true ->
  chdir_target w (fspath D) = inr n ->
  path_eq (cwd w) D = false ->
  let w_in := set_cwd n (set_chdir_calls (chdir_calls w ++ [fspath D]) w) in
  cwd w_in = n
  /\ forall r w_out, body w_in = (r, w_out) -> r <> Hang ->
       (chdir_target w_out (cwd w) = inr (cwd w) ->
        exists w',
          chdir path_eq fspath D body w = (r, w')
          /\ cwd w' = cwd w
          /\ chdir_calls w' = chdir_calls w_out ++ [cwd w])
       /\ (forall e, chdir_target w_out (cwd w) = inl e ->
           exists w',
             chdir path_eq fspath D body w = (Raise e, w')
             /\ cwd w' = cwd w_out
             /\ chdir_calls w' = chdir_calls w_out ++ [cwd w])
       /\ (chdir_target w_out (cwd w) = inr (cwd w)
           \/ exists e, chdir_target w_out (cwd w) = inl e).
Proof.
  intros Hcwd Hcan Hex Hne w_in. split; [done|].
  intros r w_out Hbody Hr.
  assert (Hrun : chdir path_eq fspath D body w =
            match os_chdir (cwd w) w_out with
            | (Ret _, w2) => (r, w2)
            | (Raise e, w2) => (Raise e, w2)
            | (Hang, w2) => (Hang, w2)
            end).
  { unfold chdir.
    erewrite bind_Ret; [|by apply Path_cwd_run]. rewrite Hne.
    erewrite try_finally_left; [reflexivity| |exact Hr].
    erewrite bind_Ret; [exact Hbody|]. by apply os_chdir_enters. }
  split; [|split].
  - intros Hstill.
    exists (set_cwd (cwd w) (set_chdir_calls (chdir_calls w_out ++ [cwd w]) w_out)).
    split; [|done]. by rewrite Hrun, (os_chdir_enters _ _ _ Hstill).
  - intros e Hgone.
    exists (set_chdir_calls (chdir_calls w_out ++ [cwd w]) w_out).
    split; [|done]. by rewrite Hrun, (os_chdir_fails _ _ _ Hgone).
  - destruct (chdir_target w_out (cwd w)) as [e|n'] eqn:Ht; [right; by eexists|].
    left. by rewrite (chdir_target_canonical _ _ _ Hcan Ht).
Qed.

End ChdirProperties.



(** ** [flock] *)

Section Flock.

Lemma os_open_fails (path : Path) (e : exn) (w : World) :
  open_target w path = inl e ->
  os_open_rdonly path true w = (Raise e, w).
Proof. intros H. unfold os_open_rdonly. by rewrite H. Qed.

Lemma os_open_openable (path : Path) (w : World) :
  openable path w ->
  os_open_rdonly path true w = (Ret (lowest_free (fds w)), opened path w).
Proof.
  intros [n H]. unfold os_open_rdonly, opened, node_of. by rewrite H.
Qed.

Lemma open_target_nothing (path : Path) (r : Path * bool) (w : World) :
  lookup w path = inr r -> is_directory w r = false -> files w !! r.1 = None ->
  open_target w path = inl FileNotFoundError.
Proof. intros Hl Hd Hf. unfold open_target. by rewrite Hl, Hd, Hf. Qed.

Lemma open_target_unreadable (path : Path) (r : Path * bool) (f : file) (w : World) :
  lookup w path = inr r -> is_directory w r = false ->
  files w !! r.1 = Some f -> f_readable f = false ->
  open_target w path = inl PermissionError.
Proof. intros Hl Hd Hf Hr. unfold open_target. by rewrite Hl, Hd, Hf, Hr. Qed.

(** Whatever ran under the [try], once [finally: os.close(fd)] is through
    the descriptor is not in the table. *)
Lemma try_finally_close {A} (fd : nat) (m : M A) (w w' : World) (r : res A) :
  try_finally m (os_close fd) w = (r, w') -> r <> Hang -> fds w' !! fd = None.
Proof.
  unfold try_finally, os_close. intros H Hr.
  destruct (m w) as [rb wb].
  destruct rb; destruct (fds wb !! fd) eqn:E;
    inversion H; subst; try done; simpl; apply lookup_delete_eq.
Qed.

(** C3, as amended.  On a path that cannot be opened, [flock] raises the
    error of [os.open] and leaves the world as it was: no descriptor is
    opened and the body does not run.  The error is that of the lookup
    when the name cannot be followed to its end (so
    [NotADirectoryError] below a regular file), the not-found error
    when the name leads to nothing, and the permission error when it
    leads to a file the process may not read.  On a path that can be
    opened for reading, every way out of the scope, by return or by
    exception, leaves the descriptor closed; and when the lock is free
    the scope is entered, the body runs holding the descriptor with the
    lock, and the scope is left as soon as the body is. *)
Theorem flock_closes {A} (path : Path) (body : nat -> M A) (w : World) :
  (forall e, open_target w path = inl e -> flock path body w = (Raise e, w))
  /\ (forall e, lookup w path = inl e -> flock path body w = (Raise e, w))
  /\ (forall r, lookup w path = inr r -> is_directory w r = false ->
        files w !! r.1 = None ->
        flock path body w = (Raise FileNotFoundError, w))
  /\ (forall r f, lookup w path = inr r -> is_directory w r = false ->
        files w !! r.1 = Some f -> f_readable f = false ->
        flock path body w = (Raise PermissionError, w))
  /\ (openable path w ->
      let fd := lowest_free (fds w) in
      (forall r w', flock path body w = (r, w') -> r <> Hang ->
         fds w' !! fd = None)
      /\ (node_of path w ∉ locked_elsewhere w ->
          held_by_other fd (node_of path w) (fds (opened path w)) = false ->
          fds (locked path w) !! fd = Some (OpenFile (node_of path w) true true)
          /\ forall r w_out, body fd (locked path w) = (r, w_out) -> r <> Hang ->
               exists r' w',
                 flock path body w = (r', w')
                 /\ r' <> Hang
                 /\ fds w' !! fd = None
                 /\ (is_Some (fds w_out !! fd) -> r' = r))).
Proof.
  assert (Hfail : forall e, open_target w path = inl e ->
                    flock path body w = (Raise e, w)).
  { intros e He. unfold flock. apply bind_Raise. by apply os_open_fails. }
  split; [exact Hfail|]. split; [|split; [|split]].
  - intros e Hl. apply Hfail. unfold open_target. by rewrite Hl.
  - intros r Hl Hd Hf. by eapply Hfail, open_target_nothing.
  - intros r f Hl Hd Hf Hr. by eapply Hfail, open_target_unreadable.
  - intros Hop fd.
    assert (Hrun : flock path body w =
              try_finally (fcntl_fcntl fd FD_CLOEXEC ;; fcntl_flock_ex fd ;; body fd)
                          (os_close fd) (opened path w)).
    { unfold flock. erewrite bind_Ret; [reflexivity|]. by apply os_open_openable. }
    split.
    + intros r w' H Hr. rewrite Hrun in H. by eapply try_finally_close.
    + intros Hfree Hheld.
      assert (Hfd : fds (opened path w) !! fd
                    = Some (OpenFile (node_of path w) true false)).
      { unfold opened. simpl. apply lookup_insert_eq. }
      split; [unfold locked; simpl; apply lookup_insert_eq|].
      intros r w_out Hbody Hr.
      assert (Hin : (fcntl_fcntl fd FD_CLOEXEC ;; fcntl_flock_ex fd ;; body fd)
                      (opened path w) = (r, w_out)).
      { erewrite bind_Ret.
        2:{ unfold fcntl_fcntl. rewrite Hfd. reflexivity. }
        erewrite bind_Ret; [exact Hbody|].
        unfold fcntl_flock_ex. rewrite Hfd.
        cbn [of_path of_cloexec].
        rewrite bool_decide_eq_false_2 by done.
        rewrite Hheld. reflexivity. }
      rewrite Hrun. erewrite try_finally_left; [|exact Hin|exact Hr].
      unfold os_close. destruct (fds w_out !! fd) eqn:E.
      * exists r, (set_fds (delete fd (fds w_out)) w_out).
        repeat split; [done|simpl; apply lookup_delete_eq].
      * exists (Raise OSError_EBADF), w_out.
        repeat split; [done|done|]. by intros [? ?].
Qed.

End Flock.


(** ** [INVOKING_USER] *)

Section Identity.
Import INVOKING_USER.
Local Open Scope Z_scope.

Lemma py_or_taken (a : M (option string)) (b : M str_or_int) (w : World) (s : string) :
  a w = (Ret (Some s), w) -> s <> EmptyString ->
  py_or a b w = (Ret (IsStr s), w).
Proof.
  intros Ha Hs. unfold py_or. erewrite bind_Ret; [|exact Ha].
  by destruct s.
Qed.

Lemma py_or_passed (a : M (option string)) (b : M str_or_int) (w : World) (o : option string) :
  a w = (Ret o, w) -> passed_over o ->
  py_or a b w = b w.
Proof.
  intros Ha Ho. unfold py_or. erewrite bind_Ret; [|exact Ha].
  by destruct Ho as [-> | ->].
Qed.

Lemma os_getenv_run (key : string) (w : World) :
  os_getenv key w = (Ret (os_environ w !! key), w).
Proof. reflexivity. Qed.

(** C4. The uid is taken from [SUDO_UID] when that is set (to something
    other than the empty string), whatever [PKEXEC_UID] and the process
    uid are; otherwise from [PKEXEC_UID] when that is set; otherwise it is
    the real process uid.  The gid is taken from [SUDO_GID] when set,
    otherwise it is the real process gid.  With [SUDO_UID] set to "1000"
    and [PKEXEC_UID] unset the uid is 1000 whatever the process uid. *)
Theorem identity_precedence (w : World) :
  (forall s, os_environ w !! "SUDO_UID" = Some s -> s <> EmptyString ->
     uid_expr w = py_int (IsStr s) w)
  /\ (forall s, passed_over (os_environ w !! "SUDO_UID") ->
        os_environ w !! "PKEXEC_UID" = Some s -> s <> EmptyString ->
        uid_expr w = py_int (IsStr s) w)
  /\ (passed_over (os_environ w !! "SUDO_UID") ->
      passed_over (os_environ w !! "PKEXEC_UID") ->
      uid_expr w = (Ret (real_uid w), w))
  /\ (forall s, os_environ w !! "SUDO_GID" = Some s -> s <> EmptyString ->
        gid_expr w = py_int (IsStr s) w)
  /\ (passed_over (os_environ w !! "SUDO_GID") ->
      gid_expr w = (Ret (real_gid w), w))
  /\ (os_environ w !! "SUDO_UID" = Some "1000" ->
      os_environ w !! "PKEXEC_UID" = None ->
      uid_expr w = (Ret 1000, w))
  /\ (os_environ w !! "SUDO_UID" = None ->
      os_environ w !! "PKEXEC_UID" = None ->
      uid_expr w = (Ret (real_uid w), w)).
Proof.
  assert (H1 : forall s, os_environ w !! "SUDO_UID" = Some s -> s <> EmptyString ->
                 uid_expr w = py_int (IsStr s) w).
  { intros s Hs Hne. unfold uid_expr.
    apply bind_Ret, py_or_taken; [|done]. by rewrite os_getenv_run, Hs. }
  assert (H3 : passed_over (os_environ w !! "SUDO_UID") ->
               passed_over (os_environ w !! "PKEXEC_UID") ->
               uid_expr w = (Ret (real_uid w), w)).
  { intros Hs Hp. unfold uid_expr.
    rewrite (bind_Ret _ _ w w (IsInt (real_uid w))); [reflexivity|].
    erewrite py_or_passed; [|apply os_getenv_run|exact Hs].
    erewrite py_or_passed; [|apply os_getenv_run|exact Hp].
    reflexivity. }
  split; [exact H1|]. split; [|split; [exact H3|split; [|split; [|split]]]].
  - intros s Hs Hp Hne. unfold uid_expr.
    apply bind_Ret.
    erewrite py_or_passed; [|apply os_getenv_run|exact Hs].
    apply py_or_taken; [|done]. by rewrite os_getenv_run, Hp.
  - intros s Hs Hne. unfold gid_expr.
    apply bind_Ret, py_or_taken; [|done]. by rewrite os_getenv_run, Hs.
  - intros Hs. unfold gid_expr.
    rewrite (bind_Ret _ _ w w (IsInt (real_gid w))); [reflexivity|].
    erewrite py_or_passed; [|apply os_getenv_run|exact Hs].
    reflexivity.
  - intros Hs _. by rewrite (H1 _ Hs).
  - intros Hs Hp. apply H3; by left.
Qed.

(** Evaluating a right-hand side changes nothing and never blocks. *)
Lemma py_int_pure (v : str_or_int) (w : World) :
  (exists z, py_int v w = (Ret z, w)) \/ py_int v w = (Raise ValueError, w).
Proof.
  destruct v as [s|z]; simpl; [|by left; eexists].
  destruct (int_of_str s); [by left; eexists|by right].
Qed.

Lemma uid_expr_pure (w : World) :
  (exists z, uid_expr w = (Ret z, w)) \/ uid_expr w = (Raise ValueError, w).
Proof.
  unfold uid_expr, py_or, os_getenv, os_getuid, mbind, M_bind, bind, mret, M_ret, ret.
  destruct (os_environ w !! "SUDO_UID") as [[|? ?]|];
    destruct (os_environ w !! "PKEXEC_UID") as [[|? ?]|]; apply py_int_pure.
Qed.

Lemma gid_expr_pure (w : World) :
  (exists z, gid_expr w = (Ret z, w)) \/ gid_expr w = (Raise ValueError, w).
Proof.
  unfold gid_expr, py_or, os_getenv, os_getgid, mbind, M_bind, bind, mret, M_ret, ret.
  destruct (os_environ w !! "SUDO_GID") as [[|? ?]|]; apply py_int_pure.
Qed.

(** The class statement binds the class as soon as both right-hand sides
    have a value, and binds nothing when one of them raises. *)
Lemma class_statement_run (w : World) :
  (exists u g,
     uid_expr w = (Ret u, w) /\ gid_expr w = (Ret g, w)
     /\ class_statement w =
          (Ret tt, set_class_attrs (Some (Identity u g (u =? 0))) w))
  \/ class_statement w = (Raise ValueError, w).
Proof.
  unfold class_statement.
  destruct (uid_expr_pure w) as [[u Hu]|Hu].
  - destruct (gid_expr_pure w) as [[g Hg]|Hg].
    + left. exists u, g. split; [done|]. split; [done|].
      erewrite bind_Ret; [|exact Hu]. erewrite bind_Ret; [|exact Hg]. reflexivity.
    + right. erewrite bind_Ret; [|exact Hu]. by apply bind_Raise.
  - right. by apply bind_Raise.
Qed.

Variable getpwuid_pw_name : World -> Z -> res string.
Variable expanduser : World -> string -> res Path.

Lemma keeps_bind {A B} (m : M A) (k : A -> M B) :
  keeps_attrs m -> (forall a, keeps_attrs (k a)) -> keeps_attrs (m ≫= k).
Proof.
  intros Hm Hk w. unfold mbind, M_bind, bind.
  specialize (Hm w). destruct (m w) as [[a|e|] w1]; simpl in *; [|done|done].
  by rewrite Hk.
Qed.

Lemma keeps_ret {A} (a : A) : keeps_attrs (mret a).
Proof. by intros w. Qed.

Lemma keeps_reads {A} (f : World -> A) : keeps_attrs (reads f).
Proof. by intros w. Qed.

Lemma keeps_asks {A} (f : World -> res A) : keeps_attrs (asks f).
Proof. by intros w. Qed.

Lemma keeps_attr {A} (f : identity -> A) : keeps_attrs (attr f).
Proof. intros w. unfold attr. by destruct (class_attrs w) eqn:E. Qed.

Lemma keeps_modify (f : World -> World) :
  (forall w, class_attrs (f w) = class_attrs w) -> keeps_attrs (modify f).
Proof. intros Hf w. apply Hf. Qed.

Lemma keeps_name : keeps_attrs (name getpwuid_pw_name).
Proof.
  unfold name. apply keeps_bind; [apply keeps_reads|]. intros [n|].
  - apply keeps_ret.
  - apply keeps_bind; [apply keeps_attr|]. intros u.
    apply keeps_bind; [apply keeps_asks|]. intros n.
    apply keeps_bind; [apply keeps_modify; by intros [] |]. intros _. apply keeps_ret.
Qed.

Lemma keeps_home : keeps_attrs (home getpwuid_pw_name expanduser).
Proof.
  unfold home. apply keeps_bind; [apply keeps_reads|]. intros [h|].
  - apply keeps_ret.
  - apply keeps_bind; [apply keeps_name|]. intros n.
    apply keeps_bind; [apply keeps_asks|]. intros h.
    apply keeps_bind; [apply keeps_modify; by intros [] |]. intros _. apply keeps_ret.
Qed.

Lemma keeps_init : keeps_attrs (init getpwuid_pw_name expanduser).
Proof.
  unfold init. apply keeps_bind; [apply keeps_name|]. intros n.
  apply keeps_bind; [apply keeps_home|]. intros h.
  apply keeps_bind; [apply keeps_attr|]. intros u.
  apply keeps_bind; [apply keeps_attr|]. intros g.
  by intros w.
Qed.

Lemma keeps_is_running_user : keeps_attrs is_running_user.
Proof.
  unfold is_running_user. apply keeps_bind; [apply keeps_attr|]. intros u.
  apply keeps_bind; [by intros w|]. intros r. apply keeps_ret.
Qed.

(** No method assigns to the class: a call leaves the attributes as they
    are, whether it returns or raises. *)
Lemma call_keeps_attrs (m : method) (w : World) :
  class_attrs (call getpwuid_pw_name expanduser m w) = class_attrs w.
Proof.
  destruct m; unfold call.
  - apply keeps_init.
  - apply keeps_is_running_user.
  - apply keeps_name.
  - apply keeps_home.
Qed.

Lemma calls_keep_attrs (ms : list method) (w : World) :
  class_attrs (calls getpwuid_pw_name expanduser ms w) = class_attrs w.
Proof.
  revert w. induction ms as [|m ms IH]; intros w; [done|].
  unfold calls in *. simpl. rewrite IH. apply call_keeps_attrs.
Qed.

(** C7. Whatever [SUDO_UID], [PKEXEC_UID], [SUDO_GID] and the real ids
    are, once the class statement has run the class holds attributes with
    [invoked_as_root == (uid == 0)], and they are the same three values
    after any sequence of calls of the class methods. *)
Theorem identity_invariant (w w1 : World) :
  class_statement w = (Ret tt, w1) ->
  exists c,
    class_attrs w1 = Some c
    /\ invoked_as_root c = (uid c =? 0)
    /\ forall ms, class_attrs (calls getpwuid_pw_name expanduser ms w1) = Some c.
Proof.
  intros Hrun.
  destruct (class_statement_run w) as [(u & g & _ & _ & H)|H];
    rewrite Hrun in H; [|discriminate].
  injection H as ->.
  exists (Identity u g (u =? 0)). split; [done|]. split; [done|].
  intros ms. by rewrite calls_keep_attrs.
Qed.

End Identity.


(** ** [read_env_file] *)

#[local] Arguments Ascii.eqb : simpl never.

Section StringFacts.

Lemma has_char_app (c : ascii) (a b : string) :
  has_char c (a +:+ b) = has_char c a || has_char c b.
Proof.
  induction a as [|x a IH]; [done|]. simpl.
  destruct (Ascii.eqb c x); [done|]. exact IH.
Qed.

Lemma span_all (p : ascii -> bool) (k rest : string) (c : ascii) :
  all_chars p k = true -> p c = false ->
  span p (k +:+ String c rest) = (k, String c rest).
Proof.
  intros Hk Hc. induction k as [|x k IH]; simpl.
  - by rewrite Hc.
  - simpl in Hk. apply andb_true_iff in Hk as [Hx Hk].
    rewrite Hx, (IH Hk). done.
Qed.

Lemma span_split (p : ascii -> bool) (s a b : string) :
  span p s = (a, b) ->
  s = a +:+ b /\ all_chars p a = true.
Proof.
  revert a b. induction s as [|x s IH]; intros a b H; simpl in H.
  - by injection H as <- <-.
  - destruct (p x) eqn:Hx.
    + destruct (span p s) as [a' b'] eqn:E. injection H as <- <-.
      destruct (IH _ _ eq_refl) as [-> Ha]. simpl. by rewrite Hx, Ha.
    + by injection H as <- <-.
Qed.

Lemma span_not_newline (v : string) :
  has_char LF v = false -> (span not_newline v).1 = v.
Proof.
  induction v as [|x v IH]; [done|]. simpl. unfold not_newline at 1.
  rewrite (Ascii.eqb_sym x LF).
  destruct (Ascii.eqb LF x); [done|]. intros H. simpl.
  destruct (span not_newline v) as [a b]. simpl in *. by rewrite (IH H).
Qed.

End StringFacts.

Section Pattern.

(** The matcher finds what the spec's pattern describes. *)
Lemma re_match_env_conforming (line k v : string) :
  conforming line k v -> has_char LF v = false ->
  re_match_env line = Some (k, v).
Proof.
  intros [-> (c & k' & -> & Hc & Hne & Hk')] Hv. simpl. rewrite Hc.
  rewrite (span_all is_key_char k' v "="%char Hk' eq_refl).
  destruct k' as [|k0 k']; [done|]. by rewrite span_not_newline.
Qed.

(** And nothing else: a match is a conforming line, the value being the
    part up to the first line feed. *)
Lemma re_match_env_sound (line k v : string) :
  re_match_env line = Some (k, v) ->
  exists v', conforming line k v' /\ v = (span not_newline v').1.
Proof.
  unfold re_match_env. destruct line as [|c rest]; [done|].
  destruct (is_upper c) eqn:Hc; [|done].
  destruct (span is_key_char rest) as [a b] eqn:E.
  destruct a as [|k0 a]; [done|]. destruct b as [|e v']; [done|].
  destruct (Ascii.eqb_spec e "="%char) as [->|Hne].
  2:{ intros H. exfalso. revert H.
      destruct e as [[] [] [] [] [] [] [] []]; try done. }
  intros H. injection H as <- <-.
  destruct (span_split _ _ _ _ E) as [-> Ha].
  exists v'. split; [|done]. split; [done|].
  exists c, (String k0 a). by repeat split.
Qed.

Lemma re_match_env_iff (line k v : string) :
  has_char LF line = false ->
  re_match_env line = Some (k, v) <-> conforming line k v.
Proof.
  intros Hlf. split.
  - intros H. destruct (re_match_env_sound _ _ _ H) as (v' & Hc & ->).
    destruct Hc as [Hl Hk]. rewrite Hl, has_char_app in Hlf.
    apply orb_false_iff in Hlf as [_ Hlf]. simpl in Hlf.
    rewrite span_not_newline; [done|].
    by destruct (Ascii.eqb LF "="%char).
  - intros Hc. apply re_match_env_conforming; [done|].
    destruct Hc as [Hl _]. rewrite Hl, has_char_app in Hlf.
    apply orb_false_iff in Hlf as [_ Hlf]. simpl in Hlf.
    by destruct (Ascii.eqb LF "="%char).
Qed.



End Pattern.


Section DictFacts.

Context {K V : Type} `{EqDecision K}.
Implicit Types d l : list (K * V).

Lemma dict_get_setitem_eq k v d : dict_get k (dict_setitem k v d) = Some v.
Proof.
  induction d as [|[k' v'] d IH]; simpl.
  - by rewrite decide_True.
  - destruct (decide (k = k')) as [->|Hne]; simpl.
    + by rewrite decide_True.
    + by rewrite decide_False.
Qed.

Lemma dict_get_setitem_ne k k' v d :
  k <> k' -> dict_get k' (dict_setitem k v d) = dict_get k' d.
Proof.
  intros Hne. induction d as [|[k0 v0] d IH]; simpl.
  - rewrite decide_False; [done|]. by intros ->.
  - destruct (decide (k = k0)) as [->|Hne0]; simpl.
    + by rewrite !decide_False by (by intros ->).
    + destruct (decide (k' = k0)); [done|]. exact IH.
Qed.

Lemma dict_setitem_keys k v d :
  (dict_setitem k v d).*1 = if decide (k ∈ d.*1) then d.*1 else d.*1 ++ [k].
Proof.
  induction d as [|[k' v'] d IH].
  - cbn [dict_setitem]. destruct (decide (k ∈ ([] : list (K * V)).*1)) as [Hin|_]; [|done].
    by apply elem_of_nil in Hin.
  - cbn [dict_setitem]. rewrite fmap_cons. cbn [fst].
    destruct (decide (k = k')) as [->|Hne].
    + rewrite fmap_cons. cbn [fst].
      destruct (decide (k' ∈ k' :: d.*1)) as [_|Hno]; [done|].
      exfalso. apply Hno, elem_of_cons. by left.
    + rewrite fmap_cons, IH. cbn [fst].
      destruct (decide (k ∈ d.*1)) as [Hin|Hin];
        destruct (decide (k ∈ k' :: d.*1)) as [Hin'|Hin']; try done.
      * exfalso. apply Hin', elem_of_cons. by right.
      * apply elem_of_cons in Hin' as [?|?]; done.
Qed.

Lemma dict_snoc l k v : dict (l ++ [(k, v)]) = dict_setitem k v (dict l).
Proof. unfold dict. by rewrite fold_left_app. Qed.

(** A dict never holds a key twice. *)
Lemma dict_NoDup l : NoDup (dict l).*1.
Proof.
  induction l as [|[k v] l IH] using rev_ind; [constructor|].
  rewrite dict_snoc, dict_setitem_keys.
  destruct (decide (k ∈ (dict l).*1)) as [Hin|Hin]; [done|].
  apply NoDup_app. split; [done|]. split.
  - intros x Hx ->%list_elem_of_singleton. done.
  - apply NoDup_singleton.
Qed.

(** The last pair stored under a key decides its value. *)
Lemma dict_last_wins (pre post : list (K * V)) k v :
  k ∉ post.*1 -> dict_get k (dict (pre ++ (k, v) :: post)) = Some v.
Proof.
  induction post as [|[k' v'] post IH] using rev_ind; intros Hk.
  - rewrite dict_snoc. apply dict_get_setitem_eq.
  - rewrite fmap_app in Hk. apply not_elem_of_app in Hk as [Hk Hk'].
    replace (pre ++ (k, v) :: post ++ [(k', v')])
      with ((pre ++ (k, v) :: post) ++ [(k', v')])
      by (by rewrite <- app_assoc).
    rewrite dict_snoc, dict_get_setitem_ne; [by apply IH|].
    intros ->. apply Hk'. simpl. apply list_elem_of_singleton. done.
Qed.

Lemma dict_get_Some_key k v d : dict_get k d = Some v -> k ∈ d.*1.
Proof.
  induction d as [|[k' v'] d IH]; simpl; [done|].
  destruct (decide (k = k')) as [->|Hne]; intros H.
  - apply elem_of_cons. by left.
  - apply elem_of_cons. right. by apply IH.
Qed.

End DictFacts.

Section EnvFileProperties.

Variable literal_eval : string -> res pyobj.

Lemma loop_skip path n raw rest :
  String.eqb (rstrip raw) EmptyString || startswith_hash (rstrip raw) = true ->
  read_env_lines literal_eval path n (raw :: rest) =
    read_env_lines literal_eval path (S n) rest.
Proof. intros H. cbn [read_env_lines]. by rewrite H. Qed.

Lemma loop_match path n raw rest name val :
  String.eqb (rstrip raw) EmptyString || startswith_hash (rstrip raw) = false ->
  re_match_env (rstrip raw) = Some (name, val) ->
  read_env_lines literal_eval path n (raw :: rest) =
    (val ← (if quote_led val then (fun w => (literal_eval val, w))
            else mret (PyStr val));
     rest ← read_env_lines literal_eval path (S n) rest;
     mret ((name, val) :: rest)).
Proof. intros H Hm. cbn [read_env_lines]. by rewrite H, Hm. Qed.

Lemma loop_bad path n raw rest :
  String.eqb (rstrip raw) EmptyString || startswith_hash (rstrip raw) = false ->
  re_match_env (rstrip raw) = None ->
  read_env_lines literal_eval path n (raw :: rest) =
    (logging_info (MsgBadLine path n (rstrip raw)) ;;
     read_env_lines literal_eval path (S n) rest).
Proof. intros H Hm. cbn [read_env_lines]. by rewrite H, Hm. Qed.

(** Evaluating the value of a matched line leaves the world alone. *)
Lemma value_pure (val : string) (w : World) :
  exists r, (if quote_led val then (fun w => (literal_eval val, w))
             else (mret (PyStr val) : M pyobj)) w = (r, w)
            /\ (quote_led val = false -> r = Ret (PyStr val))
            /\ (quote_led val = true -> r = literal_eval val).
Proof. destruct (quote_led val); by eexists. Qed.

(** The loop touches nothing but the log, where it only ever adds
    records of level INFO; and what it returns is what the lines yield. *)
Lemma loop_run path lines : forall n w,
  exists new,
    (read_env_lines literal_eval path n lines w).2 = set_logged (logged w ++ new) w
    /\ Forall (fun r => lr_level r = INFO) new
    /\ forall pairs, (read_env_lines literal_eval path n lines w).1 = Ret pairs ->
         pairs = omap (line_yield literal_eval) lines.
Proof.
  induction lines as [|raw rest IH]; intros n w.
  - exists []. rewrite app_nil_r. split; [by destruct w|]. split; [done|].
    intros pairs H. simpl in H. by injection H as <-.
  - cbn [omap list_omap]. unfold line_yield at 1.
    destruct (String.eqb (rstrip raw) EmptyString || startswith_hash (rstrip raw)) eqn:Hskip.
    { rewrite loop_skip by done. apply IH. }
    destruct (re_match_env (rstrip raw)) as [[name val]|] eqn:Hm.
    + rewrite (loop_match _ _ _ _ _ _ Hskip Hm).
      destruct (value_pure val w) as (r & Hval & Hplain & Hquoted).
      destruct r as [o|e|].
      * erewrite bind_Ret; [|exact Hval].
        destruct (IH (S n) w) as (new & Hw & Hinfo & Hpairs).
        exists new.
        destruct (read_env_lines literal_eval path (S n) rest w) as [[ps|e|] w1] eqn:E.
        -- erewrite bind_Ret; [|exact E]. simpl in *.
           split; [done|]. split; [done|].
           intros pairs H. injection H as <-. rewrite <- (Hpairs _ eq_refl).
           destruct (quote_led val).
           ++ by rewrite <- Hquoted.
           ++ specialize (Hplain eq_refl). by injection Hplain as ->.
        -- erewrite bind_Raise; [|exact E]. simpl in *. done.
        -- erewrite bind_Hang; [|exact E]. simpl in *. done.
      * exists []. rewrite app_nil_r. erewrite bind_Raise; [|exact Hval].
        split; [by destruct w|]. done.
      * exists []. rewrite app_nil_r. erewrite bind_Hang; [|exact Hval].
        split; [by destruct w|]. done.
    + rewrite (loop_bad _ _ _ _ Hskip Hm).
      erewrite bind_Ret; [|reflexivity].
      destruct (IH (S n) (set_logged (logged w ++ [LogRecord INFO (MsgBadLine path n (rstrip raw))]) w))
        as (new & Hw & Hinfo & Hpairs).
      exists (LogRecord INFO (MsgBadLine path n (rstrip raw)) :: new).
      split; [|split].
      * rewrite Hw. simpl. by rewrite <- app_assoc.
      * by constructor.
      * exact Hpairs.
Qed.

(** A successful [path.open()]: the name led to a file the process may
    read, and the lowest free descriptor is open on it. *)
Lemma path_open_Ret (path : Path) (w w1 : World) (fd : nat) (text : string) :
  path_open path w = (Ret (fd, text), w1) ->
  exists r f,
    lookup w path = inr r
    /\ file_at w path = Some f
    /\ f_readable f = true
    /\ fd = lowest_free (fds w)
    /\ text = f_text f
    /\ w1 = set_fds (<[fd := OpenFile r.1 true false]> (fds w)) w.
Proof.
  unfold path_open, file_at. intros H.
  destruct (lookup w path) as [e|r]; [done|].
  destruct (is_directory w r).
  { by destruct (bool_decide (r.1 ∈ no_read w)). }
  destruct (files w !! r.1) as [f|]; [|done].
  destruct (f_readable f) eqn:Hr; [|done].
  injection H as <- <- <-. by exists r, f.
Qed.

(** What [read_env_file] returns is the dict of what the lines of the
    file yield, in file order. *)
Lemma read_env_file_returns (path : Path) (w w' : World) (d : list (string * pyobj)) :
  read_env_file literal_eval path w = (Ret d, w') ->
  exists f,
    file_at w path = Some f
    /\ d = dict (omap (line_yield literal_eval) (readlines (f_text f))).
Proof.
  unfold read_env_file, dictify. intros H.
  destruct (read_env_file_gen literal_eval path w) as [[pairs|e|] w2] eqn:Hgen.
  2:{ rewrite (bind_Raise _ _ _ _ _ Hgen) in H. discriminate. }
  2:{ rewrite (bind_Hang _ _ _ _ Hgen) in H. discriminate. }
  rewrite (bind_Ret _ _ _ _ _ Hgen) in H. injection H as <- _.
  unfold read_env_file_gen in Hgen.
  destruct (path_open path w) as [[[fd text]|e|] w1] eqn:Hopen.
  2:{ rewrite (bind_Raise _ _ _ _ _ Hopen) in Hgen. discriminate. }
  2:{ rewrite (bind_Hang _ _ _ _ Hopen) in Hgen. discriminate. }
  rewrite (bind_Ret _ _ _ _ _ Hopen) in Hgen. cbn [fst snd] in Hgen.
  destruct (path_open_Ret _ _ _ _ _ Hopen) as (r & f & _ & Hf & _ & _ & -> & ->).
  exists f. split; [done|]. f_equal.
  destruct (loop_run path (readlines (f_text f)) 1
              (set_fds (<[fd:=OpenFile r.1 true false]> (fds w)) w))
    as (new & _ & _ & Hpairs).
  apply Hpairs.
  unfold try_finally in Hgen.
  destruct (read_env_lines literal_eval path 1 (readlines (f_text f)) _) as [[ps|e|] w3];
    [|by destruct (os_close _ w3) as [[[]|e'|] w4] | done].
  destruct (os_close _ w3) as [[[]|e'|] w4]; [|done|done].
  by injection Hgen as <- _.
Qed.

(** C10. When [read_env_file] returns, the mapping holds no key twice,
    and a key that conforming lines give more than once is bound to the
    value of the last of them in file order. *)
Theorem read_env_file_last_wins (path : Path) (w w' : World)
    (d : list (string * pyobj)) (f : file) :
  read_env_file literal_eval path w = (Ret d, w') ->
  file_at w path = Some f ->
  NoDup d.*1
  /\ forall before line after k v,
       readlines (f_text f) = before ++ line :: after ->
       line_yield literal_eval line = Some (k, v) ->
       (forall line', line' ∈ after ->
          forall v', line_yield literal_eval line' <> Some (k, v')) ->
       dict_get k d = Some v
       /\ length (filter (fun kv => kv.1 = k) d) = 1.
Proof.
  intros Hrun Hf.
  destruct (read_env_file_returns _ _ _ _ Hrun) as (f' & Hf' & ->).
  rewrite Hf in Hf'. injection Hf' as <-.
  split; [apply dict_NoDup|].
  intros before line after k v Hlines Hline Hlast.
  assert (Hget : dict_get k (dict (omap (line_yield literal_eval) (readlines (f_text f))))
                 = Some v).
  { rewrite Hlines, omap_app. cbn [omap list_omap]. rewrite Hline.
    apply dict_last_wins.
    intros Hin. apply list_elem_of_fmap in Hin as ([k' v'] & -> & Hin).
    apply list_elem_of_omap in Hin as (line' & Hin & Hy).
    by apply (Hlast _ Hin v'). }
  split; [exact Hget|].
  apply dict_get_Some_key in Hget.
  pose proof (dict_NoDup (omap (line_yield literal_eval) (readlines (f_text f)))) as Hnd.
  revert Hget Hnd.
  generalize (dict (omap (line_yield literal_eval) (readlines (f_text f)))).
  clear. intros d. induction d as [|[k' v'] d IH]; intros Hin Hnd.
  - by apply elem_of_nil in Hin.
  - rewrite fmap_cons in Hin, Hnd. cbn [fst] in Hin, Hnd.
    apply NoDup_cons in Hnd as [Hk' Hnd].
    rewrite filter_cons. cbn [fst].
    destruct (decide (k' = k)) as [->|Hne].
    + simpl. f_equal.
      clear IH Hin Hnd. induction d as [|[k'' v''] d IH]; [done|].
      rewrite fmap_cons in Hk'. cbn [fst] in Hk'.
      apply not_elem_of_cons in Hk' as [Hne Hk'].
      rewrite filter_cons. cbn [fst].
      destruct (decide (k'' = k)); [congruence|]. by apply IH.
    + apply elem_of_cons in Hin as [->|Hin]; [done|]. by apply IH.
Qed.


End EnvFileProperties.

(** ** [is_power_of_2] *)

Section PowerOfTwo.
Local Open Scope Z_scope.

Lemma land_pow2_pred (k : Z) : 0 <= k -> Z.land (2 ^ k) (2 ^ k - 1) = 0.
Proof.
intros Hk.
replace (2 ^ k - 1) with (Z.ones k) by (rewrite Z.ones_equiv; lia).
rewrite Z.land_ones by lia.
apply Z.mod_same. lia.
Qed.

Lemma land_pred_zero_pow2 (x : Z) :
0 < x -> Z.land x (x - 1) = 0 -> x = 2 ^ Z.log2 x.
Proof.
intros Hx Hland.
destruct (Z.log2_spec x Hx) as [Hlo Hhi].
destruct (Z.eq_dec x (2 ^ Z.log2 x)) as [|Hne]; [done|].
exfalso.
assert (Hk : 0 <= Z.log2 x) by apply Z.log2_nonneg.
assert (Hlog : Z.log2 (x - 1) = Z.log2 x).
{ apply Z.log2_unique; [done|]. split; lia. }
assert (Hb1 : Z.testbit x (Z.log2 x) = true) by (apply Z.bit_log2; lia).
assert (Hb2 : Z.testbit (x - 1) (Z.log2 x) = true).
{ rewrite <- Hlog. apply Z.bit_log2.
  assert (0 < 2 ^ Z.log2 x) by (apply Z.pow_pos_nonneg; lia). lia. }
assert (Hb : Z.testbit (Z.land x (x - 1)) (Z.log2 x) = true).
{ rewrite Z.land_spec, Hb1, Hb2. done. }
rewrite Hland, Z.bits_0 in Hb. done.
Qed.

(** C9. For every integer [x], [is_power_of_2 x] is true exactly when [x] is
  positive and an exact power of two, [x = 2 ^ k] for a natural number
  [k]; it is false for zero and for every negative integer. *)
Theorem is_power_of_2_spec (x : Z) :
(is_power_of_2 x = true <-> x > 0 /\ exists k : nat, x = 2 ^ Z.of_nat k)
/\ (x <= 0 -> is_power_of_2 x = false).
Proof.
unfold is_power_of_2. split; [split|].
- intros H. apply andb_true_iff in H as [Hpos Hland].
  apply Z.gtb_lt in Hpos. apply Z.eqb_eq in Hland.
  split; [lia|].
  exists (Z.to_nat (Z.log2 x)).
  rewrite Z2Nat.id by apply Z.log2_nonneg.
  by apply land_pred_zero_pow2.
- intros [Hpos [k ->]].
  apply andb_true_iff. split.
  + apply Z.gtb_lt. lia.
  + apply Z.eqb_eq, land_pow2_pred. lia.
- intros Hx. apply andb_false_iff. left.
  destruct (x >? 0) eqn:E; [|done]. apply Z.gtb_lt in E. lia.
Qed.

End PowerOfTwo.

(** ** [sort_packages] and [flatten] *)

Section SortPackages.

Lemma code_inj (x y : ascii) : code x = code y -> x = y.
Proof.
  unfold code. intros H.
  rewrite <- (ascii_nat_embedding x), <- (ascii_nat_embedding y). by rewrite H.
Qed.

Lemma str_ltb_irrefl (a : string) : str_ltb a a = false.
Proof.
  induction a as [|x a IH]; [done|]. cbn [str_ltb].
  by rewrite Nat.ltb_irrefl, Nat.eqb_refl.
Qed.

Lemma str_ltb_trans (a b c : string) :
  str_ltb a b = true -> str_ltb b c = true -> str_ltb a c = true.
Proof.
  revert b c. induction a as [|x a IH]; intros [|y b] [|z c]; cbn [str_ltb]; try done.
  destruct (Nat.ltb_spec (code x) (code y)), (Nat.ltb_spec (code y) (code z)),
    (Nat.ltb_spec (code x) (code z)), (Nat.eqb_spec (code x) (code y)),
    (Nat.eqb_spec (code y) (code z)), (Nat.eqb_spec (code x) (code z));
    try done; try lia.
  apply IH.
Qed.

Lemma str_ltb_total (a b : string) :
  str_ltb a b = true \/ a = b \/ str_ltb b a = true.
Proof.
  revert b. induction a as [|x a IH]; intros [|y b]; cbn [str_ltb]; auto.
  destruct (Nat.ltb_spec (code x) (code y)), (Nat.ltb_spec (code y) (code x)),
    (Nat.eqb_spec (code x) (code y)), (Nat.eqb_spec (code y) (code x));
    auto; try lia.
  assert (x = y) as -> by (by apply code_inj).
  destruct (IH b) as [?|[->|?]]; auto.
Qed.

Lemma key_ltb_irrefl (k : nat * string) : key_ltb k k = false.
Proof.
  unfold key_ltb. by rewrite Nat.ltb_irrefl, Nat.eqb_refl, str_ltb_irrefl.
Qed.

Lemma key_ltb_trans (a b c : nat * string) :
  key_ltb a b = true -> key_ltb b c = true -> key_ltb a c = true.
Proof.
  destruct a as [ca a], b as [cb b], c as [cc c]. unfold key_ltb. cbn [fst snd].
  destruct (Nat.ltb_spec ca cb), (Nat.ltb_spec cb cc), (Nat.ltb_spec ca cc),
    (Nat.eqb_spec ca cb), (Nat.eqb_spec cb cc), (Nat.eqb_spec ca cc);
    cbn; try done; try lia.
  apply str_ltb_trans.
Qed.

Lemma key_ltb_total (a b : nat * string) :
  key_ltb a b = true \/ a = b \/ key_ltb b a = true.
Proof.
  destruct a as [ca a], b as [cb b]. unfold key_ltb. cbn [fst snd].
  destruct (Nat.ltb_spec ca cb), (Nat.ltb_spec cb ca),
    (Nat.eqb_spec ca cb), (Nat.eqb_spec cb ca); cbn; auto; try lia.
  subst. destruct (str_ltb_total a b) as [?|[->|?]]; auto.
Qed.

Lemma key_ltb_asym (a b : nat * string) :
  key_ltb a b = true -> key_ltb b a = false.
Proof.
  intros H. destruct (key_ltb b a) eqn:E; [|done].
  by rewrite <- (key_ltb_irrefl a), (key_ltb_trans a b a).
Qed.

Lemma key_le_trans (x y z : (nat * string) * string) :
  key_le x y -> key_le y z -> key_le x z.
Proof.
  unfold key_le. intros Hxy Hyz.
  destruct (key_ltb z.1 x.1) eqn:E; [|done].
  destruct (key_ltb_total x.1 y.1) as [H|[H|H]].
  - by rewrite (key_ltb_trans _ _ _ E H) in Hyz.
  - rewrite <- H in Hyz. congruence.
  - congruence.
Qed.

Lemma insert_by_key_perm x l : insert_by_key x l ≡ₚ x :: l.
Proof.
  induction l as [|y l IH]; [done|]. cbn [insert_by_key].
  destruct (key_ltb x.1 y.1); [done|]. rewrite IH. apply Permutation_swap.
Qed.

Lemma insert_by_key_sorted x l :
  StronglySorted key_le l -> StronglySorted key_le (insert_by_key x l).
Proof.
  induction 1 as [|y l Hl IH Hy]; cbn [insert_by_key].
  - repeat constructor.
  - destruct (key_ltb x.1 y.1) eqn:E.
    + assert (Hxy : key_le x y) by (by apply key_ltb_asym).
      constructor; [by constructor|]. constructor; [done|].
      eapply Forall_impl; [exact Hy|]. intros z Hz. by eapply key_le_trans.
    + constructor; [done|].
      rewrite insert_by_key_perm. by constructor.
Qed.

Lemma sort_by_key_from acc l :
  StronglySorted key_le acc ->
  StronglySorted key_le (fold_left (fun acc x => insert_by_key x acc) l acc)
  /\ fold_left (fun acc x => insert_by_key x acc) l acc ≡ₚ acc ++ l.
Proof.
  revert acc. induction l as [|x l IH]; intros acc Hacc; cbn [fold_left].
  - by rewrite app_nil_r.
  - destruct (IH (insert_by_key x acc)) as [Hs Hp]; [by apply insert_by_key_sorted|].
    split; [done|]. rewrite Hp, insert_by_key_perm.
    cbn [app]. apply Permutation_middle.
Qed.

Lemma sort_by_key_sorted l : StronglySorted key_le (sort_by_key l).
Proof. apply sort_by_key_from. constructor. Qed.

Lemma sort_by_key_perm l : sort_by_key l ≡ₚ l.
Proof. apply (sort_by_key_from [] l). constructor. Qed.

(** What decorating gives: the names with their keys, or [IndexError] when
    a name is empty. *)
Lemma decorate_inr names ks :
  decorate names = inr ks ->
  ks.*2 = names /\ Forall (fun p => package_key p.2 = inr p.1) ks.
Proof.
  revert ks. induction names as [|n names IH]; intros ks H; cbn [decorate] in H.
  - by injection H as <-.
  - destruct (package_key n) as [e|k] eqn:Ek; [done|].
    destruct (decorate names) as [e|ks'] eqn:Ed; [done|]. injection H as <-.
    destruct (IH _ eq_refl) as [<- Hall]. split; [done|]. by constructor.
Qed.

Lemma decorate_spec names :
  ((EmptyString ∈ names) /\ decorate names = inl IndexError)
  \/ ((EmptyString ∉ names) /\ exists ks, decorate names = inr ks).
Proof.
  induction names as [|n names IH]; cbn [decorate].
  - right. split; [apply not_elem_of_nil|by eexists].
  - destruct n as [|c n]; cbn.
    + left. split; [apply elem_of_cons; by left|done].
    + destruct IH as [[Hin ->]|[Hin [ks ->]]].
      * left. split; [apply elem_of_cons; by right|done].
      * right. split; [|by eexists].
        intros [?|?]%elem_of_cons; done.
Qed.

Lemma package_le_of_key_le (x y : (nat * string) * string) :
  package_key x.2 = inr x.1 -> package_key y.2 = inr y.1 ->
  key_le x y -> package_le x.2 y.2.
Proof. unfold package_le, key_le. by intros -> ->. Qed.

Lemma sorted_names ks :
  Forall (fun p => package_key p.2 = inr p.1) ks ->
  StronglySorted key_le ks -> StronglySorted package_le ks.*2.
Proof.
  intros Hall Hs. induction Hs as [|x l Hl IH Hx]; [constructor|].
  apply Forall_cons in Hall as [Hkx Hall]. rewrite fmap_cons.
  constructor; [by apply IH|].
  apply Forall_fmap, Forall_forall. intros y Hy. cbn.
  apply package_le_of_key_le; [done| |].
  - by apply (proj1 (Forall_forall _ _) Hall).
  - by apply (proj1 (Forall_forall _ _) Hx).
Qed.

#[local] Instance package_le_antisymm : AntiSymm (=) package_le.
Proof.
  intros a b. unfold package_le, package_key.
  destruct (package_class a) as [?|ca]; [done|].
  destruct (package_class b) as [?|cb]; [done|].
  intros Hab Hba.
  destruct (key_ltb_total (ca, a) (cb, b)) as [H|[H|H]]; [congruence| |congruence].
  by injection H.
Qed.

(** The class of a name in the result does not decrease from left to
    right: names of class 0 first, then paths, then conditionals. *)
Lemma package_le_class (a b : string) :
  package_le a b ->
  exists ca cb, package_class a = inr ca /\ package_class b = inr cb /\ ca <= cb.
Proof.
  unfold package_le, package_key.
  destruct (package_class a) as [?|ca]; [done|].
  destruct (package_class b) as [?|cb]; [done|].
  unfold key_ltb. cbn [fst snd]. intros H. exists ca, cb. split; [done|]. split; [done|].
  apply orb_false_iff in H as [H _]. apply Nat.ltb_ge in H. lia.
Qed.

Lemma sort_packages_returns (packages : list string) :
  EmptyString ∉ packages ->
  exists sorted,
    sort_packages packages = inr sorted
    /\ sorted ≡ₚ packages
    /\ StronglySorted package_le sorted.
Proof.
  intros Hne. unfold sort_packages.
  destruct (decorate_spec packages) as [[Hin _]|[_ [ks Hks]]]; [done|].
  rewrite Hks. destruct (decorate_inr _ _ Hks) as [Hnames Hall].
  eexists. split; [done|]. split.
  - by rewrite sort_by_key_perm, Hnames.
  - apply sorted_names; [|apply sort_by_key_sorted].
    by rewrite sort_by_key_perm.
Qed.

Lemma sort_packages_empty_name (packages : list string) :
  EmptyString ∈ packages -> sort_packages packages = inl IndexError.
Proof.
  intros Hin. unfold sort_packages.
  by destruct (decorate_spec packages) as [[_ ->]|[Hne _]].
Qed.

Lemma sort_packages_inr (packages sorted : list string) :
  sort_packages packages = inr sorted -> EmptyString ∉ packages.
Proof.
  intros Hs Hin. by rewrite (sort_packages_empty_name _ Hin) in Hs.
Qed.

(** X1. When no name is empty, [sort_packages] returns the names it was
    given, each as often as it came, in an order in which no name comes
    after one that is greater by class and then by text; so names that
    start with neither a slash nor a parenthesis come first, paths second
    and conditionals third, as the docstring says. *)
Theorem sort_packages_sorted (packages : list string) :
  EmptyString ∉ packages ->
  exists sorted,
    sort_packages packages = inr sorted
    /\ sorted ≡ₚ packages
    /\ StronglySorted package_le sorted
    /\ forall before x between y after,
         sorted = before ++ x :: between ++ y :: after ->
         exists cx cy, package_class x = inr cx /\ package_class y = inr cy
                       /\ cx <= cy.
Proof.
  intros Hne.
  destruct (sort_packages_returns packages Hne) as (sorted & Hs & Hperm & Hsorted).
  exists sorted. split; [done|]. split; [done|]. split; [done|].
  intros before x between y after Heq. rewrite Heq in Hsorted.
  apply StronglySorted_app_1_r in Hsorted.
  apply StronglySorted_cons in Hsorted as [Hx _].
  apply package_le_class. apply (proj1 (Forall_forall _ _) Hx).
  apply elem_of_app. right. apply elem_of_cons. by left.
Qed.

(** X2. [sort_packages] raises [IndexError] exactly when one of the names
    is the empty string, wherever it stands in the input; nothing else
    makes it raise. *)
Theorem sort_packages_raises (packages : list string) :
  (EmptyString ∈ packages <-> sort_packages packages = inl IndexError)
  /\ (EmptyString ∉ packages <-> exists sorted, sort_packages packages = inr sorted).
Proof.
  split; split.
  - apply sort_packages_empty_name.
  - intros Hraise. destruct (decide (EmptyString ∈ packages)) as [|Hne]; [done|].
    destruct (sort_packages_returns packages Hne) as (s & Hs & _). congruence.
  - intros Hne. destruct (sort_packages_returns packages Hne) as (s & Hs & _).
    by exists s.
  - intros [s Hs]. by eapply sort_packages_inr.
Qed.

(** X3. The result does not depend on the order of the input: two lists
    with the same names, each as often, are sorted to the same list; in
    particular sorting a sorted list changes nothing. *)
Theorem sort_packages_order_irrelevant (l1 l2 : list string) :
  l1 ≡ₚ l2 ->
  sort_packages l1 = sort_packages l2
  /\ forall sorted, sort_packages l1 = inr sorted -> sort_packages sorted = inr sorted.
Proof.
  intros Hperm.
  assert (Huniq : forall a b sa sb, a ≡ₚ b ->
            sort_packages a = inr sa -> sort_packages b = inr sb -> sa = sb).
  { intros a b sa sb Hab Ha Hb.
    pose proof (sort_packages_inr _ _ Ha) as Hea.
    pose proof (sort_packages_inr _ _ Hb) as Heb.
    destruct (sort_packages_returns a Hea) as (sa' & Ha' & Hpa & Hsa).
    destruct (sort_packages_returns b Heb) as (sb' & Hb' & Hpb & Hsb).
    rewrite Ha in Ha'. rewrite Hb in Hb'. injection Ha' as <-. injection Hb' as <-.
    apply (StronglySorted_unique package_le); [done|done|].
    by rewrite Hpa, Hpb. }
  split.
  - destruct (decide (EmptyString ∈ l1)) as [Hin1|Hin1].
    + assert (Hin2 : EmptyString ∈ l2) by (by rewrite <- Hperm).
      by rewrite (sort_packages_empty_name l1 Hin1), (sort_packages_empty_name l2 Hin2).
    + assert (Hin2 : EmptyString ∉ l2) by (by rewrite <- Hperm).
      destruct (sort_packages_returns l1 Hin1) as (s1 & Hs1 & _).
      destruct (sort_packages_returns l2 Hin2) as (s2 & Hs2 & _).
      rewrite Hs1, Hs2. f_equal. by eapply Huniq.
  - intros sorted Hs.
    pose proof (sort_packages_inr _ _ Hs) as He.
    destruct (sort_packages_returns l1 He) as (s1 & Hs1 & Hp1 & _).
    rewrite Hs in Hs1. injection Hs1 as <-.
    assert (He' : EmptyString ∉ sorted) by (by rewrite Hp1).
    destruct (sort_packages_returns sorted He') as (s2 & Hs2 & _).
    rewrite Hs2. f_equal. eapply Huniq; [|exact Hs2|exact Hs]. done.
Qed.

End SortPackages.

Section Flatten.

Context {T : Type}.

Lemma flatten_app (a b : list (list T)) : flatten (a ++ b) = flatten a ++ flatten b.
Proof.
  induction a as [|l a IH]; [done|]. cbn [flatten app]. by rewrite IH, app_assoc.
Qed.

(** X4. [flatten] keeps every item of every inner list and adds none, in
    the order of the lists and of the items in them: it distributes over
    concatenation of the outer list, an item is in the result exactly when
    it is in one of the lists, and the length of the result is the sum of
    the lengths.  The result of no list is empty, that of one list is the
    list itself, and a list put in front comes first, as it is. *)
Theorem flatten_keeps_all (a b : list (list T)) :
  flatten (a ++ b) = flatten a ++ flatten b
  /\ (forall x, x ∈ flatten a <-> exists l, l ∈ a /\ x ∈ l)
  /\ length (flatten a) = sum_list (length <$> a)
  /\ flatten ((fun x => [x]) <$> flatten a) = flatten a
  /\ flatten (@nil (list T)) = []
  /\ (forall l : list T, flatten [l] = l)
  /\ (forall l : list T, flatten (l :: a) = l ++ flatten a).
Proof.
  split; [apply flatten_app|]. split; [|split; [|split; [|split; [|split]]]];
    [| | |done|intros l; cbn [flatten]; apply app_nil_r|done].
  - intros x. induction a as [|l a' IH]; cbn [flatten].
    + split; [by intros ?%elem_of_nil|]. by intros (l & ?%elem_of_nil & _).
    + rewrite elem_of_app, IH. split.
      * intros [H|(l' & Hl' & Hx)].
        -- exists l. split; [apply elem_of_cons; by left|done].
        -- exists l'. split; [apply elem_of_cons; by right|done].
      * intros (l' & [->|Hl']%elem_of_cons & Hx); [by left|].
        right. by exists l'.
  - induction a as [|l a' IH]; [done|]. cbn [flatten].
    rewrite length_app, fmap_cons. cbn. by rewrite IH.
  - generalize (flatten a). intros l. induction l as [|x l IH]; [done|].
    rewrite fmap_cons. cbn [flatten app]. by rewrite IH.
Qed.

End Flatten.

(** ** Descriptors *)

Section Descriptors.

Lemma lowest_from_spec (t : gmap nat open_file) (fuel : nat) : forall n,
  n <= lowest_from fuel n t <= n + fuel
  /\ (forall i, n <= i < lowest_from fuel n t -> is_Some (t !! i))
  /\ (lowest_from fuel n t < n + fuel -> t !! lowest_from fuel n t = None).
Proof.
  induction fuel as [|fuel IH]; intros n; cbn [lowest_from].
  - split; [lia|]. split; intros; lia.
  - destruct (t !! n) as [f|] eqn:E.
    + destruct (IH (S n)) as (Hr & Hbelow & Hfree).
      split; [lia|]. split.
      * intros i Hi. destruct (decide (i = n)) as [->|Hne]; [by eexists|].
        apply Hbelow. lia.
      * intros Hlt. apply Hfree. lia.
    + split; [lia|]. split; [intros; lia|done].
Qed.

(** [os.open] hands out the lowest free descriptor: the number is not
    in the table before the call, and every smaller number is. *)
Lemma lowest_free_fresh (t : gmap nat open_file) :
  t !! lowest_free t = None
  /\ forall i, i < lowest_free t -> is_Some (t !! i).
Proof.
  unfold lowest_free.
  destruct (lowest_from_spec t (size t) 0) as (Hr & Hbelow & Hfree).
  split; [|intros i Hi; apply Hbelow; lia].
  destruct (decide (lowest_from (size t) 0 t < size t)) as [Hlt|Hge];
    [apply Hfree; lia|].
  assert (Heq : lowest_from (size t) 0 t = size t) by lia.
  rewrite Heq in *.
  assert (Hsub : set_seq 0 (size t) ⊆ dom t).
  { intros i Hi. apply elem_of_set_seq in Hi. apply elem_of_dom, Hbelow. lia. }
  assert (Hdom : set_seq 0 (size t) = dom t).
  { apply set_subseteq_size_eq; [done|]. by rewrite size_set_seq, size_dom. }
  apply not_elem_of_dom. rewrite <- Hdom. rewrite elem_of_set_seq. lia.
Qed.

End Descriptors.

(** ** More on [read_env_file] *)

Section EnvFileMore.

Variable literal_eval : string -> res pyobj.

Lemma set_logged_same (w : World) : set_logged (logged w ++ []) w = w.
Proof. destruct w. unfold set_logged. cbn. by rewrite app_nil_r. Qed.

(** [path.open()] either raises and changes nothing, or opens the lowest
    free descriptor on a file. *)
Lemma path_open_outcome (path : Path) (w : World) :
  (exists e, path_open path w = (Raise e, w))
  \/ (exists (r : Path * bool) (f : file),
        path_open path w =
          (Ret (lowest_free (fds w), f_text f),
           set_fds (<[lowest_free (fds w) := OpenFile r.1 true false]> (fds w)) w)).
Proof.
  unfold path_open.
  destruct (lookup w path) as [e|r]; [left; by eexists|].
  destruct (is_directory w r).
  { left. destruct (bool_decide (r.1 ∈ no_read w)); by eexists. }
  destruct (files w !! r.1) as [f|]; [|left; by eexists].
  destruct (f_readable f); [|left; by eexists].
  right. by exists r, f.
Qed.

(** Running the generator: when the file cannot be opened the exception
    leaves at once; otherwise the loop runs and the descriptor is closed. *)
Lemma read_env_file_gen_frame (path : Path) (w w' : World) (r : res (list (string * pyobj))) :
  read_env_file_gen literal_eval path w = (r, w') -> r <> Hang ->
  exists new,
    w' = set_logged (logged w ++ new) w
    /\ Forall (fun rec => lr_level rec = INFO) new.
Proof.
  unfold read_env_file_gen. intros Hrun Hr.
  destruct (path_open_outcome path w) as [[e Ho]|(n & f & Ho)].
  { rewrite (bind_Raise _ _ _ _ _ Ho) in Hrun. injection Hrun as <- <-.
    exists []. by rewrite set_logged_same. }
  rewrite (bind_Ret _ _ _ _ _ Ho) in Hrun. cbn [fst snd] in Hrun.
  set (fd := lowest_free (fds w)) in *.
  set (w1 := set_fds (<[fd := OpenFile n.1 true false]> (fds w)) w) in *.
  destruct (loop_run literal_eval path (readlines (f_text f)) 1 w1) as (new & Hw2 & Hinfo & _).
  exists new. split; [|done].
  unfold try_finally in Hrun.
  destruct (read_env_lines literal_eval path 1 (readlines (f_text f)) w1) as [rl w2].
  cbn [snd] in Hw2. subst w2.
  assert (Hclose : os_close fd (set_logged (logged w1 ++ new) w1)
                   = (Ret tt, set_logged (logged w ++ new) w)).
  { unfold os_close, w1. cbn. rewrite lookup_insert_eq. f_equal.
    destruct w. unfold set_logged, set_fds. cbn. f_equal.
    apply delete_insert_id. apply lowest_free_fresh. }
  rewrite Hclose in Hrun.
  destruct rl; injection Hrun as <- <-; done.
Qed.

(** X5. [read_env_file] leaves the world as it found it except for the
    log: whether it returns or raises, the descriptor it opened is closed
    again, so the descriptor table is the one from before the call, and
    the only change is the records it logged, all at level INFO. *)
Theorem read_env_file_frame (path : Path) (w w' : World) (r : res (list (string * pyobj))) :
  read_env_file literal_eval path w = (r, w') -> r <> Hang ->
  exists new,
    w' = set_logged (logged w ++ new) w
    /\ fds w' = fds w
    /\ Forall (fun rec => lr_level rec = INFO) new.
Proof.
  unfold read_env_file, dictify. intros Hrun Hr.
  destruct (read_env_file_gen literal_eval path w) as [rg wg] eqn:Hgen.
  assert (r <> Hang -> rg <> Hang /\ w' = wg) as Hsame.
  { intros _. destruct rg as [ps|e|].
    - rewrite (bind_Ret _ _ _ _ _ Hgen) in Hrun. by injection Hrun as <- <-.
    - rewrite (bind_Raise _ _ _ _ _ Hgen) in Hrun. by injection Hrun as <- <-.
    - rewrite (bind_Hang _ _ _ _ Hgen) in Hrun. by injection Hrun as <- <-. }
  destruct (Hsame Hr) as [Hrg ->].
  destruct (read_env_file_gen_frame _ _ _ _ Hgen Hrg) as (new & -> & Hinfo).
  exists new. split; [done|]. split; [by destruct w|done].
Qed.

Lemma read_env_file_not_opened (path : Path) (w : World) (e : exn) :
  path_open path w = (Raise e, w) ->
  read_env_file literal_eval path w = (Raise e, w).
Proof.
  intros Ho. unfold read_env_file, dictify, read_env_file_gen.
  apply bind_Raise. by apply bind_Raise.
Qed.

(** X6. When the file cannot be opened, [read_env_file] raises what
    [open] raises and changes nothing: the error of the lookup when the
    name cannot be followed to its end, [FileNotFoundError] when it leads
    to nothing, [IsADirectoryError] when it leads to a directory the
    process may read, and [PermissionError] when it leads to a directory
    or a file the process may not read. *)
Theorem read_env_file_open_errors (path : Path) (w : World) :
  (forall e, lookup w path = inl e ->
     read_env_file literal_eval path w = (Raise e, w))
  /\ (forall r, lookup w path = inr r -> is_directory w r = false ->
        files w !! r.1 = None ->
        read_env_file literal_eval path w = (Raise FileNotFoundError, w))
  /\ (forall r, lookup w path = inr r -> is_directory w r = true ->
        r.1 ∉ no_read w ->
        read_env_file literal_eval path w = (Raise IsADirectoryError, w))
  /\ (forall r, lookup w path = inr r -> is_directory w r = true ->
        r.1 ∈ no_read w ->
        read_env_file literal_eval path w = (Raise PermissionError, w))
  /\ (forall r f, lookup w path = inr r -> is_directory w r = false ->
        files w !! r.1 = Some f -> f_readable f = false ->
        read_env_file literal_eval path w = (Raise PermissionError, w)).
Proof.
  split; [|split; [|split; [|split]]].
  - intros e Hl. apply read_env_file_not_opened. unfold path_open. by rewrite Hl.
  - intros r Hl Hd Hf. apply read_env_file_not_opened.
    unfold path_open. by rewrite Hl, Hd, Hf.
  - intros r Hl Hd Hr. apply read_env_file_not_opened.
    unfold path_open. rewrite Hl, Hd. by rewrite bool_decide_eq_false_2.
  - intros r Hl Hd Hr. apply read_env_file_not_opened.
    unfold path_open. rewrite Hl, Hd. by rewrite bool_decide_eq_true_2.
  - intros r f Hl Hd Hf Hr. apply read_env_file_not_opened.
    unfold path_open. by rewrite Hl, Hd, Hf, Hr.
Qed.

Lemma dict_keys_subset {K V} `{EqDecision K} (l : list (K * V)) (k : K) :
  k ∈ (dict l).*1 -> k ∈ l.*1.
Proof.
  induction l as [|[k' v'] l IH] using rev_ind; [done|].
  rewrite dict_snoc, dict_setitem_keys, fmap_app, elem_of_app.
  destruct (decide (k' ∈ (dict l).*1)).
  - intros H. left. by apply IH.
  - intros [H|H]%elem_of_app; [left; by apply IH|by right].
Qed.

Lemma line_yield_key (line k : string) (v : pyobj) :
  line_yield literal_eval line = Some (k, v) -> key_ok k.
Proof.
  unfold line_yield.
  destruct (String.eqb (rstrip line) EmptyString || startswith_hash (rstrip line)); [done|].
  destruct (re_match_env (rstrip line)) as [[name val]|] eqn:Hm; [|done].
  destruct (re_match_env_sound _ _ _ Hm) as (v' & [_ Hk] & _).
  destruct (quote_led val); [destruct (literal_eval val)|];
    intros H; inversion H; by subst.
Qed.

(** X7. Every key of the mapping [read_env_file] returns has the shape of
    the pattern: an upper-case letter followed by at least one character
    of [A-Z_0-9]; so no key has fewer than two characters, and none
    holds a lower-case letter, a space or an equals sign. *)
Theorem read_env_file_keys (path : Path) (w w' : World) (d : list (string * pyobj)) :
  read_env_file literal_eval path w = (Ret d, w') ->
  forall k, k ∈ d.*1 ->
    key_ok k /\ 2 <= String.length k /\ has_char "="%char k = false.
Proof.
  intros Hrun k Hk.
  destruct (read_env_file_returns _ _ _ _ _ Hrun) as (f & _ & ->).
  apply dict_keys_subset in Hk.
  apply list_elem_of_fmap in Hk as ([k' v] & -> & Hin).
  apply list_elem_of_omap in Hin as (line & _ & Hy). cbn [fst].
  pose proof (line_yield_key _ _ _ Hy) as Hok. split; [done|].
  destruct Hok as (c & k'' & -> & Hc & Hne & Hall).
  split.
  - destruct k''; [done|]. cbn. lia.
  - cbn [has_char].
    assert (Hkc : forall x, is_key_char x = true -> Ascii.eqb "="%char x = false).
    { intros x Hx. destruct (Ascii.eqb_spec "="%char x) as [<-|]; [|done].
      by vm_compute in Hx. }
    rewrite Hkc by (unfold is_key_char; by rewrite Hc).
    clear Hne Hy. induction k'' as [|x k'' IH]; [done|].
    cbn [all_chars] in Hall. apply andb_true_iff in Hall as [Hx Hall].
    cbn [has_char]. rewrite (Hkc _ Hx). by apply IH.
Qed.

Lemma read_os_release_run (root : Path) (w : World) (there : bool) :
  Path_exists (Path_truediv root "etc/os-release") w = (Ret there, w) ->
  read_os_release literal_eval root w =
    read_env_file literal_eval
      (if there then Path_truediv root "etc/os-release"
       else Path_truediv root "usr/lib/os-release") w.
Proof.
  intros H. unfold read_os_release. erewrite bind_Ret; [|exact H]. reflexivity.
Qed.

(** X8. [read_os_release] reads [etc/os-release] under the root when
    [exists()] finds a directory or a file under that name, and
    [usr/lib/os-release] when the name leads to nothing, runs into
    something that is not a directory, or is one Python cannot hand to
    the kernel.  An [etc/os-release] that is a directory, or a file that
    may not be read, makes it raise without the fallback being tried, and
    so does any other error of the lookup (a directory on the way that
    may not be searched, a name that is too long), which [exists()]
    passes on. *)
Theorem read_os_release_fallback (root : Path) (w : World) :
  let etc := Path_truediv root "etc/os-release" in
  let usr := Path_truediv root "usr/lib/os-release" in
  (forall r, lookup w etc = inr r ->
     is_directory w r = true \/ is_Some (files w !! r.1) ->
     read_os_release literal_eval root w = read_env_file literal_eval etc w)
  /\ (forall r, lookup w etc = inr r ->
        is_directory w r = false -> files w !! r.1 = None ->
        read_os_release literal_eval root w = read_env_file literal_eval usr w)
  /\ (forall e, lookup w etc = inl e ->
        e = FileNotFoundError \/ e = NotADirectoryError \/ e = ValueError ->
        read_os_release literal_eval root w = read_env_file literal_eval usr w)
  /\ (forall r, lookup w etc = inr r -> is_directory w r = true ->
        read_os_release literal_eval root w
          = (Raise (if bool_decide (r.1 ∈ no_read w) then PermissionError
                    else IsADirectoryError), w))
  /\ (forall r f, lookup w etc = inr r -> is_directory w r = false ->
        files w !! r.1 = Some f -> f_readable f = false ->
        read_os_release literal_eval root w = (Raise PermissionError, w))
  /\ (forall e, lookup w etc = inl e ->
        e <> FileNotFoundError -> e <> NotADirectoryError -> e <> ValueError ->
        read_os_release literal_eval root w = (Raise e, w)).
Proof.
  intros etc usr.
  assert (Hthere : forall r, lookup w etc = inr r ->
            is_directory w r = true \/ is_Some (files w !! r.1) ->
            read_os_release literal_eval root w = read_env_file literal_eval etc w).
  { intros r Hl H. apply (read_os_release_run root w true).
    unfold Path_exists. fold etc. rewrite Hl. do 2 f_equal.
    destruct H as [->|H]; [done|].
    rewrite (bool_decide_eq_true_2 _ H). apply orb_true_r. }
  split; [exact Hthere|]. split; [|split; [|split; [|split]]].
  - intros r Hl Hd Hf. apply (read_os_release_run root w false).
    unfold Path_exists. fold etc. rewrite Hl, Hd. do 2 f_equal.
    apply bool_decide_eq_false_2. rewrite Hf. by intros [? ?].
  - intros e Hl He. apply (read_os_release_run root w false).
    unfold Path_exists. fold etc. rewrite Hl.
    by destruct He as [->|[->| ->]].
  - intros r Hl Hd. rewrite (Hthere r Hl) by (by left).
    apply read_env_file_not_opened. unfold path_open. rewrite Hl, Hd.
    by destruct (bool_decide (r.1 ∈ no_read w)).
  - intros r f Hl Hd Hf Hr. rewrite (Hthere r Hl) by (right; by eexists).
    apply read_env_file_not_opened. unfold path_open. by rewrite Hl, Hd, Hf, Hr.
  - intros e Hl H1 H2 H3. unfold read_os_release. apply bind_Raise.
    unfold Path_exists. fold etc. rewrite Hl. by destruct e.
Qed.

End EnvFileMore.

(** ** [str] and [int] on integers *)

Section Decimal.

Lemma digit_char_cases (d : N) :
  (d < 10)%N ->
  d = 0%N \/ d = 1%N \/ d = 2%N \/ d = 3%N \/ d = 4%N
  \/ d = 5%N \/ d = 6%N \/ d = 7%N \/ d = 8%N \/ d = 9%N.
Proof. lia. Qed.

Lemma digit_char_spec (d : N) :
  (d < 10)%N ->
  is_digit (digit_char d) = true
  /\ digit_value (digit_char d) = Z.of_N d
  /\ is_space (digit_char d) = false.
Proof.
  intros Hd.
  destruct (digit_char_cases d Hd) as [->|[->|[->|[->|[->|[->|[->|[->|[->| ->]]]]]]]]];
    by vm_compute.
Qed.

Lemma digits_of_all_digits (fuel : nat) : forall n acc,
  all_digits acc = true -> all_digits (digits_of fuel n acc) = true.
Proof.
  induction fuel as [|fuel IH]; intros n acc Hacc; cbn [digits_of]; [done|].
  assert (Hd : is_digit (digit_char (n mod 10)) = true).
  { apply digit_char_spec. apply N.mod_lt. lia. }
  assert (Hacc' : all_digits (String (digit_char (n mod 10)) acc) = true).
  { unfold all_digits in *. cbn [all_chars]. by rewrite Hd, Hacc. }
  destruct (n <? 10)%N; [done|]. by apply IH.
Qed.

Lemma digits_of_nonempty (fuel : nat) : forall n acc,
  exists c rest, digits_of (S fuel) n acc = String c rest.
Proof.
  induction fuel as [|fuel IH]; intros n acc.
  - cbn [digits_of]. destruct (n <? 10)%N; by eexists _, _.
  - change (digits_of (S (S fuel)) n acc)
      with (let acc' := String (digit_char (n mod 10)) acc in
            if (n <? 10)%N then acc' else digits_of (S fuel) (n / 10) acc').
    cbv zeta. destruct (n <? 10)%N; [by eexists _, _|]. apply IH.
Qed.

(** Reading back what [digits_of] wrote in front of [acc]. *)
Lemma digits_of_value (fuel : nat) : forall n acc a b,
  (n < 10 ^ N.of_nat (S fuel))%N ->
  exists k : Z,
    (0 <= k)%Z
    /\ digits_value a b (digits_of (S fuel) n acc)
       = digits_value (a * 10 ^ k + Z.of_N n)%Z true acc.
Proof.
  induction fuel as [|fuel IH]; intros n acc a b Hn.
  - cbn [digits_of]. change (10 ^ N.of_nat 1)%N with 10%N in Hn.
    rewrite (proj2 (N.ltb_lt n 10) Hn).
    exists 1%Z. split; [lia|]. cbn [digits_value].
    destruct (digit_char_spec (n mod 10)) as (-> & -> & _); [apply N.mod_lt; lia|].
    rewrite N.mod_small by done. f_equal. lia.
  - change (digits_of (S (S fuel)) n acc)
      with (let acc' := String (digit_char (n mod 10)) acc in
            if (n <? 10)%N then acc' else digits_of (S fuel) (n / 10) acc').
    cbv zeta. destruct (N.ltb_spec n 10) as [Hlt|Hge].
    + exists 1%Z. split; [lia|]. cbn [digits_value].
      destruct (digit_char_spec (n mod 10)) as (-> & -> & _); [apply N.mod_lt; lia|].
      rewrite N.mod_small by done. f_equal. lia.
    + destruct (IH (n / 10)%N (String (digit_char (n mod 10)) acc) a b) as (k & Hk & ->).
      { apply N.Div0.div_lt_upper_bound.
        replace (N.of_nat (S (S fuel))) with (N.succ (N.of_nat (S fuel))) in Hn by lia.
        by rewrite N.pow_succ_r' in Hn. }
      exists (k + 1)%Z. split; [lia|]. cbn [digits_value].
      destruct (digit_char_spec (n mod 10)) as (-> & -> & _); [apply N.mod_lt; lia|].
      f_equal. rewrite Z.pow_add_r by lia.
      pose proof (N.div_mod n 10 ltac:(lia)) as Hdm.
      assert (Z.of_N n = 10 * Z.of_N (n / 10) + Z.of_N (n mod 10))%Z as -> by lia.
      lia.
Qed.

Lemma str_of_N_fuel (n : N) : (n < 10 ^ N.of_nat (S (N.to_nat (N.log2 n))))%N.
Proof.
  destruct (N.eq_dec n 0%N) as [->|Hn]; [by vm_compute|].
  replace (N.of_nat (S (N.to_nat (N.log2 n)))) with (N.succ (N.log2 n)) by lia.
  destruct (N.log2_spec n) as [_ Hlt]; [lia|].
  eapply N.lt_le_trans; [exact Hlt|].
  apply N.pow_le_mono_l. lia.
Qed.

Lemma str_of_N_value (n : N) :
  digits_value 0 false (str_of_N n) = Some (Z.of_N n)
  /\ all_digits (str_of_N n) = true
  /\ exists c rest, str_of_N n = String c rest.
Proof.
  unfold str_of_N. split; [|split].
  - destruct (digits_of_value (N.to_nat (N.log2 n)) n EmptyString 0 false) as (k & _ & ->);
      [apply str_of_N_fuel|].
    cbn [digits_value]. f_equal; lia.
  - by apply digits_of_all_digits.
  - apply digits_of_nonempty.
Qed.

Lemma is_digit_cases (c : ascii) :
  is_digit c = true ->
  is_space c = false /\ Ascii.eqb c "-"%char = false /\ Ascii.eqb c "+"%char = false
  /\ Ascii.eqb c ":"%char = false /\ Ascii.eqb c "i"%char = false
  /\ is_int_space c = false.
Proof.
  intros H. destruct c as [[] [] [] [] [] [] [] []]; by vm_compute in H |- *.
Qed.

Lemma int_rstrip_digits (s : string) : all_digits s = true -> int_rstrip s = s.
Proof.
  unfold all_digits. induction s as [|c s IH]; [done|]. cbn [all_chars int_rstrip].
  intros [Hc Hs]%andb_true_iff. rewrite (IH Hs).
  destruct s; [|done].
  destruct (is_digit_cases c Hc) as (_ & _ & _ & _ & _ & ->). done.
Qed.

Lemma digit_count_all_digits (s : string) :
  all_digits s = true -> digit_count s = String.length s.
Proof.
  unfold all_digits. induction s as [|c s IH]; [done|]. cbn [all_chars digit_count].
  intros [Hc Hs]%andb_true_iff. rewrite Hc, (IH Hs). done.
Qed.

(** A number below [10 ^ k] is written with at most [k] digits. *)
Lemma digits_of_length (fuel : nat) : forall n acc k,
  (n < 10 ^ N.of_nat k)%N -> 1 <= k ->
  String.length (digits_of fuel n acc) <= k + String.length acc.
Proof.
  induction fuel as [|fuel IH]; intros n acc k Hn Hk; cbn [digits_of]; [lia|].
  destruct (N.ltb_spec n 10) as [Hlt|Hge]; [cbn [String.length]; lia|].
  destruct k as [|[|k]]; [lia| |].
  - change (10 ^ N.of_nat 1)%N with 10%N in Hn. lia.
  - specialize (IH (n / 10)%N (String (digit_char (n mod 10)) acc) (S k)).
    cbn [String.length] in IH.
    assert (Hdiv : (n / 10 < 10 ^ N.of_nat (S k))%N).
    { apply N.Div0.div_lt_upper_bound.
      replace (N.of_nat (S (S k))) with (N.succ (N.of_nat (S k))) in Hn by lia.
      by rewrite N.pow_succ_r' in Hn. }
    specialize (IH Hdiv ltac:(lia)). lia.
Qed.

Lemma str_of_N_digit_count (n : N) :
  (n < 10 ^ N.of_nat int_max_str_digits)%N ->
  digit_count (str_of_N n) <= int_max_str_digits.
Proof.
  intros Hn. rewrite digit_count_all_digits by apply str_of_N_value.
  unfold str_of_N.
  pose proof (digits_of_length (S (N.to_nat (N.log2 n))) n EmptyString
                int_max_str_digits Hn) as H.
  cbn [String.length] in H. rewrite Nat.add_0_r in H. apply H.
  unfold int_max_str_digits. lia.
Qed.

Lemma int_of_str_digits (s : string) (c : ascii) :
  all_digits (String c s) = true ->
  int_of_str (String c s) = digits_of_literal (String c s).
Proof.
  intros Hall. unfold int_of_str. rewrite (int_rstrip_digits _ Hall).
  unfold all_digits in Hall. cbn [all_chars] in Hall.
  apply andb_true_iff in Hall as [Hc _].
  destruct (is_digit_cases c Hc) as (_ & Hm & Hp & _ & _ & Hsp).
  cbn [int_lstrip]. rewrite Hsp.
  destruct c as [[] [] [] [] [] [] [] []]; done.
Qed.

Lemma int_rstrip_minus_digits (s : string) :
  all_digits s = true -> s <> EmptyString ->
  int_rstrip (String "-"%char s) = String "-"%char s.
Proof.
  intros Hall Hne. cbn [int_rstrip]. rewrite (int_rstrip_digits _ Hall). by destruct s.
Qed.

Lemma pos_below_limit (p : positive) :
  (Z.pos p < 10 ^ Z.of_nat int_max_str_digits)%Z ->
  (N.pos p < 10 ^ N.of_nat int_max_str_digits)%N.
Proof.
  intros H. apply N2Z.inj_lt. rewrite N2Z.inj_pow, nat_N_Z. exact H.
Qed.

(** [int] reads back what [str] writes when that has no more digits than
    the interpreter's limit allows, and refuses it otherwise. *)
Lemma int_of_str_of_int_limit (z : Z) :
  int_of_str (str_of_int z) =
    if Nat.leb (digit_count (str_of_int z)) int_max_str_digits then Some z else None.
Proof.
  destruct z as [|p|p]; [by vm_compute| |].
  - cbn [str_of_int].
    destruct (str_of_N_value (N.pos p)) as (Hval & Hall & c & rest & Heq).
    rewrite Heq in *. rewrite int_of_str_digits by done.
    unfold digits_of_literal. rewrite Hval. done.
  - cbn [str_of_int].
    destruct (str_of_N_value (N.pos p)) as (Hval & Hall & c & rest & Heq).
    unfold int_of_str.
    rewrite int_rstrip_minus_digits by (done || by rewrite Heq).
    remember (str_of_N (N.pos p)) as s eqn:Hs. clear Hs Heq.
    cbn [int_lstrip]. change (is_int_space "-"%char) with false. cbv beta iota.
    cbn [digit_count]. change (is_digit "-"%char) with false. cbv beta iota.
    rewrite Nat.add_0_l. unfold digits_of_literal. rewrite Hval.
    by destruct (Nat.leb (digit_count s) int_max_str_digits).
Qed.

Lemma str_of_int_digit_count (z : Z) :
  (Z.abs z < 10 ^ Z.of_nat int_max_str_digits)%Z ->
  digit_count (str_of_int z) <= int_max_str_digits.
Proof.
  destruct z as [|p|p]; intros Hz.
  - change (digit_count (str_of_int 0)) with 1. unfold int_max_str_digits. lia.
  - apply str_of_N_digit_count, pos_below_limit, Hz.
  - cbn [str_of_int digit_count]. change (is_digit "-"%char) with false.
    cbv beta iota. rewrite Nat.add_0_l.
    apply str_of_N_digit_count, pos_below_limit, Hz.
Qed.

Lemma int_of_str_of_int (z : Z) :
  (Z.abs z < 10 ^ Z.of_nat int_max_str_digits)%Z ->
  int_of_str (str_of_int z) = Some z.
Proof.
  intros Hz. rewrite int_of_str_of_int_limit.
  by rewrite (proj2 (Nat.leb_le _ _) (str_of_int_digit_count z Hz)).
Qed.

Lemma decimal_value_str_of_int (z : Z) : decimal_value (str_of_int z) = Some z.
Proof.
  destruct z as [|p|p]; [by vm_compute| |].
  - cbn [str_of_int].
    destruct (str_of_N_value (N.pos p)) as (Hval & Hall & c & rest & Heq).
    rewrite Heq in *. unfold all_digits in Hall. cbn [all_chars] in Hall.
    apply andb_true_iff in Hall as [Hc _].
    destruct (is_digit_cases c Hc) as (_ & Hm & _).
    change (Z.of_N (N.pos p)) with (Z.pos p) in Hval.
    unfold decimal_value.
    destruct c as [[] [] [] [] [] [] [] []]; first [exact Hval | done].
  - cbn [str_of_int decimal_value].
    destruct (str_of_N_value (N.pos p)) as (-> & _). done.
Qed.

Lemma str_of_int_shape (z : Z) :
  exists c rest,
    str_of_int z = String c rest
    /\ (is_digit c = true \/ c = "-"%char)
    /\ all_digits rest = true.
Proof.
  destruct z as [|p|p].
  - exists "0"%char, EmptyString. by vm_compute; auto.
  - destruct (str_of_N_value (N.pos p)) as (_ & Hall & c & rest & Heq).
    exists c, rest. cbn [str_of_int]. rewrite Heq in *.
    unfold all_digits in *. cbn [all_chars] in Hall.
    apply andb_true_iff in Hall as [Hc Hr]. auto.
  - destruct (str_of_N_value (N.pos p)) as (_ & Hall & _).
    exists "-"%char, (str_of_N (N.pos p)). cbn [str_of_int]. auto.
Qed.

End Decimal.

(** ** More on [INVOKING_USER] *)

Section IdentityMore.
Import INVOKING_USER.
Local Open Scope Z_scope.

Lemma str_of_int_nonempty (z : Z) : str_of_int z <> EmptyString.
Proof. destruct (str_of_int_shape z) as (c & rest & -> & _). done. Qed.

Lemma uid_expr_sudo (w : World) (s : string) :
  os_environ w !! "SUDO_UID" = Some s -> s <> EmptyString ->
  uid_expr w = py_int (IsStr s) w.
Proof.
  intros Hs Hne. unfold uid_expr.
  apply bind_Ret, py_or_taken; [|done]. by rewrite os_getenv_run, Hs.
Qed.

Lemma uid_expr_pkexec (w : World) (s : string) :
  passed_over (os_environ w !! "SUDO_UID") ->
  os_environ w !! "PKEXEC_UID" = Some s -> s <> EmptyString ->
  uid_expr w = py_int (IsStr s) w.
Proof.
  intros Hs Hp Hne. unfold uid_expr. apply bind_Ret.
  erewrite py_or_passed; [|apply os_getenv_run|exact Hs].
  apply py_or_taken; [|done]. by rewrite os_getenv_run, Hp.
Qed.

Lemma gid_expr_sudo (w : World) (s : string) :
  os_environ w !! "SUDO_GID" = Some s -> s <> EmptyString ->
  gid_expr w = py_int (IsStr s) w.
Proof.
  intros Hs Hne. unfold gid_expr.
  apply bind_Ret, py_or_taken; [|done]. by rewrite os_getenv_run, Hs.
Qed.

Lemma py_int_str_of_int (z : Z) (w : World) :
  Z.abs z < 10 ^ Z.of_nat int_max_str_digits ->
  py_int (IsStr (str_of_int z)) w = (Ret z, w).
Proof. intros Hz. cbn [py_int]. by rewrite int_of_str_of_int. Qed.

(** Whatever [int] makes of the decimal text of a number, it is not
    another number. *)
Lemma py_int_str_of_int_Ret (z z' : Z) (w w' : World) :
  py_int (IsStr (str_of_int z)) w = (Ret z', w') -> z' = z.
Proof.
  cbn [py_int]. rewrite int_of_str_of_int_limit.
  destruct (Nat.leb _ _); [|done]. intros H. by injection H as ->.
Qed.

(** X9. The ids are read back as they are written: with [SUDO_UID] and
    [SUDO_GID] set to the decimal text of two numbers, as [str] gives it,
    neither with more digits than [int] takes (4300, unless the
    interpreter is told otherwise), the class gets exactly these numbers as
    [uid] and [gid], whatever [PKEXEC_UID] and the ids of the process are;
    and with [SUDO_UID] not set, the same holds for [PKEXEC_UID]. *)
Theorem identity_reads_decimal (w : World) (u g : Z) :
  Z.abs u < 10 ^ Z.of_nat int_max_str_digits ->
  Z.abs g < 10 ^ Z.of_nat int_max_str_digits ->
  os_environ w !! "SUDO_GID" = Some (str_of_int g) ->
  (os_environ w !! "SUDO_UID" = Some (str_of_int u)
   \/ (passed_over (os_environ w !! "SUDO_UID")
       /\ os_environ w !! "PKEXEC_UID" = Some (str_of_int u))) ->
  class_statement w = (Ret tt, set_class_attrs (Some (Identity u g (u =? 0))) w).
Proof.
  intros Hub Hgb Hg Hu.
  assert (Hue : uid_expr w = (Ret u, w)).
  { destruct Hu as [Hu|[Hs Hu]].
    - rewrite (uid_expr_sudo _ _ Hu (str_of_int_nonempty u)).
      by apply py_int_str_of_int.
    - rewrite (uid_expr_pkexec _ _ Hs Hu (str_of_int_nonempty u)).
      by apply py_int_str_of_int. }
  assert (Hge : gid_expr w = (Ret g, w)).
  { rewrite (gid_expr_sudo _ _ Hg (str_of_int_nonempty g)).
    by apply py_int_str_of_int. }
  unfold class_statement.
  erewrite bind_Ret; [|exact Hue]. erewrite bind_Ret; [|exact Hge]. reflexivity.
Qed.

(** X10. A variable that is set to something [int] does not take is not
    passed over: with such a text in [SUDO_UID] (or in [SUDO_GID], or in
    [PKEXEC_UID] when [SUDO_UID] is not set) the class statement raises
    [ValueError] and binds no class, although the process has a real uid
    and gid to fall back on. *)
Theorem identity_rejects_text (w : World) (s : string) :
  s <> EmptyString -> int_of_str s = None ->
  (os_environ w !! "SUDO_UID" = Some s
   \/ (passed_over (os_environ w !! "SUDO_UID") /\ os_environ w !! "PKEXEC_UID" = Some s)
   \/ os_environ w !! "SUDO_GID" = Some s) ->
  class_statement w = (Raise ValueError, w)
  /\ class_attrs (class_statement w).2 = class_attrs w.
Proof.
  intros Hne Hint Hwhere.
  assert (Hraise : py_int (IsStr s) w = (Raise ValueError, w)).
  { cbn [py_int]. by rewrite Hint. }
  assert (Hrun : class_statement w = (Raise ValueError, w)).
  { unfold class_statement. destruct Hwhere as [Hu|[[Hs Hp]|Hg]].
    - apply bind_Raise. by rewrite (uid_expr_sudo _ _ Hu Hne).
    - apply bind_Raise. by rewrite (uid_expr_pkexec _ _ Hs Hp Hne).
    - destruct (uid_expr_pure w) as [[u Hu]|Hu]; [|by apply bind_Raise].
      erewrite bind_Ret; [|exact Hu].
      apply bind_Raise. by rewrite (gid_expr_sudo _ _ Hg Hne). }
  by rewrite Hrun.
Qed.

Lemma bind_Ret_inv {A B} (m : M A) (k : A -> M B) (w w' : World) (b : B) :
  (m ≫= k) w = (Ret b, w') ->
  exists a w1, m w = (Ret a, w1) /\ k a w1 = (Ret b, w').
Proof.
  unfold mbind, M_bind, bind. destruct (m w) as [[a|e|] w1]; [|done|done].
  intros H. by exists a, w1.
Qed.

Lemma attr_run {A} (field : identity -> A) (w : World) (c : identity) :
  class_attrs w = Some c -> attr field w = (Ret (field c), w).
Proof. intros H. unfold attr. by rewrite H. Qed.

Lemma attr_Ret_inv {A} (field : identity -> A) (w w' : World) (a : A) :
  attr field w = (Ret a, w') ->
  w' = w /\ exists c, class_attrs w = Some c /\ a = field c.
Proof.
  unfold attr. destruct (class_attrs w) as [c|]; [|done].
  intros H. injection H as <- <-. split; [done|]. by exists c.
Qed.

Lemma name_cached db (w : World) (n : string) :
  name_cache w = Some n -> name db w = (Ret n, w).
Proof.
  intros H. unfold name. erewrite bind_Ret; [|reflexivity]. cbn. by rewrite H.
Qed.

Lemma home_cached db ex (w : World) (h : Path) :
  home_cache w = Some h -> home db ex w = (Ret h, w).
Proof.
  intros H. unfold home. erewrite bind_Ret; [|reflexivity]. cbn. by rewrite H.
Qed.

(** What a call of [name] does, by the state of the cache and the answer
    of the user database. *)
Lemma name_run db (w : World) :
  match name_cache w with
  | Some n => name db w = (Ret n, w)
  | None =>
      match class_attrs w with
      | None => name db w = (Raise NameError, w)
      | Some c =>
          match db w (uid c) with
          | Ret n => name db w = (Ret n, set_name_cache (Some n) w)
          | Raise e => name db w = (Raise e, w)
          | Hang => name db w = (Hang, w)
          end
      end
  end.
Proof.
  destruct (name_cache w) as [n|] eqn:Hc; [by apply name_cached|].
  unfold name. erewrite bind_Ret; [|reflexivity]. cbn [reads]. rewrite Hc.
  destruct (class_attrs w) as [c|] eqn:Ha.
  - erewrite bind_Ret; [|by apply attr_run].
    destruct (db w (uid c)) as [n|e|] eqn:Hg.
    + erewrite bind_Ret; [|unfold asks; by rewrite Hg]. reflexivity.
    + apply bind_Raise. unfold asks. by rewrite Hg.
    + apply bind_Hang. unfold asks. by rewrite Hg.
  - apply bind_Raise. unfold attr. by rewrite Ha.
Qed.

(** A call of [name] that returns leaves the name in the cache and changes
    nothing else; any other outcome changes nothing at all. *)
Lemma name_outcome db (w w1 : World) (r : res string) :
  name db w = (r, w1) ->
  match r with
  | Ret n => name_cache w1 = Some n
             /\ (w1 = w \/ (name_cache w = None /\ w1 = set_name_cache (Some n) w))
  | _ => w1 = w
  end.
Proof.
  pose proof (name_run db w) as H.
  destruct (name_cache w) as [n|] eqn:Hc.
  { rewrite H. intros Heq. injection Heq as <- <-. split; [done|by left]. }
  destruct (class_attrs w) as [c|].
  - destruct (db w (uid c)) as [n|e|]; rewrite H; intros Heq; injection Heq as <- <-;
      [|done|done].
    split; [done|]. by right.
  - rewrite H. intros Heq. by injection Heq as <- <-.
Qed.

(** X11. [name] asks the user database at most once: after a call that
    returned a name, every later call returns that name from the cache
    without looking anything up, whatever the database would answer then.
    A lookup that raised is not remembered: it leaves the world, cache
    included, as it was, so the next call asks again. *)
Theorem name_memoized db (w w1 : World) (r : res string) :
  name db w = (r, w1) ->
  match r with
  | Ret n =>
      name_cache w1 = Some n
      /\ forall db' w2, name_cache w2 = name_cache w1 -> name db' w2 = (Ret n, w2)
  | _ => w1 = w
  end.
Proof.
  intros Hrun. pose proof (name_outcome _ _ _ _ Hrun) as H.
  destruct r as [n|e|]; [|done|done].
  destruct H as [Hc _]. split; [done|].
  intros db' w2 Hsame. apply name_cached. by rewrite Hsame.
Qed.

Lemma home_Ret_inv db ex (w w1 : World) (h : Path) :
  home db ex w = (Ret h, w1) ->
  home_cache w1 = Some h /\ logged w1 = logged w /\ class_attrs w1 = class_attrs w
  /\ (home_cache w = None -> exists n, name_cache w1 = Some n).
Proof.
  destruct (home_cache w) as [h'|] eqn:Hc.
  { rewrite (home_cached db ex _ _ Hc). intros H. injection H as <- <-. done. }
  unfold home. intros H.
  apply bind_Ret_inv in H as (o & w0 & Hread & H).
  injection Hread as <- <-. rewrite Hc in H.
  apply bind_Ret_inv in H as (n & wn & Hname & H).
  apply bind_Ret_inv in H as (h' & wh & Hask & H).
  apply bind_Ret_inv in H as ([] & wm & Hmod & H).
  injection H as <- <-. injection Hmod as <-.
  unfold asks in Hask. injection Hask as Hex <-.
  pose proof (name_outcome _ _ _ _ Hname) as [Hn Hw].
  assert (logged wn = logged w /\ class_attrs wn = class_attrs w) as [Hl Ha].
  { destruct Hw as [->|[_ ->]]; [done|]. by destruct w. }
  split; [by destruct wn|]. split; [by destruct wn|]. split; [by destruct wn|].
  intros _. exists n. by destruct wn.
Qed.

(** X12. A call of [init] that returns has logged exactly one record, at
    level DEBUG, with the name and the home it resolved and the uid and
    gid of the class, and has filled both caches; so a second call logs
    the same record again without asking the user database or expanding
    anything. *)
Theorem init_logs_once db ex (w w1 : World) :
  init db ex w = (Ret tt, w1) ->
  exists c n h,
    class_attrs w = Some c
    /\ logged w1 = logged w ++ [LogRecord DEBUG (MsgRunningAs n (uid c) (gid c) h)]
    /\ name_cache w1 = Some n /\ home_cache w1 = Some h
    /\ forall db' ex',
         init db' ex' w1 =
           (Ret tt,
            set_logged (logged w1 ++ [LogRecord DEBUG (MsgRunningAs n (uid c) (gid c) h)])
                       w1).
Proof.
  unfold init. intros H.
  apply bind_Ret_inv in H as (n & wn & Hname & H).
  apply bind_Ret_inv in H as (h & wh & Hhome & H).
  apply bind_Ret_inv in H as (u & wu & Hu & H).
  apply bind_Ret_inv in H as (g & wg & Hg & H).
  apply attr_Ret_inv in Hu as (-> & c & Hc & ->).
  apply attr_Ret_inv in Hg as (-> & c' & Hc' & ->).
  rewrite Hc in Hc'. injection Hc' as <-.
  unfold logging_debug in H. injection H as <-.
  pose proof (name_outcome _ _ _ _ Hname) as [Hn Hw].
  destruct (home_Ret_inv _ _ _ _ _ Hhome) as (Hh & Hlog & Hattr & Hnc).
  assert (logged wn = logged w /\ class_attrs wn = class_attrs w) as [Hl Ha].
  { destruct Hw as [->|[_ ->]]; [done|]. by destruct w. }
  assert (Hn' : name_cache wh = Some n).
  { pose proof (name_outcome db wn) as Hno.
    destruct (home_cache wn) as [h'|] eqn:Hhc.
    - rewrite (home_cached db ex _ _ Hhc) in Hhome. by injection Hhome as <- <-.
    - revert Hhome. unfold home. intros H.
      apply bind_Ret_inv in H as (o & w0 & Hread & H).
      injection Hread as <- <-. rewrite Hhc in H.
      apply bind_Ret_inv in H as (n2 & wn2 & Hname2 & H).
      rewrite (name_cached db _ _ Hn) in Hname2. injection Hname2 as <- <-.
      apply bind_Ret_inv in H as (h' & wh' & Hask & H).
      apply bind_Ret_inv in H as ([] & wm & Hmod & H).
      injection H as <- <-. injection Hmod as <-.
      unfold asks in Hask. injection Hask as _ <-. by destruct wn. }
  exists c, n, h. split; [by rewrite <- Ha, <- Hattr|].
  split; [cbn; by rewrite Hlog, Hl|].
  split; [by destruct wh|]. split; [by destruct wh|].
  intros db' ex'.
  set (w1 := set_logged _ wh).
  assert (Hn1 : name_cache w1 = Some n) by (by destruct wh).
  assert (Hh1 : home_cache w1 = Some h) by (by destruct wh).
  assert (Hc1 : class_attrs w1 = Some c) by (by destruct wh).
  erewrite bind_Ret; [|by apply name_cached].
  erewrite bind_Ret; [|by apply home_cached].
  erewrite bind_Ret; [|by apply attr_run].
  erewrite bind_Ret; [|by apply attr_run].
  reflexivity.
Qed.

(** X13. Right after the class statement, [is_running_user] tells whether
    the uid it resolved is the uid of the process: it returns true when
    neither [SUDO_UID] nor [PKEXEC_UID] was set, and false when [SUDO_UID]
    named, in decimal, another uid than the process has. *)
Theorem is_running_user_after_import (w w1 : World) :
  class_statement w = (Ret tt, w1) ->
  (passed_over (os_environ w !! "SUDO_UID") ->
   passed_over (os_environ w !! "PKEXEC_UID") ->
   is_running_user w1 = (Ret true, w1))
  /\ (forall u, os_environ w !! "SUDO_UID" = Some (str_of_int u) -> u <> real_uid w ->
        is_running_user w1 = (Ret false, w1)).
Proof.
  intros Hrun.
  destruct (class_statement_run w) as [(u & g & Hu & Hg & H)|H];
    rewrite Hrun in H; [|discriminate].
  injection H as ->.
  assert (Hcall : is_running_user (set_class_attrs (Some (Identity u g (u =? 0))) w)
                  = (Ret (u =? real_uid w), set_class_attrs (Some (Identity u g (u =? 0))) w)).
  { unfold is_running_user. erewrite bind_Ret; [|by apply attr_run].
    erewrite bind_Ret; [|reflexivity]. reflexivity. }
  split.
  - intros Hs Hp. rewrite Hcall.
    assert (Hreal : uid_expr w = (Ret (real_uid w), w)).
    { unfold uid_expr.
      rewrite (bind_Ret _ _ w w (IsInt (real_uid w))); [reflexivity|].
      erewrite py_or_passed; [|apply os_getenv_run|exact Hs].
      erewrite py_or_passed; [|apply os_getenv_run|exact Hp].
      reflexivity. }
    rewrite Hu in Hreal. injection Hreal as ->. by rewrite Z.eqb_refl.
  - intros u' Hs Hne. rewrite Hcall.
    rewrite (uid_expr_sudo _ _ Hs (str_of_int_nonempty u')) in Hu.
    apply py_int_str_of_int_Ret in Hu as ->.
    by rewrite (proj2 (Z.eqb_neq _ _) Hne).
Qed.

End IdentityMore.

(** ** [format_rlimit] *)

Section RlimitProperties.

Variable RLIM_INFINITY : Z.
Variable getrlimit : Z -> res (Z * Z).

Lemma all_digits_no_colon (s : string) :
  all_digits s = true -> has_char ":"%char s = false.
Proof.
  unfold all_digits. induction s as [|c s IH]; [done|]. cbn [all_chars has_char].
  intros [Hc Hs]%andb_true_iff.
  destruct (is_digit_cases c Hc) as (_ & _ & _ & Hcolon & _).
  rewrite Ascii.eqb_sym, Hcolon. by apply IH.
Qed.

Lemma str_of_int_no_colon (z : Z) : has_char ":"%char (str_of_int z) = false.
Proof.
  destruct (str_of_int_shape z) as (c & rest & -> & Hc & Hrest).
  cbn [has_char]. rewrite (all_digits_no_colon _ Hrest).
  destruct Hc as [Hc| ->]; [|done].
  destruct (is_digit_cases c Hc) as (_ & _ & _ & Hcolon & _).
  by rewrite Ascii.eqb_sym, Hcolon.
Qed.

Lemma str_of_int_not_infinity (z : Z) : str_of_int z <> "infinity".
Proof.
  destruct (str_of_int_shape z) as (c & rest & -> & Hc & _).
  intros H. injection H as -> _. destruct Hc as [Hc|Hc]; [by vm_compute in Hc|done].
Qed.

Lemma str_of_int_inj (a b : Z) : str_of_int a = str_of_int b -> a = b.
Proof.
  intros H. pose proof (decimal_value_str_of_int a) as Ha.
  rewrite H, decimal_value_str_of_int in Ha. by injection Ha.
Qed.

Lemma format_limit_no_colon (z : Z) : has_char ":"%char (format_limit RLIM_INFINITY z) = false.
Proof.
  unfold format_limit. destruct (z =? RLIM_INFINITY)%Z; [done|]. apply str_of_int_no_colon.
Qed.

Lemma format_limit_inj (a b : Z) :
  format_limit RLIM_INFINITY a = format_limit RLIM_INFINITY b -> a = b.
Proof.
  unfold format_limit.
  destruct (Z.eqb_spec a RLIM_INFINITY) as [->|Ha], (Z.eqb_spec b RLIM_INFINITY) as [->|Hb];
    [done| | |apply str_of_int_inj].
  - intros H. symmetry in H. by apply str_of_int_not_infinity in H.
  - intros H. by apply str_of_int_not_infinity in H.
Qed.

Lemma split_at_colon (a b c d : string) :
  has_char ":"%char a = false -> has_char ":"%char c = false ->
  a +:+ String ":"%char b = c +:+ String ":"%char d -> a = c /\ b = d.
Proof.
  revert c. induction a as [|x a IH]; intros [|y c]; cbn [has_char String.append].
  - intros _ _ H. by injection H as ->.
  - intros _ Hc H. injection H as <- _. by rewrite Ascii.eqb_refl in Hc.
  - intros Ha _ H. injection H as -> _. by rewrite Ascii.eqb_refl in Ha.
  - intros Ha Hc H. injection H as -> H.
    destruct (Ascii.eqb ":"%char y); [done|].
    destruct (IH c Ha Hc H) as [-> ->]. done.
Qed.

(** X14. The text [format_rlimit] returns tells the two limits apart and
    gives them back: a side reads "infinity" exactly when that limit is
    [RLIM_INFINITY], a side never holds a colon, and two pairs of limits
    with the same text are the same pair.  An exception of [getrlimit]
    leaves [format_rlimit] as it is.  The text is the soft limit, a
    colon, the hard limit, in this order, and a limit that is not
    [RLIM_INFINITY] is written as [str] writes the number. *)
Theorem format_rlimit_unambiguous :
  (forall z, format_limit RLIM_INFINITY z = "infinity" <-> z = RLIM_INFINITY)
  /\ (forall r1 r2 a b c d,
        getrlimit r1 = Ret (a, b) -> getrlimit r2 = Ret (c, d) ->
        format_rlimit RLIM_INFINITY getrlimit r1 = format_rlimit RLIM_INFINITY getrlimit r2 ->
        a = c /\ b = d)
  /\ (forall r a b, getrlimit r = Ret (a, b) ->
        exists soft hard,
          format_rlimit RLIM_INFINITY getrlimit r = Ret (soft +:+ ":" +:+ hard)
          /\ has_char ":"%char soft = false /\ has_char ":"%char hard = false)
  /\ (forall r e, getrlimit r = Raise e ->
        format_rlimit RLIM_INFINITY getrlimit r = Raise e)
  /\ (forall r soft hard, getrlimit r = Ret (soft, hard) ->
        format_rlimit RLIM_INFINITY getrlimit r
        = Ret (format_limit RLIM_INFINITY soft +:+ ":"
               +:+ format_limit RLIM_INFINITY hard))
  /\ (forall z, z <> RLIM_INFINITY -> format_limit RLIM_INFINITY z = str_of_int z).
Proof.
  split; [|split; [|split; [|split; [|split]]]].
  - intros z. unfold format_limit. destruct (Z.eqb_spec z RLIM_INFINITY) as [->|Hne].
    + done.
    + split; [|done]. intros H. by apply str_of_int_not_infinity in H.
  - intros r1 r2 a b c d H1 H2. unfold format_rlimit. rewrite H1, H2. cbn [fst snd].
    intros H. injection H as H.
    apply split_at_colon in H as [Ha Hb]; try apply format_limit_no_colon.
    split; by apply format_limit_inj.
  - intros r a b H. unfold format_rlimit. rewrite H. cbn [fst snd].
    eexists _, _. split; [done|]. split; apply format_limit_no_colon.
  - intros r e H. unfold format_rlimit. by rewrite H.
  - intros r soft hard H. unfold format_rlimit. by rewrite H.
  - intros z Hz. unfold format_limit. by destruct (Z.eqb_spec z RLIM_INFINITY).
Qed.

End RlimitProperties.

(** ** [StrEnum] *)

Section StrEnumProperties.
Import StrEnum.

Lemma replace_underscores_none (name : string) :
  has_char "_"%char (replace_underscores name) = false.
Proof.
  induction name as [|c name IH]; [done|]. cbn [replace_underscores has_char].
  rewrite IH. destruct (Ascii.eqb_spec c "_"%char) as [->|Hne]; [done|].
  by destruct (Ascii.eqb_spec "_"%char c) as [<-|].
Qed.

Lemma replace_underscores_length (name : string) :
  String.length (replace_underscores name) = String.length name.
Proof. induction name as [|c name IH]; [done|]. cbn. by rewrite IH. Qed.

Lemma replace_underscores_id (name : string) :
  has_char "_"%char name = false -> replace_underscores name = name.
Proof.
  induction name as [|c name IH]; [done|]. cbn [replace_underscores has_char].
  rewrite (Ascii.eqb_sym "_"%char c).
  destruct (Ascii.eqb c "_"%char); [done|]. intros H. by rewrite IH.
Qed.

Lemma replace_underscores_inj (a b : string) :
  has_char "-"%char a = false -> has_char "-"%char b = false ->
  replace_underscores a = replace_underscores b -> a = b.
Proof.
  revert b. induction a as [|x a IH]; intros [|y b]; cbn [replace_underscores has_char];
    try done.
  destruct (Ascii.eqb_spec "-"%char x) as [<-|Hx]; [done|].
  destruct (Ascii.eqb_spec "-"%char y) as [<-|Hy]; [done|].
  intros Ha Hb H. injection H as Hc H. rewrite (IH b Ha Hb H). f_equal.
  destruct (Ascii.eqb_spec x "_"%char) as [->|Hx'], (Ascii.eqb_spec y "_"%char) as [->|Hy'];
    congruence.
Qed.

Lemma replace_underscores_get (name : string) (n : nat) :
  String.get n (replace_underscores name)
  = (fun c => if Ascii.eqb c "_"%char then "-"%char else c) <$> String.get n name.
Proof.
  revert n. induction name as [|c name IH]; intros n; [done|].
  cbn [replace_underscores String.get]. destruct n as [|n]; [done|]. apply IH.
Qed.

(** X15. The value [enum.auto()] gives a member is its name with every
    underscore turned into a hyphen: it holds no underscore, is as long as
    the name, is the name itself when that has no underscore, and two
    names without hyphen, as identifiers are, get the same value only if
    they are the same name.  Place by place, the value has a hyphen where
    the name has an underscore and the character of the name elsewhere;
    start, count and the earlier values play no part. *)
Theorem generate_next_value_spec (name other : string) (start count : Z)
    (last_values : list string) :
  let value := _generate_next_value_ name start count last_values in
  has_char "_"%char value = false
  /\ String.length value = String.length name
  /\ (has_char "_"%char name = false -> value = name)
  /\ (has_char "-"%char name = false -> has_char "-"%char other = false ->
      value = _generate_next_value_ other start count last_values -> name = other)
  /\ (forall n,
        String.get n value
        = (fun c => if Ascii.eqb c "_"%char then "-"%char else c) <$> String.get n name)
  /\ value = _generate_next_value_ name 1 0 [].
Proof.
  unfold _generate_next_value_. cbv zeta.
  split; [apply replace_underscores_none|].
  split; [apply replace_underscores_length|].
  split; [apply replace_underscores_id|].
  split; [apply replace_underscores_inj|].
  split; [apply replace_underscores_get|done].
Qed.

Lemma values_auto_class_from (names last_values : list string) :
  values (auto_class_from last_values names) = inr (replace_underscores <$> names).
Proof.
  revert last_values. induction names as [|n names IH]; intros lv; [done|].
  cbn [auto_class_from values __str__ auto_member m_value]. by rewrite IH.
Qed.

Lemma values_outcome (cls : list member) :
  ((exists m, m ∈ cls /\ m_value m = PyOther) /\ values cls = inl AssertionError)
  \/ exists ss, values cls = inr ss /\ m_value <$> cls = PyStr <$> ss.
Proof.
  induction cls as [|m cls IH]; cbn [values].
  - right. by exists [].
  - unfold __str__. destruct (m_value m) as [s|] eqn:Hv.
    + destruct IH as [[(m' & Hin & Hm') ->]|(ss & -> & Hss)].
      * left. split; [|done]. exists m'. split; [apply elem_of_cons; by right|done].
      * right. exists (s :: ss). split; [done|]. by rewrite !fmap_cons, Hv, Hss.
    + left. split; [|done]. exists m. split; [apply elem_of_cons; by left|done].
Qed.

(** X16. [values] gives the values of the members in the order of their
    definition, one for each member, when every value is a [str], and
    raises [AssertionError] when one is not.  For a class declared with
    [enum.auto()] alone the values are the names with hyphens for
    underscores, and names that are distinct and free of hyphens give
    distinct values. *)
Theorem values_spec (cls : list member) (names : list string) :
  ((exists m, m ∈ cls /\ m_value m = PyOther) <-> values cls = inl AssertionError)
  /\ (forall ss, values cls = inr ss -> m_value <$> cls = PyStr <$> ss)
  /\ values (auto_class names) = inr (replace_underscores <$> names)
  /\ (NoDup names -> Forall (fun n => has_char "-"%char n = false) names ->
      NoDup (replace_underscores <$> names)).
Proof.
  split; [|split; [|split]].
  - destruct (values_outcome cls) as [[Hex ->]|(ss & -> & Hss)]; [done|].
    split; [|done]. intros (m & Hin & Hm).
    assert (PyOther ∈ m_value <$> cls) as Hin'.
    { apply list_elem_of_fmap. by exists m. }
    rewrite Hss in Hin'. by apply list_elem_of_fmap in Hin' as (? & ? & _).
  - intros ss Hv. destruct (values_outcome cls) as [[_ H]|(ss' & H & Hss)];
      rewrite Hv in H; [done|]. by injection H as ->.
  - apply values_auto_class_from.
  - intros Hnd Hall. induction Hnd as [|n names' Hn Hnd IH]; [constructor|].
    apply Forall_cons in Hall as [Hh Hall]. rewrite fmap_cons.
    constructor; [|by apply IH].
    intros Hin. apply list_elem_of_fmap in Hin as (n' & Heq & Hin').
    apply replace_underscores_inj in Heq; [by subst| done|].
    by apply (proj1 (Forall_forall _ _) Hall).
Qed.

End StrEnumProperties.

(** ** [make_executable] *)

Section MakeExecutable.
Local Open Scope Z_scope.

Lemma mode_high_bits (m n : Z) : mode_ok m -> 16 <= n -> Z.testbit m n = false.
Proof.
  intros [Hlo Hhi] Hn. destruct (Z.eq_dec m 0) as [->|Hne]; [apply Z.bits_0|].
  apply Z.bits_above_log2; [done|].
  assert (Z.log2 m < 16); [|lia]. apply Z.log2_lt_pow2; [lia|]. by change (2 ^ 16) with 65536.
Qed.

Lemma S_IFMT_bits (n : Z) : 0 <= n -> Z.testbit S_IFMT n = (12 <=? n) && (n <? 16).
Proof.
  intros Hn. change S_IFMT with (Z.shiftl (Z.ones 4) 12).
  rewrite Z.shiftl_spec by done.
  destruct (Z.leb_spec 12 n), (Z.ltb_spec n 16); cbn [andb].
  - apply Z.ones_spec_low. lia.
  - apply Z.ones_spec_high. lia.
  - apply Z.testbit_neg_r. lia.
  - lia.
Qed.

Lemma ALLPERMS_bits (n : Z) : 0 <= n -> Z.testbit ALLPERMS n = (n <? 12).
Proof.
  intros Hn. change ALLPERMS with (Z.ones 12).
  destruct (Z.ltb_spec n 12).
  - apply Z.ones_spec_low. lia.
  - apply Z.ones_spec_high. lia.
Qed.

Lemma S_IEXEC_bits (n : Z) : 0 <= n -> Z.testbit S_IEXEC n = (n =? 6).
Proof.
  intros Hn. change S_IEXEC with (2 ^ 6). rewrite Z.pow2_bits_eqb by lia. apply Z.eqb_sym.
Qed.

Lemma S_ISGID_bits (n : Z) : 0 <= n -> Z.testbit S_ISGID n = (n =? 10).
Proof.
  intros Hn. change S_ISGID with (2 ^ 10). rewrite Z.pow2_bits_eqb by lia. apply Z.eqb_sym.
Qed.

(** The bits of the mode [chmod] leaves when it is given the old mode
    with the execute bit set. *)
Lemma chmod_exec_bits (i : inode) (n : Z) :
  0 <= n ->
  Z.testbit (chmod_mode i (Z.lor (st_mode i) S_IEXEC)) n
  = (n <? 16) && (Z.testbit (st_mode i) n || (n =? 6))
    && negb ((n =? 10) && negb (keeps_setgid i)).
Proof.
  intros Hn. unfold chmod_mode.
  destruct (keeps_setgid i);
    rewrite ?Z.lor_spec, ?Z.ldiff_spec, ?Z.land_spec, ?Z.lor_spec,
      ?S_IFMT_bits, ?ALLPERMS_bits, ?S_IEXEC_bits, ?S_ISGID_bits by done;
    destruct (Z.leb_spec 12 n), (Z.ltb_spec n 16), (Z.ltb_spec n 12),
      (Z.eqb_spec n 6), (Z.eqb_spec n 10);
    try lia; destruct (Z.testbit (st_mode i) n); done.
Qed.

Lemma chmod_exec_type (i : inode) :
  S_ISDIR (chmod_mode i (Z.lor (st_mode i) S_IEXEC)) = S_ISDIR (st_mode i).
Proof.
  unfold S_ISDIR. f_equal. apply Z.bits_inj'. intros n Hn.
  rewrite !Z.land_spec, chmod_exec_bits, S_IFMT_bits by done.
  destruct (Z.leb_spec 12 n), (Z.ltb_spec n 16), (Z.eqb_spec n 6), (Z.eqb_spec n 10);
    try lia; destruct (Z.testbit (st_mode i) n), (keeps_setgid i); done.
Qed.

(** Storing the new mode does not change where names lead. *)
Lemma fs_lookup_chmod (cwd : Path) (fs : gmap Path inode) (k : Path) (i : inode) (p : string) :
  fs !! k = Some i ->
  fs_lookup cwd
    (<[k := Inode (chmod_mode i (Z.lor (st_mode i) S_IEXEC)) (may_chmod i)
                  (keeps_setgid i) (searchable i)]> fs) p
  = fs_lookup cwd fs p.
Proof.
  intros Hk. unfold fs_lookup. apply namei_ext; intros n;
    (destruct (decide (n = k)) as [->|Hne];
     [rewrite lookup_insert_eq, Hk; cbn [st_mode searchable];
      by rewrite ?chmod_exec_type
     |by rewrite lookup_insert_ne]).
Qed.

(** X17. [make_executable] sets the owner's execute bit: on a file the
    process may change, the new mode is the old one with [S_IEXEC] or-ed
    in, except that the kernel drops the set-group-ID bit for a process
    that is neither privileged nor in the group of the file; every other
    bit, type bits included, is as before, other files are not touched,
    and a second call changes nothing more.  When the name cannot be
    followed it raises the error of the lookup, when it leads to nothing
    [FileNotFoundError], on a file of someone else [PermissionError], and
    in these cases nothing is changed. *)
Theorem make_executable_spec (cwd : Path) (path : Path) (fs : gmap Path inode) :
  (forall e, fs_lookup cwd fs path = inl e ->
     make_executable cwd path fs = (Raise e, fs))
  /\ (forall r, fs_lookup cwd fs path = inr r -> fs !! r.1 = None ->
        make_executable cwd path fs = (Raise FileNotFoundError, fs))
  /\ (forall r i, fs_lookup cwd fs path = inr r -> fs !! r.1 = Some i ->
        may_chmod i = false ->
        make_executable cwd path fs = (Raise PermissionError, fs))
  /\ (forall r i, fs_lookup cwd fs path = inr r -> fs !! r.1 = Some i ->
        may_chmod i = true -> mode_ok (st_mode i) ->
        let mode' := chmod_mode i (Z.lor (st_mode i) S_IEXEC) in
        let fs' := <[r.1 := Inode mode' (may_chmod i) (keeps_setgid i) (searchable i)]> fs in
        make_executable cwd path fs = (Ret tt, fs')
        /\ (forall n, 0 <= n ->
              Z.testbit mode' n
              = (Z.testbit (st_mode i) n || (n =? 6))
                && negb ((n =? 10) && negb (keeps_setgid i)))
        /\ (keeps_setgid i = true -> mode' = Z.lor (st_mode i) S_IEXEC)
        /\ (forall other, other <> r.1 -> fs' !! other = fs !! other)
        /\ make_executable cwd path fs' = (Ret tt, fs')).
Proof.
  split; [|split; [|split]].
  - intros e Hl. unfold make_executable, Path_stat. by rewrite Hl.
  - intros r Hl Hf. unfold make_executable, Path_stat. by rewrite Hl, Hf.
  - intros r i Hl Hf Hm. unfold make_executable, Path_stat, os_chmod.
    by rewrite Hl, Hf, Hm.
  - intros r i Hl Hf Hm Hok mode' fs'.
    assert (Hrun : forall t j, fs_lookup cwd t path = inr r -> t !! r.1 = Some j ->
              may_chmod j = true ->
              make_executable cwd path t
              = (Ret tt, <[r.1 := Inode (chmod_mode j (Z.lor (st_mode j) S_IEXEC))
                                         (may_chmod j) (keeps_setgid j) (searchable j)]> t)).
    { intros t j Hlt Ht Hj. unfold make_executable, Path_stat, os_chmod.
      by rewrite Hlt, Ht, Hj. }
    assert (Hbits : forall n, 0 <= n ->
              Z.testbit mode' n
              = (Z.testbit (st_mode i) n || (n =? 6))
                && negb ((n =? 10) && negb (keeps_setgid i))).
    { intros n Hn. unfold mode'. rewrite chmod_exec_bits by done.
      destruct (Z.ltb_spec n 16); [done|].
      rewrite (mode_high_bits _ n Hok) by lia.
      destruct (Z.eqb_spec n 6); [lia|done]. }
    split; [by apply Hrun|]. split; [exact Hbits|]. split; [|split].
    + intros Hk. apply Z.bits_inj'. intros n Hn.
      rewrite Hbits, Hk, Z.lor_spec, S_IEXEC_bits by done.
      by rewrite andb_false_r, andb_true_r.
    + intros other Hne. unfold fs'. by rewrite lookup_insert_ne.
    + rewrite (Hrun fs' (Inode mode' (may_chmod i) (keeps_setgid i) (searchable i)));
        [|unfold fs', mode'; by rewrite fs_lookup_chmod
         |by unfold fs'; rewrite lookup_insert_eq|done].
      cbn [st_mode may_chmod keeps_setgid searchable].
      f_equal. unfold fs'. rewrite insert_insert_eq. do 2 f_equal.
      apply Z.bits_inj'. intros n Hn.
      rewrite (chmod_exec_bits (Inode mode' (may_chmod i) (keeps_setgid i) (searchable i)))
        by done.
      cbn [st_mode keeps_setgid]. unfold mode'. rewrite chmod_exec_bits by done.
      destruct (Z.ltb_spec n 16), (Z.eqb_spec n 6), (Z.eqb_spec n 10);
        try lia; destruct (Z.testbit (st_mode i) n), (keeps_setgid i); done.
Qed.

End MakeExecutable.

(** ** More on the scoped guards *)

Section ChdirMore.

Variable PathString : Type.
Variable path_eq : Path -> PathString -> bool.
Variable fspath : PathString -> string.

(** X18. When [os.chdir] cannot enter the target (the name cannot be
    followed, it leads to nothing or to something that is not a
    directory, or the process may not search the directory), [chdir]
    raises the error of that call and does not run the body; the
    [finally] clause has still called [os.chdir] on the old directory, so
    two calls were made, and, the old directory being one the process can
    enter under its name, the working directory is the one from before
    the call. *)
Theorem chdir_missing_target {A} (D : PathString) (body : M A) (w : World) (e : exn) :
  cwd w ∈ dirs w ->
  chdir_target w (cwd w) = inr (cwd w) ->
  chdir_target w (fspath D) = inl e ->
  path_eq (cwd w) D = false ->
  chdir path_eq fspath D body w
    = (Raise e, set_chdir_calls (chdir_calls w ++ [fspath D; cwd w]) w)
  /\ cwd (chdir path_eq fspath D body w).2 = cwd w.
Proof.
  intros Hold Hback Hmiss Hne.
  assert (Hrun : chdir path_eq fspath D body w
                 = (Raise e, set_chdir_calls (chdir_calls w ++ [fspath D; cwd w]) w)).
  { unfold chdir. erewrite bind_Ret; [|by apply Path_cwd_run]. rewrite Hne.
    erewrite (try_finally_left _ _ _ _ (Raise e)); [| |done].
    2:{ apply bind_Raise. by apply os_chdir_fails. }
    rewrite (os_chdir_enters (cwd w) (cwd w)); [|exact Hback].
    f_equal. destruct w. unfold set_cwd, set_chdir_calls. cbn.
    by rewrite <- app_assoc. }
  rewrite Hrun. split; [done|]. by destruct w.
Qed.

End ChdirMore.

Section ScopedenvMore.

Implicit Types O : list (string * pyobj).

(** X19. [scopedenv] drops the cached temporary directory on the way in
    and on the way out: [tempfile.tempdir] is [None] when the body starts
    and when the scope is left.  What it restores is [os.environ] alone:
    the C-level table, which got the overrides on the way in, is left as
    the body leaves it, so overrides the body did not remove are still in
    it after the scope. *)
Theorem scopedenv_tempdir_and_c_table {A} O (body : M A)
    (w w_out : World) (r : res A) :
  NoDup O.*1 ->
  Forall (fun kv => accepts kv.1 kv.2 = true) O ->
  body (scopedenv_world O w) = (r, w_out) -> r <> Hang ->
  tempfile_tempdir (scopedenv_world O w) = None
  /\ tempfile_tempdir (scopedenv O body w).2 = None
  /\ c_environ (scopedenv O body w).2 = c_environ w_out
  /\ (c_environ w_out = c_environ (scopedenv_world O w) ->
      forall k s, dict_get k O = Some (PyStr s) ->
        c_environ (scopedenv O body w).2 !! k = Some s).
Proof.
  intros Hnd Hacc Hbody Hr. rewrite (scopedenv_run _ _ _ _ _ Hnd Hacc Hbody Hr).
  split; [done|]. split; [done|]. split; [done|].
  intros Hsame k s Hk. cbn. rewrite Hsame. cbn.
  by rewrite lookup_str_items_union, Hk.
Qed.

(** X20. Scopes nest: inside two scopes the overrides of the inner one
    win over those of the outer one, which win over what was there; and
    when both are left, by return or by exception, [os.environ] is the
    mapping from before the outer call. *)
Theorem scopedenv_nested {A} O1 O2 (body : M A)
    (w w_out : World) (r : res A) :
  NoDup O1.*1 -> NoDup O2.*1 ->
  Forall (fun kv => accepts kv.1 kv.2 = true) O1 ->
  Forall (fun kv => accepts kv.1 kv.2 = true) O2 ->
  let w_in := scopedenv_world O2 (scopedenv_world O1 w) in
  body w_in = (r, w_out) -> r <> Hang ->
  (forall k,
     os_environ w_in !! k =
       match dict_get k O2, dict_get k O1 with
       | Some (PyStr s), _ => Some s
       | _, Some (PyStr s) => Some s
       | _, _ => os_environ w !! k
       end)
  /\ exists w',
       scopedenv O1 (scopedenv O2 body) w = (r, w')
       /\ os_environ w' = os_environ w.
Proof.
  intros Hnd1 Hnd2 H1 H2 w_in Hbody Hr. split.
  - intros k. unfold w_in, scopedenv_world, merged. cbn.
    rewrite !lookup_str_items_union by done.
    destruct (dict_get k O2) as [[s|]|]; destruct (dict_get k O1) as [[s'|]|]; done.
  - exists (set_tempfile_tempdir None
              (set_os_environ (os_environ w)
                 (set_tempfile_tempdir None
                    (set_os_environ (os_environ (scopedenv_world O1 w)) w_out)))).
    split; [|done].
    apply scopedenv_run; [done|done| |done].
    by apply scopedenv_run.
Qed.

End ScopedenvMore.

Section UmaskMore.
Local Open Scope Z_scope.

(** X21. [umask] takes any mask [os.umask] takes and keeps its nine
    permission bits: the body starts with [mask & 0o777] as the process
    mask, whatever higher bits the argument had, and the mask from before
    the call is back when the scope is left. *)
Theorem umask_keeps_permission_bits {A} (mask : Z) (body : M A) (w w_out : World) (r : res A) :
  - 2 ^ 31 <= mask < 2 ^ 31 ->
  0 <= proc_umask w <= S_IRWXUGO ->
  let w_in := set_proc_umask (Z.land mask S_IRWXUGO) w in
  body w_in = (r, w_out) -> r <> Hang ->
  0 <= proc_umask w_in <= S_IRWXUGO
  /\ (forall n, 0 <= n -> Z.testbit (proc_umask w_in) n = Z.testbit mask n && (n <? 9))
  /\ exists w', umask mask body w = (r, w') /\ proc_umask w' = proc_umask w.
Proof.
  intros _ Hold w_in Hbody Hr. split; [|split].
  - cbn. change S_IRWXUGO with (Z.ones 9). rewrite Z.land_ones by lia.
    pose proof (Z.mod_pos_bound mask (2 ^ 9) ltac:(lia)) as Hb.
    change (Z.ones 9) with 511. change (2 ^ 9) with 512 in *. lia.
  - intros n Hn. cbn. rewrite Z.land_spec. f_equal.
    change S_IRWXUGO with (Z.ones 9).
    destruct (Z.ltb_spec n 9); [apply Z.ones_spec_low|apply Z.ones_spec_high]; lia.
  - exists (set_proc_umask (proc_umask w) w_out). split; [|done].
    unfold umask.
    erewrite bind_Ret; [|reflexivity].
    erewrite try_finally_left; [|exact Hbody|exact Hr].
    erewrite bind_Ret; [|reflexivity].
    cbn. by rewrite (land_permission_bits _ Hold).
Qed.

End UmaskMore.

Section FlockMore.

(** Once the descriptor is open and the lock is free, [flock] is its body
    under the [try], with the lock held, and [os.close] under the
    [finally]. *)
Lemma flock_run {A} (path : Path) (body : nat -> M A) (w : World) :
  openable path w ->
  node_of path w ∉ locked_elsewhere w ->
  held_by_other (lowest_free (fds w)) (node_of path w) (fds (opened path w)) = false ->
  flock path body w
    = try_finally (body (lowest_free (fds w))) (os_close (lowest_free (fds w)))
        (locked path w).
Proof.
  intros Hop Hfree Hheld. set (fd := lowest_free (fds w)).
  assert (Hfd : fds (opened path w) !! fd = Some (OpenFile (node_of path w) true false)).
  { unfold opened. cbn. apply lookup_insert_eq. }
  unfold flock. erewrite bind_Ret; [|by apply os_open_openable]. fold fd.
  unfold try_finally.
  assert (Hin : forall X (k : M X),
            (fcntl_fcntl fd FD_CLOEXEC ;; fcntl_flock_ex fd ;; k) (opened path w)
            = k (locked path w)).
  { intros X k. erewrite bind_Ret.
    2:{ unfold fcntl_fcntl. rewrite Hfd. reflexivity. }
    erewrite bind_Ret; [reflexivity|].
    unfold fcntl_flock_ex. rewrite Hfd. cbn [of_path of_cloexec].
    rewrite bool_decide_eq_false_2 by done. fold fd in Hheld. by rewrite Hheld. }
  by rewrite Hin.
Qed.

(** With the lock held elsewhere, [flock] never gets past taking it. *)
Lemma flock_blocked {A} (path : Path) (body : nat -> M A) (w : World) :
  openable path w ->
  (node_of path w ∈ locked_elsewhere w
   \/ held_by_other (lowest_free (fds w)) (node_of path w) (fds (opened path w)) = true) ->
  flock path body w = (Hang, opened path w).
Proof.
  intros Hop Hheld. set (fd := lowest_free (fds w)).
  assert (Hfd : fds (opened path w) !! fd = Some (OpenFile (node_of path w) true false)).
  { unfold opened. cbn. apply lookup_insert_eq. }
  unfold flock. erewrite bind_Ret; [|by apply os_open_openable]. fold fd.
  apply try_finally_Hang.
  erewrite bind_Ret.
  2:{ unfold fcntl_fcntl. rewrite Hfd. reflexivity. }
  apply bind_Hang. unfold fcntl_flock_ex. rewrite Hfd. cbn [of_path].
  destruct Hheld as [H|H].
  - by rewrite (bool_decide_eq_true_2 _ H).
  - fold fd in H. rewrite H. by rewrite orb_true_r.
Qed.

Lemma locked_fds (path : Path) (w : World) :
  fds (locked path w)
  = <[lowest_free (fds w) := OpenFile (node_of path w) true true]> (fds w).
Proof. unfold locked, opened. cbn. apply insert_insert_eq. Qed.

(** Where a name leads depends on the working directory and on what is
    in the file system, not on the rest of the world. *)
Lemma open_target_same (w w' : World) (p : string) :
  cwd w' = cwd w -> dirs w' = dirs w -> files w' = files w ->
  no_search w' = no_search w -> no_read w' = no_read w ->
  open_target w' p = open_target w p.
Proof.
  intros Hc Hd Hf Hs Hr. unfold open_target, lookup, is_directory.
  by rewrite Hc, Hd, Hf, Hs, Hr.
Qed.

(** X22. [flock] gives its body a descriptor that was not open before,
    and when the body leaves the descriptor table as it got it, the table
    after the scope is the one from before the call, whether the body
    returned or raised: nothing is left open. *)
Theorem flock_leaves_table {A} (path : Path) (body : nat -> M A) (w w_out : World) (r : res A) :
  openable path w ->
  node_of path w ∉ locked_elsewhere w ->
  held_by_other (lowest_free (fds w)) (node_of path w) (fds (opened path w)) = false ->
  body (lowest_free (fds w)) (locked path w) = (r, w_out) -> r <> Hang ->
  fds w_out = fds (locked path w) ->
  fds w !! lowest_free (fds w) = None
  /\ flock path body w = (r, set_fds (fds w) w_out).
Proof.
  intros Hop Hfree Hheld Hbody Hr Hsame.
  destruct (lowest_free_fresh (fds w)) as [Hfresh _]. split; [done|].
  rewrite flock_run by done.
  erewrite try_finally_left; [|exact Hbody|exact Hr].
  unfold os_close. rewrite Hsame, locked_fds, lookup_insert_eq.
  by rewrite delete_insert_id.
Qed.

(** X23. The lock is not reentrant: a [flock] on a path inside the scope
    of a [flock] on the same path opens a second descriptor, finds the
    lock held by the first, and blocks for good. *)
Theorem flock_not_reentrant {A} (path : Path) (inner : nat -> M A) (w : World) :
  openable path w ->
  node_of path w ∉ locked_elsewhere w ->
  held_by_other (lowest_free (fds w)) (node_of path w) (fds (opened path w)) = false ->
  (flock path (fun _ => flock path inner) w).1 = Hang.
Proof.
  intros Hop Hfree Hheld.
  set (fd1 := lowest_free (fds w)). set (wl := locked path w).
  assert (Hop' : openable path wl) by exact Hop.
  assert (Hnode : node_of path wl = node_of path w) by reflexivity.
  assert (H1 : fds wl !! fd1 = Some (OpenFile (node_of path w) true true)).
  { unfold wl. rewrite locked_fds. apply lookup_insert_eq. }
  destruct (lowest_free_fresh (fds wl)) as [Hfresh _].
  set (fd2 := lowest_free (fds wl)) in *.
  assert (Hne : fd1 <> fd2) by congruence.
  assert (Hinner : flock path inner wl = (Hang, opened path wl)).
  { apply flock_blocked; [done|]. right. fold fd2. rewrite Hnode.
    apply existsb_exists. exists (fd1, OpenFile (node_of path w) true true). split.
    - apply list_elem_of_In, elem_of_map_to_list. unfold opened. cbn.
      by rewrite lookup_insert_ne.
    - cbn. rewrite (proj2 (Nat.eqb_neq fd1 fd2) Hne). by rewrite String.eqb_refl. }
  rewrite flock_run by done. fold fd1 wl.
  by erewrite try_finally_Hang.
Qed.

(** X24. Two scopes on the same path, one after the other, both get in:
    when the first body returns and leaves the descriptor table, the
    working directory and the file system as it got them, closing the
    descriptor has released the lock, and the second [flock] takes it on
    the same descriptor number and runs its body. *)
Theorem flock_sequential {A B} (path : Path) (first : nat -> M A) (second : nat -> M B)
    (w w1 : World) (a : A) :
  openable path w ->
  node_of path w ∉ locked_elsewhere w ->
  held_by_other (lowest_free (fds w)) (node_of path w) (fds (opened path w)) = false ->
  first (lowest_free (fds w)) (locked path w) = (Ret a, w1) ->
  fds w1 = fds (locked path w) ->
  cwd w1 = cwd w -> dirs w1 = dirs w -> files w1 = files w ->
  no_search w1 = no_search w -> no_read w1 = no_read w ->
  locked_elsewhere w1 = locked_elsewhere w ->
  let w_mid := set_fds (fds w) w1 in
  flock path first w = (Ret a, w_mid)
  /\ (flock path first ≫= fun _ => flock path second) w
     = try_finally (second (lowest_free (fds w))) (os_close (lowest_free (fds w)))
         (locked path w_mid).
Proof.
  intros Hop Hfree Hheld Hbody Hfds Hcwd Hdirs Hfiles Hsearch Hread Hlocked w_mid.
  assert (Hfirst : flock path first w = (Ret a, w_mid)).
  { rewrite flock_run by done.
    erewrite try_finally_left; [|exact Hbody|done].
    unfold os_close. rewrite Hfds, locked_fds, lookup_insert_eq.
    rewrite delete_insert_id; [done|]. apply lowest_free_fresh. }
  split; [done|].
  erewrite bind_Ret; [|exact Hfirst].
  assert (Hfds' : fds w_mid = fds w) by (unfold w_mid; by destruct w1).
  assert (Htarget : open_target w_mid path = open_target w path).
  { apply open_target_same; unfold w_mid; by destruct w1. }
  assert (Hnode : node_of path w_mid = node_of path w).
  { unfold node_of. by rewrite Htarget. }
  rewrite flock_run.
  - by rewrite Hfds'.
  - unfold openable. by rewrite Htarget.
  - rewrite Hnode. unfold w_mid. destruct w1. cbn in *. by subst.
  - rewrite Hnode, Hfds'. unfold opened. rewrite Hnode, Hfds'. cbn. exact Hheld.
Qed.

End FlockMore.

(** * The statements at work on the examples *)

Ltac by_evaluation := vm_compute; reflexivity.
Ltac set_by_evaluation := apply (bool_decide_unpack _); vm_compute; exact I.


(** Entering [/tmp] from [/work] with a body that removes [/work]: the
    target exists and differs from the working directory, yet the scope is
    left with the not-found error of the restoring [os.chdir] and the
    process is still in [/tmp]. *)
Lemma chdir_start_removed :
  chdir_target sample_world (path_or_str_fspath (APath "/tmp")) = inr "/tmp"
  /\ path_or_str_eq (cwd sample_world) (APath "/tmp") = false
  /\ (chdir path_or_str_eq path_or_str_fspath (APath "/tmp") body_rmdir_start
        sample_world).1 = Raise FileNotFoundError
  /\ cwd (chdir path_or_str_eq path_or_str_fspath (APath "/tmp") body_rmdir_start
            sample_world).2 = "/tmp"
  /\ cwd sample_world = "/work".
Proof. repeat split; by_evaluation. Qed.


(** A path below a regular file does not exist, and [flock] on it fails
    with [NotADirectoryError], which is not the not-found error. *)
Lemma flock_below_file :
  file_at lock_world "/work/image.lock/x" = None
  /\ bool_decide ("/work/image.lock/x" ∈ dirs lock_world) = false
  /\ lookup lock_world "/work/image.lock/x" = inl NotADirectoryError
  /\ flock "/work/image.lock/x" body_with_fd_raise lock_world
     = (Raise NotADirectoryError, lock_world).
Proof. repeat split; by_evaluation. Qed.


(** A conforming line whose quoted value is not a literal: the exception of
    [literal_eval] leaves [read_env_file], and no mapping is returned. *)
Lemma read_env_file_unterminated_raises :
  conforming (rstrip ("NAME=" +:+ String DQUOTE "mkosi")) "NAME" (String DQUOTE "mkosi")
  /\ (read_env_file literal_eval_plain os_release unterminated_world).1 = Raise SyntaxError.
Proof.
  split; [|by_evaluation].
  split; [by_evaluation|]. exists "N"%char, "AME". repeat split; try by_evaluation. done.
Qed.


Lemma umask_restores_witness :
  (0 <= 63 <= S_IRWXUGO)%Z
  /\ (0 <= proc_umask sample_world <= S_IRWXUGO)%Z
  /\ proc_umask (set_proc_umask 63 sample_world) = 63%Z
  /\ exists w',
       umask 63 body_umask_raise sample_world = (Raise (BodyError 2), w')
       /\ proc_umask w' = proc_umask sample_world.
Proof.
  assert (H1 : (0 <= 63 <= S_IRWXUGO)%Z) by (unfold S_IRWXUGO; lia).
  assert (H2 : (0 <= proc_umask sample_world <= S_IRWXUGO)%Z)
    by (unfold S_IRWXUGO; simpl; lia).
  split; [exact H1|]. split; [exact H2|].
  destruct (umask_restores 63 body_umask_raise sample_world H1 H2) as [Hin Hexit].
  split; [exact Hin|].
  apply (Hexit (Raise (BodyError 2))
           (body_umask_raise (set_proc_umask 63 sample_world)).2);
    [by_evaluation|discriminate].
Defined.

Lemma chdir_restores_witness :
  cwd sample_world ∈ dirs sample_world
  /\ is_canonical (cwd sample_world) = true
  /\ chdir_target sample_world (path_or_str_fspath (AStr "../tmp/")) = inr "/tmp"
  /\ path_or_str_eq (cwd sample_world) (AStr "../tmp/") = false
  /\ exists w',
       chdir path_or_str_eq path_or_str_fspath (AStr "../tmp/") body_chdir_raise sample_world
         = (Raise (BodyError 3), w')
       /\ cwd w' = cwd sample_world.
Proof.
  assert (H0 : cwd sample_world ∈ dirs sample_world) by set_by_evaluation.
  assert (H1 : is_canonical (cwd sample_world) = true) by by_evaluation.
  assert (H2 : chdir_target sample_world (path_or_str_fspath (AStr "../tmp/")) = inr "/tmp")
    by by_evaluation.
  assert (H3 : path_or_str_eq (cwd sample_world) (AStr "../tmp/") = false) by reflexivity.
  split; [exact H0|]. split; [exact H1|]. split; [exact H2|]. split; [exact H3|].
  destruct (chdir_restores path_or_str path_or_str_eq path_or_str_fspath
              (AStr "../tmp/") body_chdir_raise sample_world "/tmp" H0 H1 H2 H3)
    as [_ Hexit].
  destruct (Hexit (Raise (BodyError 3))
              (body_chdir_raise
                 (set_cwd "/tmp"
                    (set_chdir_calls
                       (chdir_calls sample_world ++ [path_or_str_fspath (AStr "../tmp/")])
                       sample_world))).2)
    as [Hstill _]; [by_evaluation|discriminate|].
  destruct Hstill as (w' & Hrun & Hcwd & _); [by_evaluation|].
  exists w'. split; [exact Hrun|exact Hcwd].
Defined.


Lemma flock_closes_witness :
  flock "/nowhere" body_with_fd_raise lock_world = (Raise FileNotFoundError, lock_world)
  /\ flock "/work/image.lock/x" body_with_fd_raise lock_world
     = (Raise NotADirectoryError, lock_world)
  /\ openable lock_path lock_world
  /\ exists r' w',
       flock lock_path body_with_fd_raise lock_world = (r', w')
       /\ r' = Raise (BodyError 4)
       /\ fds w' !! lowest_free (fds lock_world) = None.
Proof.
  assert (Hop : openable lock_path lock_world) by (exists lock_path; by_evaluation).
  destruct (flock_closes "/nowhere" body_with_fd_raise lock_world)
    as (_ & _ & Hnone & _).
  destruct (flock_closes "/work/image.lock/x" body_with_fd_raise lock_world)
    as (_ & Herr & _).
  destruct (flock_closes lock_path body_with_fd_raise lock_world)
    as (_ & _ & _ & _ & Hopen).
  split; [apply (Hnone ("/nowhere", false)); by_evaluation|].
  split; [apply Herr; by_evaluation|].
  split; [exact Hop|].
  destruct (Hopen Hop) as [_ Hfree].
  destruct Hfree as [_ Hexit]; [set_by_evaluation|by_evaluation|].
  destruct (Hexit (Raise (BodyError 4))
              (body_with_fd_raise (lowest_free (fds lock_world))
                 (locked lock_path lock_world)).2)
    as (r' & w' & Hrun & _ & Hclosed & Hr); [by_evaluation|discriminate|].
  exists r', w'. split; [exact Hrun|]. split; [|exact Hclosed].
  apply Hr. eexists. by_evaluation.
Defined.

Lemma identity_precedence_witness :
  INVOKING_USER.uid_expr sudo_world = (Ret 1000%Z, sudo_world)
  /\ INVOKING_USER.gid_expr sudo_world = (Ret 1000%Z, sudo_world)
  /\ INVOKING_USER.uid_expr sample_world = (Ret (real_uid sample_world), sample_world).
Proof.
  destruct (identity_precedence sudo_world) as (_ & _ & _ & Hg & _ & Hsudo & _).
  destruct (identity_precedence sample_world) as (_ & _ & _ & _ & _ & _ & Hreal).
  split; [apply Hsudo; by_evaluation|]. split.
  - rewrite (Hg "1000"); [reflexivity|by_evaluation|discriminate].
  - apply Hreal; by_evaluation.
Defined.

Lemma identity_invariant_witness :
  INVOKING_USER.class_statement sample_world
    = (Ret tt, (INVOKING_USER.class_statement sample_world).2)
  /\ exists c,
       class_attrs (INVOKING_USER.class_statement sample_world).2 = Some c
       /\ invoked_as_root c = (uid c =? 0)%Z
       /\ class_attrs
            (INVOKING_USER.calls root_only_pw_name root_only_expanduser
               [INVOKING_USER.Init; INVOKING_USER.Home; INVOKING_USER.IsRunningUser]
               (INVOKING_USER.class_statement sample_world).2) = Some c.
Proof.
  assert (H : INVOKING_USER.class_statement sample_world
              = (Ret tt, (INVOKING_USER.class_statement sample_world).2)) by by_evaluation.
  split; [exact H|].
  destruct (identity_invariant root_only_pw_name root_only_expanduser _ _ H)
    as (c & Hc & Hinv & Hcalls).
  exists c. split; [exact Hc|]. split; [exact Hinv|]. apply Hcalls.
Defined.


Lemma read_env_file_last_wins_witness :
  (read_env_file literal_eval_plain os_release twice_world).1
    = Ret [("MODE", PyStr "second")]
  /\ dict_get "MODE" [("MODE", PyStr "second")] = Some (PyStr "second")
  /\ length (filter (fun kv : string * pyobj => kv.1 = "MODE") [("MODE", PyStr "second")]) = 1.
Proof.
  assert (H : read_env_file literal_eval_plain os_release twice_world
              = (Ret [("MODE", PyStr "second")],
                 (read_env_file literal_eval_plain os_release twice_world).2))
    by by_evaluation.
  split; [by rewrite H|].
  assert (Hf : file_at twice_world os_release = Some (File true twice_text))
    by by_evaluation.
  destruct (read_env_file_last_wins literal_eval_plain os_release twice_world _ _ _ H Hf)
    as [_ Hlast].
  apply (Hlast ["MODE=first" +:+ String LF EmptyString]
               ("MODE=second" +:+ String LF EmptyString) [] "MODE" (PyStr "second"));
    [by_evaluation|by_evaluation|].
  intros line' Hin. by apply elem_of_nil in Hin.
Defined.

Lemma is_power_of_2_spec_witness :
  is_power_of_2 1024 = true /\ is_power_of_2 0 = false /\ is_power_of_2 (-8) = false.
Proof.
  split; [|split].
  - apply (proj1 (is_power_of_2_spec 1024)). split; [lia|]. exists 10. reflexivity.
  - apply (proj2 (is_power_of_2_spec 0)). lia.
  - apply (proj2 (is_power_of_2_spec (-8))). lia.
Defined.


(** ** The further properties at work *)

Lemma sort_packages_sorted_witness :
  (EmptyString ∉ sample_packages)
  /\ exists sorted,
       sort_packages sample_packages = inr sorted
       /\ sorted ≡ₚ sample_packages
       /\ StronglySorted package_le sorted.
Proof.
  assert (H : EmptyString ∉ sample_packages) by set_by_evaluation.
  split; [exact H|].
  destruct (sort_packages_sorted sample_packages H) as (sorted & Hs & Hp & Hsorted & _).
  exists sorted. split; [exact Hs|]. split; [exact Hp|exact Hsorted].
Defined.

Lemma sort_packages_raises_witness :
  sort_packages ["bash"; EmptyString; "vim"] = inl IndexError
  /\ exists sorted, sort_packages sample_packages = inr sorted.
Proof.
  split.
  - apply (proj1 (proj1 (sort_packages_raises ["bash"; EmptyString; "vim"]))).
    set_by_evaluation.
  - apply (proj1 (proj2 (sort_packages_raises sample_packages))).
    set_by_evaluation.
Defined.

Lemma sort_packages_order_irrelevant_witness :
  (["bash"; "/usr/bin/bash"; "acl"] ≡ₚ ["acl"; "bash"; "/usr/bin/bash"])
  /\ sort_packages ["bash"; "/usr/bin/bash"; "acl"]
     = sort_packages ["acl"; "bash"; "/usr/bin/bash"].
Proof.
  assert (H : ["bash"; "/usr/bin/bash"; "acl"] ≡ₚ ["acl"; "bash"; "/usr/bin/bash"]).
  { symmetry. apply (Permutation_cons_append ["bash"; "/usr/bin/bash"] "acl"). }
  split; [exact H|].
  exact (proj1 (sort_packages_order_irrelevant _ _ H)).
Defined.

Lemma read_env_file_frame_witness :
  exists new,
    (read_env_file literal_eval_plain os_release sample_env_world).2
      = set_logged (logged sample_env_world ++ new) sample_env_world
    /\ fds (read_env_file literal_eval_plain os_release sample_env_world).2
       = fds sample_env_world
    /\ Forall (fun rec => lr_level rec = INFO) new.
Proof.
  apply (read_env_file_frame literal_eval_plain os_release sample_env_world _
           (Ret [("FOO", PyStr "bar"); ("BAZ", PyStr "q z")]));
    [by_evaluation|discriminate].
Defined.

Lemma read_env_file_open_errors_witness :
  read_env_file literal_eval_plain "/nowhere" sample_world
    = (Raise FileNotFoundError, sample_world)
  /\ read_env_file literal_eval_plain "/etc/os-release/x" sample_env_world
     = (Raise NotADirectoryError, sample_env_world)
  /\ read_env_file literal_eval_plain "/tmp" sample_world
     = (Raise IsADirectoryError, sample_world)
  /\ read_env_file literal_eval_plain "/var" user_world
     = (Raise PermissionError, user_world)
  /\ read_env_file literal_eval_plain shadow shadow_world
     = (Raise PermissionError, shadow_world).
Proof.
  destruct (read_env_file_open_errors literal_eval_plain "/nowhere" sample_world)
    as (_ & Hnone & _).
  destruct (read_env_file_open_errors literal_eval_plain "/etc/os-release/x"
              sample_env_world) as (Hlookup & _).
  destruct (read_env_file_open_errors literal_eval_plain "/tmp" sample_world)
    as (_ & _ & Hdir & _).
  destruct (read_env_file_open_errors literal_eval_plain "/var" user_world)
    as (_ & _ & _ & Hclosed & _).
  destruct (read_env_file_open_errors literal_eval_plain shadow shadow_world)
    as (_ & _ & _ & _ & Hfile).
  split; [apply (Hnone ("/nowhere", false)); by_evaluation|].
  split; [apply Hlookup; by_evaluation|].
  split; [apply (Hdir ("/tmp", false)); [by_evaluation|by_evaluation|set_by_evaluation]|].
  split; [apply (Hclosed ("/var", false)); [by_evaluation|by_evaluation|set_by_evaluation]|].
  apply (Hfile (shadow, false) (File false "root:x")); by_evaluation.
Defined.

Lemma read_env_file_keys_witness :
  key_ok "BAZ" /\ 2 <= String.length "BAZ" /\ has_char "="%char "BAZ" = false.
Proof.
  apply (read_env_file_keys literal_eval_plain os_release sample_env_world
           (read_env_file literal_eval_plain os_release sample_env_world).2
           [("FOO", PyStr "bar"); ("BAZ", PyStr "q z")]);
    [by_evaluation|set_by_evaluation].
Defined.

Lemma read_os_release_fallback_witness :
  read_os_release literal_eval_plain "/" sample_env_world
    = read_env_file literal_eval_plain os_release sample_env_world
  /\ read_os_release literal_eval_plain "/" sample_world
     = (Raise FileNotFoundError, sample_world)
  /\ read_os_release literal_eval_plain os_release sample_env_world
     = (Raise NotADirectoryError, sample_env_world)
  /\ read_os_release literal_eval_plain "/var" user_world
     = (Raise PermissionError, user_world).
Proof.
  pose proof (read_os_release_fallback literal_eval_plain "/" sample_env_world) as Hthere.
  pose proof (read_os_release_fallback literal_eval_plain "/" sample_world) as Hnone.
  pose proof (read_os_release_fallback literal_eval_plain os_release sample_env_world)
    as Hbelow.
  pose proof (read_os_release_fallback literal_eval_plain "/var" user_world) as Hclosed.
  cbv zeta in Hthere, Hnone, Hbelow, Hclosed.
  destruct Hthere as (Hetc & _).
  destruct Hnone as (_ & Husr & _).
  destruct Hbelow as (_ & _ & Herr & _).
  destruct Hclosed as (_ & _ & _ & _ & _ & Hpass).
  split; [|split; [|split]]; [| | |apply Hpass; [by_evaluation|done|done|done]].
  - apply (Hetc (os_release, false)); [by_evaluation|]. right. by eexists.
  - rewrite (Husr ("/etc/os-release", false)); by_evaluation.
  - rewrite (Herr NotADirectoryError); [by_evaluation|by_evaluation|].
    right. by left.
Defined.

Lemma identity_reads_decimal_witness :
  (Z.abs 1000 < 10 ^ Z.of_nat int_max_str_digits)%Z
  /\ os_environ sudo_world !! "SUDO_UID" = Some (str_of_int 1000)
  /\ os_environ sudo_world !! "SUDO_GID" = Some (str_of_int 1000)
  /\ INVOKING_USER.class_statement sudo_world
     = (Ret tt, set_class_attrs (Some (Identity 1000 1000 false)) sudo_world).
Proof.
  assert (Hb : (Z.abs 1000 < 10 ^ Z.of_nat int_max_str_digits)%Z) by by_evaluation.
  assert (Hu : os_environ sudo_world !! "SUDO_UID" = Some (str_of_int 1000))
    by by_evaluation.
  assert (Hg : os_environ sudo_world !! "SUDO_GID" = Some (str_of_int 1000))
    by by_evaluation.
  split; [exact Hb|]. split; [exact Hu|]. split; [exact Hg|].
  exact (identity_reads_decimal sudo_world 1000 1000 Hb Hb Hg (or_introl Hu)).
Defined.

Lemma identity_rejects_text_witness :
  int_of_str "admin" = None
  /\ int_of_str (String (ascii_of_nat 28) "1000") = None
  /\ int_of_str (string_of_list_ascii (replicate 4301 "1"%char)) = None
  /\ os_environ text_uid_world !! "SUDO_UID" = Some "admin"
  /\ INVOKING_USER.class_statement text_uid_world = (Raise ValueError, text_uid_world).
Proof.
  assert (Hi : int_of_str "admin" = None) by by_evaluation.
  assert (Hu : os_environ text_uid_world !! "SUDO_UID" = Some "admin") by by_evaluation.
  split; [exact Hi|]. split; [by_evaluation|]. split; [by_evaluation|].
  split; [exact Hu|].
  apply (identity_rejects_text text_uid_world "admin");
    [discriminate|exact Hi|left; exact Hu].
Defined.

Lemma name_memoized_witness :
  INVOKING_USER.name root_only_pw_name imported_world
    = (Ret "root", set_name_cache (Some "root") imported_world)
  /\ name_cache (set_name_cache (Some "root") imported_world) = Some "root"
  /\ INVOKING_USER.name empty_pw_name (set_name_cache (Some "root") imported_world)
     = (Ret "root", set_name_cache (Some "root") imported_world)
  /\ (INVOKING_USER.name empty_pw_name imported_world).2 = imported_world.
Proof.
  assert (H : INVOKING_USER.name root_only_pw_name imported_world
              = (Ret "root", set_name_cache (Some "root") imported_world))
    by by_evaluation.
  split; [exact H|].
  destruct (name_memoized root_only_pw_name _ _ _ H) as [Hc Hlater].
  split; [exact Hc|]. split; [apply Hlater; reflexivity|].
  exact (name_memoized empty_pw_name imported_world
           (INVOKING_USER.name empty_pw_name imported_world).2 (Raise KeyError)
           ltac:(by_evaluation)).
Defined.

Lemma init_logs_once_witness :
  exists c n h,
    class_attrs imported_world = Some c
    /\ logged (INVOKING_USER.init root_only_pw_name root_only_expanduser imported_world).2
       = logged imported_world ++ [LogRecord DEBUG (MsgRunningAs n (uid c) (gid c) h)]
    /\ name_cache
         (INVOKING_USER.init root_only_pw_name root_only_expanduser imported_world).2
       = Some n.
Proof.
  destruct (init_logs_once root_only_pw_name root_only_expanduser imported_world
              (INVOKING_USER.init root_only_pw_name root_only_expanduser imported_world).2)
    as (c & n & h & Hc & Hlog & Hn & _); [by_evaluation|].
  exists c, n, h. split; [exact Hc|]. split; [exact Hlog|exact Hn].
Defined.

Lemma is_running_user_after_import_witness :
  INVOKING_USER.is_running_user imported_world = (Ret true, imported_world)
  /\ INVOKING_USER.is_running_user imported_sudo_world = (Ret false, imported_sudo_world).
Proof.
  split.
  - apply (proj1 (is_running_user_after_import sample_world imported_world
                    ltac:(by_evaluation))); left; by_evaluation.
  - apply (proj2 (is_running_user_after_import sudo_world imported_sudo_world
                    ltac:(by_evaluation)) 1000%Z); [by_evaluation|discriminate].
Defined.

Lemma format_rlimit_unambiguous_witness :
  format_rlimit (-1) sample_getrlimit 7 = Ret "1024:infinity"
  /\ format_rlimit (-1) sample_getrlimit 3 = Raise (BodyError 22).
Proof.
  destruct (format_rlimit_unambiguous (-1) sample_getrlimit)
    as (_ & _ & _ & Hraise & Htext & _).
  split; [by rewrite (Htext 7%Z 1024%Z (-1)%Z eq_refl)|].
  apply Hraise. reflexivity.
Defined.

Lemma generate_next_value_spec_witness :
  StrEnum._generate_next_value_ "squashfs" 1 0 [] = "squashfs"
  /\ has_char "_"%char (StrEnum._generate_next_value_ "uki_addon" 1 1 ["squashfs"]) = false.
Proof.
  destruct (generate_next_value_spec "squashfs" "squashfs" 1 0 []) as (_ & _ & Hsame & _).
  destruct (generate_next_value_spec "uki_addon" "uki_addon" 1 1 ["squashfs"]) as (Hno & _).
  split; [apply Hsame; reflexivity|exact Hno].
Defined.

Lemma values_spec_witness :
  StrEnum.values (StrEnum.auto_class ["uki_addon"; "squashfs"])
    = inr (replace_underscores <$> ["uki_addon"; "squashfs"])
  /\ StrEnum.values [StrEnum.Member "disk" (PyStr "disk"); StrEnum.Member "size" PyOther]
     = inl AssertionError.
Proof.
  destruct (values_spec [] ["uki_addon"; "squashfs"]) as (_ & _ & Hauto & _).
  split; [exact Hauto|].
  apply (proj1 (values_spec
                  [StrEnum.Member "disk" (PyStr "disk"); StrEnum.Member "size" PyOther] [])).
  exists (StrEnum.Member "size" PyOther). split; [|reflexivity].
  apply elem_of_cons. right. apply elem_of_cons. by left.
Defined.

Lemma make_executable_spec_witness :
  make_executable "/work" "run.sh" script_fs
    = (Ret tt, <[script := Inode 33252 true true true]> script_fs)
  /\ make_executable "/work" shared_script script_fs
     = (Ret tt, <[shared_script := Inode 33252 true false true]> script_fs)
  /\ make_executable "/work" "/work/none" script_fs = (Raise FileNotFoundError, script_fs)
  /\ make_executable "/work" "/work/run.sh/x" script_fs
     = (Raise NotADirectoryError, script_fs).
Proof.
  destruct (make_executable_spec "/work" "run.sh" script_fs) as (_ & _ & _ & Hown).
  destruct (make_executable_spec "/work" shared_script script_fs) as (_ & _ & _ & Hshared).
  destruct (make_executable_spec "/work" "/work/none" script_fs) as (_ & Hmissing & _).
  destruct (make_executable_spec "/work" "/work/run.sh/x" script_fs) as (Hlookup & _).
  pose proof (Hown (script, false) (Inode 33188 true true true)) as H1.
  pose proof (Hshared (shared_script, false) (Inode 34212 true false true)) as H2.
  cbv zeta in H1, H2.
  split; [|split; [|split]].
  - destruct H1 as [Hrun _];
      [by_evaluation|by_evaluation|reflexivity|unfold mode_ok; simpl; lia|exact Hrun].
  - destruct H2 as [Hrun _];
      [by_evaluation|by_evaluation|reflexivity|unfold mode_ok; simpl; lia|exact Hrun].
  - apply (Hmissing ("/work/none", false)); by_evaluation.
  - apply Hlookup. by_evaluation.
Defined.

Lemma chdir_missing_target_witness :
  cwd sample_world ∈ dirs sample_world
  /\ chdir path_or_str_eq path_or_str_fspath (APath "/nowhere") body_chdir_raise
       sample_world
     = (Raise FileNotFoundError,
        set_chdir_calls (chdir_calls sample_world ++ ["/nowhere"; cwd sample_world])
          sample_world)
  /\ (chdir path_or_str_eq path_or_str_fspath (APath "/var") body_chdir_raise
        user_world).1 = Raise PermissionError
  /\ (chdir path_or_str_eq path_or_str_fspath (AStr "/etc/os-release/") body_chdir_raise
        sample_env_world).1 = Raise NotADirectoryError.
Proof.
  assert (H : cwd sample_world ∈ dirs sample_world) by set_by_evaluation.
  split; [exact H|]. split; [|split].
  - apply (chdir_missing_target path_or_str path_or_str_eq path_or_str_fspath
             (APath "/nowhere") body_chdir_raise sample_world FileNotFoundError);
      [exact H|by_evaluation|by_evaluation|reflexivity].
  - destruct (chdir_missing_target path_or_str path_or_str_eq path_or_str_fspath
                (APath "/var") body_chdir_raise user_world PermissionError)
      as [Hrun _]; [set_by_evaluation|by_evaluation|by_evaluation|reflexivity|].
    by rewrite Hrun.
  - destruct (chdir_missing_target path_or_str path_or_str_eq path_or_str_fspath
                (AStr "/etc/os-release/") body_chdir_raise sample_env_world
                NotADirectoryError)
      as [Hrun _]; [set_by_evaluation|by_evaluation|by_evaluation|reflexivity|].
    by rewrite Hrun.
Defined.

Lemma scopedenv_tempdir_and_c_table_witness :
  tempfile_tempdir sample_world = Some "/tmp"
  /\ tempfile_tempdir (scopedenv_world sample_overrides sample_world) = None
  /\ tempfile_tempdir (scopedenv sample_overrides body_umask_raise sample_world).2 = None
  /\ c_environ (scopedenv sample_overrides body_umask_raise sample_world).2 !! "TMPDIR"
     = Some "/var/tmp".
Proof.
  assert (Hnd : NoDup sample_overrides.*1) by (apply NoDup_singleton).
  assert (H : Forall (fun kv => accepts kv.1 kv.2 = true) sample_overrides)
    by (repeat constructor).
  destruct (scopedenv_tempdir_and_c_table sample_overrides body_umask_raise sample_world
              (body_umask_raise (scopedenv_world sample_overrides sample_world)).2
              (Raise (BodyError 2)) Hnd H)
    as (Hin & Hout & _ & Hkept); [by_evaluation|discriminate|].
  split; [reflexivity|]. split; [exact Hin|]. split; [exact Hout|].
  apply Hkept; [by_evaluation|reflexivity].
Defined.

Lemma scopedenv_nested_witness :
  os_environ (scopedenv_world inner_overrides (scopedenv_world sample_overrides sample_world))
    !! "TMPDIR" = Some "/scratch"
  /\ exists w',
       scopedenv sample_overrides (scopedenv inner_overrides body_umask_raise) sample_world
         = (Raise (BodyError 2), w')
       /\ os_environ w' = os_environ sample_world.
Proof.
  assert (Hnd1 : NoDup sample_overrides.*1) by (apply NoDup_singleton).
  assert (Hnd2 : NoDup inner_overrides.*1) by set_by_evaluation.
  assert (H1 : Forall (fun kv => accepts kv.1 kv.2 = true) sample_overrides)
    by (repeat constructor).
  assert (H2 : Forall (fun kv => accepts kv.1 kv.2 = true) inner_overrides)
    by (repeat constructor).
  destruct (scopedenv_nested sample_overrides inner_overrides body_umask_raise sample_world
              (body_umask_raise
                 (scopedenv_world inner_overrides
                    (scopedenv_world sample_overrides sample_world))).2
              (Raise (BodyError 2)) Hnd1 Hnd2 H1 H2)
    as [Hin Hout]; [by_evaluation|discriminate|].
  split; [|exact Hout].
  rewrite Hin. reflexivity.
Defined.

Lemma umask_keeps_permission_bits_witness :
  proc_umask (set_proc_umask (Z.land 3647 S_IRWXUGO) sample_world) = 63%Z
  /\ exists w',
       umask 3647 body_umask_raise sample_world = (Raise (BodyError 2), w')
       /\ proc_umask w' = proc_umask sample_world.
Proof.
  split; [reflexivity|].
  destruct (umask_keeps_permission_bits 3647 body_umask_raise sample_world
              (body_umask_raise (set_proc_umask (Z.land 3647 S_IRWXUGO) sample_world)).2
              (Raise (BodyError 2)))
    as (_ & _ & Hout); [lia|unfold S_IRWXUGO; simpl; lia|by_evaluation|discriminate|].
  exact Hout.
Defined.

Lemma flock_leaves_table_witness :
  openable lock_path lock_world
  /\ fds lock_world !! lowest_free (fds lock_world) = None
  /\ flock lock_path body_with_fd_raise lock_world
     = (Raise (BodyError 4), set_fds (fds lock_world) (locked lock_path lock_world)).
Proof.
  assert (Hop : openable lock_path lock_world) by (exists lock_path; by_evaluation).
  split; [exact Hop|].
  apply (flock_leaves_table lock_path body_with_fd_raise lock_world
           (locked lock_path lock_world) (Raise (BodyError 4)) Hop);
    [set_by_evaluation|by_evaluation|reflexivity|discriminate|reflexivity].
Defined.

Lemma flock_not_reentrant_witness :
  openable lock_path lock_world
  /\ (flock lock_path (fun _ => flock lock_path body_with_fd_raise) lock_world).1 = Hang
  /\ (flock lock_path (fun _ => flock "image.lock" body_with_fd_raise) lock_world).1 = Hang.
Proof.
  assert (Hop : openable lock_path lock_world) by (exists lock_path; by_evaluation).
  split; [exact Hop|]. split; [|by_evaluation].
  apply (flock_not_reentrant lock_path body_with_fd_raise lock_world Hop);
    [set_by_evaluation|by_evaluation].
Defined.

Lemma flock_sequential_witness :
  flock lock_path body_with_fd_return lock_world = (Ret tt, lock_world)
  /\ (flock lock_path body_with_fd_return ≫= fun _ => flock lock_path body_with_fd_raise)
       lock_world
     = (Raise (BodyError 4), lock_world).
Proof.
  assert (Hop : openable lock_path lock_world) by (exists lock_path; by_evaluation).
  destruct (flock_sequential lock_path body_with_fd_return body_with_fd_raise lock_world
              (locked lock_path lock_world) tt Hop)
    as [Hfirst Hboth];
    [set_by_evaluation|by_evaluation|reflexivity|reflexivity|reflexivity|reflexivity
    |reflexivity|reflexivity|reflexivity|reflexivity|].
  split.
  - rewrite Hfirst. by_evaluation.
  - rewrite Hboth. by_evaluation.
Defined.
